(** * lineFinding: octant tracing of raster line segments and their
      post-processing (grouping and merging)

    A shallow embedding of [lineFinding.py] and [postProcessing.py].

    Conventions of the embedding.
    - Python integers are [Z]; the pixel samples of an image are [Z].
    - A numpy 2-d array is its shape and its cells; indexing follows numpy:
      an index [i] with [-n <= i < 0] addresses cell [n + i], an index outside
      [-n, n) raises [IndexError].
    - Python exceptions are the [Raise] outcome of the result type [res];
      nothing in the two modules catches an exception.
    - [while] loops and the recursive functions of [postProcessing.py] take a
      fuel argument; [OutOfFuel] is the outcome of an exhausted fuel only, and
      the callers pass a fuel that is proved to be enough.
    - [LineSegment] objects are mutated in place by the merge step and are
      compared by identity ([in], [list.remove]): post-processing works on
      references [loc] into a store [heap].
    - The floating point computation of [computeAngle] is read over the real
      numbers ([sqrt], [acos], degrees and rounding to five decimals are the
      exact real functions).
    - What the Python code tests against [None] or with [isinstance] is a
      type here: the image, the predicate, the segments and the structures
      are always supplied and of their class, so the [ValueError]s of those
      tests are no outcomes of the model; [angle_epsilon] alone is
      optional. *)

From Stdlib Require Import ZArith List Bool String Lia Reals Lra Permutation.
From Stdlib Require Import DecimalString Relations.
Import ListNotations.

Set Implicit Arguments.

Open Scope Z_scope.

(* ================================================================== *)
(** ** Python outcomes *)

Inductive exn : Type :=
| ValueError (msg : string)
| IndexError
| UnboundLocalError
| ZeroDivisionError.

Inductive res (A : Type) : Type :=
| Ok (a : A)
| Raise (e : exn)
| OutOfFuel.

Arguments Ok {A} a.
Arguments Raise {A} e.
Arguments OutOfFuel {A}.

Definition bind {A B : Type} (c : res A) (k : A -> res B) : res B :=
  match c with
  | Ok a => k a
  | Raise e => Raise e
  | OutOfFuel => OutOfFuel
  end.

Notation "x <- c ;; k" := (bind c (fun x => k))
  (at level 61, c at next level, right associativity).
Notation "' p <- c ;; k" := (bind c (fun x => let 'p := x in k))
  (at level 61, p pattern, c at next level, right associativity).

(** [str(n)] of a Python integer. *)
Definition str (z : Z) : string := NilZero.string_of_int (Z.to_int z).

(** [range(lo, hi)] *)
Fixpoint range_from (lo : Z) (n : nat) : list Z :=
  match n with
  | O => []
  | S k => lo :: range_from (lo + 1) k
  end.

Definition range (lo hi : Z) : list Z := range_from lo (Z.to_nat (hi - lo)).

(** A [for] loop whose body threads a state and may raise. *)
Fixpoint for_each {A S : Type} (xs : list A) (body : A -> S -> res S) (s : S)
  : res S :=
  match xs with
  | [] => Ok s
  | x :: rest => s' <- body x s ;; for_each rest body s'
  end.

(* ================================================================== *)
(** ** numpy 2-d arrays *)

Record ndarray (A : Type) : Type := mk_ndarray {
  shape0 : Z;              (* number of rows,    [a.shape[0]] *)
  shape1 : Z;              (* number of columns, [a.shape[1]] *)
  item : Z -> Z -> A       (* cell at row, column *)
}.

(** The cell an index addresses along an axis of size [n]. *)
Definition axis_index (n i : Z) : option Z :=
  if (0 <=? i) && (i <? n) then Some i
  else if (- n <=? i) && (i <? 0) then Some (n + i)
  else None.

(** [a[y, x]] *)
Definition getitem {A : Type} (a : ndarray A) (y x : Z) : res A :=
  match axis_index (shape0 a) y, axis_index (shape1 a) x with
  | Some i, Some j => Ok (item a i j)
  | _, _ => Raise IndexError
  end.

(** [a[y, x] = v] *)
Definition setitem {A : Type} (a : ndarray A) (y x : Z) (v : A)
  : res (ndarray A) :=
  match axis_index (shape0 a) y, axis_index (shape1 a) x with
  | Some i, Some j =>
      Ok (mk_ndarray (shape0 a) (shape1 a)
            (fun i' j' => if (i' =? i) && (j' =? j) then v else item a i' j'))
  | _, _ => Raise IndexError
  end.

(** [numpy.zeros(shape)] *)
Definition zeros (shape : Z * Z) : ndarray Z :=
  mk_ndarray (fst shape) (snd shape) (fun _ _ => 0).

(** An image given by its rows (all of the length of the first one). *)
Definition array_of_rows (rows : list (list Z)) : ndarray Z :=
  mk_ndarray (Z.of_nat (List.length rows))
             (Z.of_nat (List.length (hd [] rows)))
             (fun i j => nth (Z.to_nat j) (nth (Z.to_nat i) rows []) 0).

Definition image := ndarray Z.

(* ================================================================== *)
(** ** class VisitedMatrix *)

Module VisitedMatrix.

Record t : Type := mk { _visited_matrix : ndarray Z }.

(** [__init__(image)] *)
Definition init (img : image) : t :=
  mk (zeros (shape0 img, shape1 img)).

Definition isValidIndice (self : t) (x y : Z) : bool :=
  if (y <? 0) || (y >? shape0 (_visited_matrix self)) then false
  else if (x <? 0) || (x >? shape1 (_visited_matrix self)) then false
  else true.

Definition invalid_indices (x y : Z) : exn :=
  ValueError ("Invalid indices x=" ++ str x ++ ", y=" ++ str y)%string.

Definition isVisited (self : t) (x y : Z) : res bool :=
  if negb (isValidIndice self x y) then Raise (invalid_indices x y)
  else v <- getitem (_visited_matrix self) y x ;; Ok (1 =? v).

Definition setVisited (self : t) (x y : Z) : res t :=
  if negb (isValidIndice self x y) then Raise (invalid_indices x y)
  else m <- setitem (_visited_matrix self) y x 1 ;; Ok (mk m).

Definition setRowVisited (self : t) (y x1 x2 : Z) : res t :=
  if negb (isValidIndice self x1 y && isValidIndice self x2 y)
  then Raise (ValueError "Invalid indices")
  else
    let '(x1, x2) := if x1 >? x2 then (x2, x1) else (x1, x2) in
    for_each (range x1 (x2 + 1)) (fun i vm => setVisited vm i y) self.

Definition setColumnVisited (self : t) (x y1 y2 : Z) : res t :=
  if negb (isValidIndice self x y1 && isValidIndice self x y2)
  then Raise (ValueError "Invalid indices")
  else
    let '(y1, y2) := if y1 >? y2 then (y2, y1) else (y1, y2) in
    for_each (range y1 (y2 + 1)) (fun i vm => setVisited vm x i) self.

End VisitedMatrix.

(* ================================================================== *)
(** ** class LineSegment *)

Module LineSegment.

(** Every segment the two modules build has its four coordinates set
    ([LineSegment(j, i, j, i)]); [_vertical] is [None] or [False] until
    [setVertical], both read as [false]. *)
Record t : Type := mk {
  x_start : Z;
  y_start : Z;
  x_end : Z;
  y_end : Z;
  _vertical : bool
}.

Definition setVertical (self : t) : t :=
  mk (x_start self) (y_start self) (x_end self) (y_end self) true.

Definition swapStartEnd (self : t) : t :=
  mk (x_end self) (y_end self) (x_start self) (y_start self)
     (_vertical self).

Definition isPoint (self : t) : bool :=
  (0 =? x_end self - x_start self) && (0 =? y_end self - y_start self).

Definition getXLength (self : t) : Z := Z.abs (x_end self - x_start self) + 1.

Definition getYLength (self : t) : Z := Z.abs (y_end self - y_start self) + 1.

(** [math.sqrt(a + b)] of the two squared pixel lengths, over the reals. *)
Definition getLineLength (self : t) : R :=
  sqrt (IZR (getXLength self ^ 2 + getYLength self ^ 2)).

Definition setEndCoordinate (self : t) (x y : Z) : t :=
  mk (x_start self) (y_start self) x y (_vertical self).

Definition setStartCoordinate (self : t) (x y : Z) : t :=
  mk x y (x_end self) (y_end self) (_vertical self).

Definition isValidIndice (img : image) (x y : Z) : bool :=
  if (y <? 0) || (y >=? shape0 img) then false
  else if (x <? 0) || (x >=? shape1 img) then false
  else true.

Definition isNextPixelBelow (self : t) (img : image)
           (isLineColor : Z -> bool) : res bool :=
  let temp_x := x_end self in
  let temp_y := y_end self + 1 in
  if negb (isValidIndice img temp_x temp_y) then Ok false
  else p <- getitem img temp_y temp_x ;; Ok (isLineColor p).

Definition isNextPixelRightDown (self : t) (img : image)
           (isLineColor : Z -> bool) : res bool :=
  let temp_x := x_end self + 1 in
  let temp_y := y_end self + 1 in
  if negb (isValidIndice img temp_x temp_y) then Ok false
  else p <- getitem img temp_y temp_x ;; Ok (isLineColor p).

Definition isNextPixelLeftDown (self : t) (img : image)
           (isLineColor : Z -> bool) : res bool :=
  let '(temp_x, temp_y) :=
    if _vertical self then (x_end self - 1, y_end self + 1)
    else (x_start self - 1, y_start self + 1) in
  if negb (isValidIndice img temp_x temp_y) then Ok false
  else p <- getitem img temp_y temp_x ;; Ok (isLineColor p).

End LineSegment.

(* ================================================================== *)
(** ** Run finders *)

(** [while l < image.shape[0] and isLineColor(image[l,x]): l += 1] *)
Fixpoint findVerticalSegment_while (fuel : nat) (img : image) (x l : Z)
         (isLineColor : Z -> bool) : res Z :=
  if l <? shape0 img then
    p <- getitem img l x ;;
    if isLineColor p then
      match fuel with
      | O => OutOfFuel
      | S fuel' => findVerticalSegment_while fuel' img x (l + 1) isLineColor
      end
    else Ok l
  else Ok l.

Definition findVerticalSegment (img : image) (x y : Z)
           (isLineColor : Z -> bool) : res (Z * Z) :=
  l <- findVerticalSegment_while (Z.to_nat (shape0 img - y)) img x y
         isLineColor ;;
  Ok (x, l - 1).

(** [while l >= 0 and isLineColor(image[y,l]): l -= 1] *)
Fixpoint findHorizontalNegativeSegment_while (fuel : nat) (img : image)
         (l y : Z) (isLineColor : Z -> bool) : res Z :=
  if l >=? 0 then
    p <- getitem img y l ;;
    if isLineColor p then
      match fuel with
      | O => OutOfFuel
      | S fuel' =>
          findHorizontalNegativeSegment_while fuel' img (l - 1) y isLineColor
      end
    else Ok l
  else Ok l.

Definition findHorizontalNegativeSegment (img : image) (x y : Z)
           (isLineColor : Z -> bool) : res (Z * Z) :=
  l <- findHorizontalNegativeSegment_while (Z.to_nat (x + 1)) img x y
         isLineColor ;;
  Ok (l + 1, y).

(** [while l < image.shape[1] and isLineColor(image[y,l]): l += 1] *)
Fixpoint findHorizontalPositiveSegment_while (fuel : nat) (img : image)
         (l y : Z) (isLineColor : Z -> bool) : res Z :=
  if l <? shape1 img then
    p <- getitem img y l ;;
    if isLineColor p then
      match fuel with
      | O => OutOfFuel
      | S fuel' =>
          findHorizontalPositiveSegment_while fuel' img (l + 1) y isLineColor
      end
    else Ok l
  else Ok l.

Definition findHorizontalPositiveSegment (img : image) (x y : Z)
           (isLineColor : Z -> bool) : res (Z * Z) :=
  l <- findHorizontalPositiveSegment_while (Z.to_nat (shape1 img - x)) img x y
         isLineColor ;;
  Ok (l - 1, y).

(* ================================================================== *)
(** ** Octant handlers *)

(** The variables an extension loop carries from one iteration to the next.
    [run_end] holds the locals [x_end], [y_end], unbound ([None]) until a run
    finder has assigned them; [x_temp] is the tracing column of the steep
    handler (the shallow handlers recompute theirs in every iteration). *)
Record locals : Type := mk_locals {
  lineSegment : LineSegment.t;
  visited_matrix : VisitedMatrix.t;
  x_temp : Z;
  run_end : option (Z * Z);
  moreSeg : bool
}.

Section Handlers.

Variable img : image.
Variable isLineColor : Z -> bool.

(** Fuel of the extension loops: an iteration that leaves [moreSeg] set has
    read a pixel of the row below the segment, and moves the segment to that
    row or further down. *)
Definition extension_fuel : nat := S (S (2 * Z.to_nat (shape0 img))).

(** Body of the [while moreSeg] loop of [handleFourthOctant]. *)
Definition handleFourthOctant_body (length max_length : Z) (st : locals)
  : res locals :=
  let seg := lineSegment st in
  let x_temp' := LineSegment.x_start seg - 1 in
  let y_temp := LineSegment.y_start seg + 1 in
  probe <- LineSegment.isNextPixelLeftDown seg img isLineColor ;;
  '(found, more) <-
    (if probe
     then xy <- findHorizontalNegativeSegment img x_temp' y_temp isLineColor ;;
          Ok (Some xy, moreSeg st)
     else Ok (run_end st, false)) ;;
  match found with
  | None => Raise UnboundLocalError
  | Some (x_end, y_end) =>
      let lengthX := x_temp' - x_end + 1 in
      if (lengthX >=? length) && (lengthX <=? max_length) then
        vm <- VisitedMatrix.setRowVisited (visited_matrix st)
                y_temp x_temp' x_end ;;
        Ok (mk_locals (LineSegment.setStartCoordinate seg x_end y_end) vm
                      (x_temp st) found more)
      else
        Ok (mk_locals seg (visited_matrix st) (x_temp st) found false)
  end.

(** Body of the [while moreSeg] loop of [handleSeventhOctant]. *)
Definition handleSeventhOctant_body (length max_length : Z) (st : locals)
  : res locals :=
  let seg := lineSegment st in
  let x_temp' := LineSegment.x_end seg + 1 in
  let y_temp := LineSegment.y_end seg + 1 in
  probe <- LineSegment.isNextPixelRightDown seg img isLineColor ;;
  '(found, more) <-
    (if probe
     then xy <- findHorizontalPositiveSegment img x_temp' y_temp isLineColor ;;
          Ok (Some xy, moreSeg st)
     else Ok (run_end st, false)) ;;
  match found with
  | None => Raise UnboundLocalError
  | Some (x_end, y_end) =>
      let lengthX := x_end - x_temp' + 1 in
      if (lengthX >=? length) && (lengthX <=? max_length) then
        vm <- VisitedMatrix.setRowVisited (visited_matrix st)
                y_temp x_temp' x_end ;;
        Ok (mk_locals (LineSegment.setEndCoordinate seg x_end y_end) vm
                      (x_temp st) found more)
      else
        Ok (mk_locals seg (visited_matrix st) (x_temp st) found false)
  end.

(** Body of the [while moreSeg] loop of [handleFifthAndSixthOctant]. *)
Definition handleFifthAndSixthOctant_body (length max_length : Z)
           (st : locals) : res locals :=
  let seg := lineSegment st in
  let y_temp := LineSegment.y_end seg + 1 in
  left <- LineSegment.isNextPixelLeftDown seg img isLineColor ;;
  '(x_temp', found, more) <-
    (if left
     then let x_temp' := (x_temp st) - 1 in
          xy <- findVerticalSegment img x_temp' y_temp isLineColor ;;
          Ok (x_temp', Some xy, moreSeg st)
     else
       right <- LineSegment.isNextPixelRightDown seg img isLineColor ;;
       if right
       then let x_temp' := (x_temp st) + 1 in
            xy <- findVerticalSegment img x_temp' y_temp isLineColor ;;
            Ok (x_temp', Some xy, moreSeg st)
       else Ok ((x_temp st), run_end st, false)) ;;
  match found with
  | None => Raise UnboundLocalError
  | Some (x_end, y_end) =>
      let lengthY := (y_end - y_temp) + 1 in
      if (lengthY >=? length) && (lengthY <=? max_length) then
        vm <- VisitedMatrix.setColumnVisited (visited_matrix st)
                x_temp' y_temp y_end ;;
        Ok (mk_locals (LineSegment.setEndCoordinate seg x_end y_end) vm
                      x_temp' found more)
      else
        Ok (mk_locals seg (visited_matrix st) x_temp' found false)
  end.

(** [while moreSeg: body] *)
Fixpoint while_moreSeg (fuel : nat) (body : locals -> res locals)
         (st : locals) : res locals :=
  if moreSeg st then
    match fuel with
    | O => OutOfFuel
    | S fuel' => st' <- body st ;; while_moreSeg fuel' body st'
    end
  else Ok st.

Definition handleFourthOctant (seg : LineSegment.t) (vm : VisitedMatrix.t)
  : res (LineSegment.t * VisitedMatrix.t) :=
  let length := LineSegment.getXLength seg in
  let max_length := 2 * length in
  st <- while_moreSeg extension_fuel
          (handleFourthOctant_body length max_length)
          (mk_locals seg vm 0 None true) ;;
  Ok (lineSegment st, visited_matrix st).

Definition handleSeventhOctant (seg : LineSegment.t) (vm : VisitedMatrix.t)
  : res (LineSegment.t * VisitedMatrix.t) :=
  let length := LineSegment.getXLength seg in
  let max_length := 2 * length in
  st <- while_moreSeg extension_fuel
          (handleSeventhOctant_body length max_length)
          (mk_locals seg vm 0 None true) ;;
  Ok (lineSegment st, visited_matrix st).

Definition handleFourthAndSeventhOctant (seg : LineSegment.t)
           (vm : VisitedMatrix.t) : res (LineSegment.t * VisitedMatrix.t) :=
  '(x_end, y_end) <-
    findHorizontalPositiveSegment img (LineSegment.x_start seg)
      (LineSegment.y_start seg) isLineColor ;;
  let seg := LineSegment.setEndCoordinate seg x_end y_end in
  vm <- VisitedMatrix.setRowVisited vm y_end (LineSegment.x_start seg)
          x_end ;;
  right <- LineSegment.isNextPixelRightDown seg img isLineColor ;;
  if right then handleSeventhOctant seg vm
  else
    left <- LineSegment.isNextPixelLeftDown seg img isLineColor ;;
    if left then handleFourthOctant seg vm
    else Ok (seg, vm).

(** The state in which [handleFifthAndSixthOctant] enters its loop. *)
Definition handleFifthAndSixthOctant_init (seg : LineSegment.t)
           (vm : VisitedMatrix.t) : res locals :=
  '(x_end, y_end) <-
    findVerticalSegment img (LineSegment.x_start seg)
      (LineSegment.y_start seg) isLineColor ;;
  let seg := LineSegment.setEndCoordinate seg x_end y_end in
  vm <- VisitedMatrix.setColumnVisited vm (LineSegment.x_start seg)
          (LineSegment.y_start seg) y_end ;;
  Ok (mk_locals seg vm (LineSegment.x_start seg) (Some (x_end, y_end)) true).

Definition handleFifthAndSixthOctant (seg : LineSegment.t)
           (vm : VisitedMatrix.t) : res (LineSegment.t * VisitedMatrix.t) :=
  st0 <- handleFifthAndSixthOctant_init seg vm ;;
  let length := LineSegment.getYLength (lineSegment st0) in
  let max_length := 2 * length in
  st <- while_moreSeg extension_fuel
          (handleFifthAndSixthOctant_body length max_length) st0 ;;
  Ok (lineSegment st, visited_matrix st).

(** Body of the two nested [for] loops of [_findLines] at row [i],
    column [j]. *)
Definition findLines_pixel (i j : Z)
           (acc : list LineSegment.t * VisitedMatrix.t)
  : res (list LineSegment.t * VisitedMatrix.t) :=
  let '(lines, vm) := acc in
  p <- getitem img i j ;;
  if isLineColor p then
    visited <- VisitedMatrix.isVisited vm j i ;;
    if negb visited then
      let seg := LineSegment.mk j i j i false in
      below <- LineSegment.isNextPixelBelow seg img isLineColor ;;
      '(seg, vm) <-
        (if below
         then handleFifthAndSixthOctant (LineSegment.setVertical seg) vm
         else handleFourthAndSeventhOctant seg vm) ;;
      Ok (lines ++ [seg], vm)
    else Ok acc
  else Ok acc.

Definition _findLines : res (list LineSegment.t) :=
  '(lines, _) <-
    for_each (range 0 (shape0 img))
      (fun i acc =>
         for_each (range 0 (shape1 img))
           (fun j acc => findLines_pixel i j acc) acc)
      ([], VisitedMatrix.init img) ;;
  Ok lines.

(** [getAsNumpyArray]: the quadruple [[x1, y1, x2, y2]]. *)
Definition getAsNumpyArray (seg : LineSegment.t) : list Z :=
  [LineSegment.x_start seg; LineSegment.y_start seg;
   LineSegment.x_end seg; LineSegment.y_end seg].

Definition transformLineSegmentsIntoNumpyArray (lines : list LineSegment.t)
  : list (list Z) :=
  map getAsNumpyArray lines.

Definition findLines : res (list (list Z)) :=
  lines <- _findLines ;;
  Ok (transformLineSegmentsIntoNumpyArray lines).

End Handlers.

(* ================================================================== *)
(** ** postProcessing.py: the store of segment objects *)

(** A reference to a [LineSegment] object.  Two references are the same
    object exactly when they are equal: the class defines no [__eq__], so
    [in] and [list.remove] compare by identity. *)
Abbreviation loc := nat (only parsing).

Definition heap : Type := loc -> LineSegment.t.

(** In-place mutation of the object at [l]. *)
Definition update (h : heap) (l : loc) (s : LineSegment.t) : heap :=
  fun l' => if Nat.eqb l' l then s else h l'.

(** The objects a traced segment list consists of: segment [k] of the list
    is the object at reference [k]. *)
Definition alloc (segs : list LineSegment.t) : heap * list loc :=
  (fun l => nth l segs (LineSegment.mk 0 0 0 0 false),
   seq 0 (List.length segs)).

(* ================================================================== *)
(** ** class Structure *)

Module Structure.

(** The backing list [_lines]; the [isinstance] checks of [append],
    [remove] and [__setitem__] are the element type. *)
Abbreviation t := (list loc) (only parsing).

Definition init : t := [].

Definition len (self : t) : Z := Z.of_nat (List.length self).

Definition getitem (self : t) (key : Z) : res loc :=
  match axis_index (len self) key with
  | Some k => Ok (nth (Z.to_nat k) self O)
  | None => Raise IndexError
  end.

Fixpoint set_nth (self : list loc) (k : nat) (value : loc) : list loc :=
  match self, k with
  | [], _ => []
  | _ :: rest, O => value :: rest
  | l :: rest, S k' => l :: set_nth rest k' value
  end.

Definition setitem (self : t) (key : Z) (value : loc) : res t :=
  match axis_index (len self) key with
  | Some k => Ok (set_nth self (Z.to_nat k) value)
  | None => Raise IndexError
  end.

Definition contains (self : t) (item : loc) : bool :=
  existsb (Nat.eqb item) self.

Definition append (self : t) (line : loc) : t := self ++ [line].

(** [list.remove]: drops the first occurrence. *)
Fixpoint remove (self : t) (line : loc) : res t :=
  match self with
  | [] => Raise (ValueError "list.remove(x): x not in list")
  | l :: rest =>
      if Nat.eqb l line then Ok rest
      else rest' <- remove rest line ;; Ok (l :: rest')
  end.

Definition transformIntoNumpyArray (h : heap) (self : t) : list (list Z) :=
  map (fun l => getAsNumpyArray (h l)) self.

End Structure.

(* ================================================================== *)
(** ** Adjacency and grouping *)

Definition getAdjacentCoordinates (x y delta : Z) : list (Z * Z) :=
  flat_map (fun i => map (fun j => (i, j)) (range (y - delta) (y + delta + 1)))
           (range (x - delta) (x + delta + 1)).

Definition isAdjacentPoint (x_1 y_1 x_2 y_2 delta : Z) : bool :=
  let points := getAdjacentCoordinates x_1 y_1 delta in
  existsb (fun p => (fst p =? x_2) && (snd p =? y_2)) points.

Definition isAdjacentToEnd (line_1 line_2 : LineSegment.t) (delta : Z)
  : bool :=
  isAdjacentPoint (LineSegment.x_end line_1) (LineSegment.y_end line_1)
                  (LineSegment.x_start line_2) (LineSegment.y_start line_2)
                  delta
  || isAdjacentPoint (LineSegment.x_end line_1) (LineSegment.y_end line_1)
                     (LineSegment.x_end line_2) (LineSegment.y_end line_2)
                     delta.

Definition isAdjacentToStart (line_1 line_2 : LineSegment.t) (delta : Z)
  : bool :=
  isAdjacentPoint (LineSegment.x_start line_1) (LineSegment.y_start line_1)
                  (LineSegment.x_start line_2) (LineSegment.y_start line_2)
                  delta
  || isAdjacentPoint (LineSegment.x_start line_1) (LineSegment.y_start line_1)
                     (LineSegment.x_end line_2) (LineSegment.y_end line_2)
                     delta.

Definition isAdjacent (line_1 line_2 : LineSegment.t) (delta : Z) : bool :=
  isAdjacentToStart line_1 line_2 delta || isAdjacentToEnd line_1 line_2 delta.

Section Grouping.

Variable h : heap.
Variable lines : list loc.
Variable delta : Z.

(** [structure] and [visitedLines] are lists the recursion appends to in
    place: they are threaded through the calls.  The fuel bounds the depth
    of the recursion. *)
Fixpoint collectAdjacentLines (fuel : nat) (currentLine : loc)
         (st : Structure.t * list loc) : res (Structure.t * list loc) :=
  match fuel with
  | O => OutOfFuel
  | S fuel' =>
      for_each lines
        (fun line st =>
           let '(structure, visitedLines) := st in
           if Structure.contains structure line
              || existsb (Nat.eqb line) visitedLines
           then Ok st
           else if isAdjacent (h currentLine) (h line) delta then
             collectAdjacentLines fuel' line
               (Structure.append structure line, visitedLines ++ [line])
           else Ok st)
        st
  end.

(** Body of the [for line_1 in lines] loop of [groupAdjacentLines]. *)
Definition groupAdjacentLines_body (line_1 : loc)
           (acc : list Structure.t * list loc)
  : res (list Structure.t * list loc) :=
  let '(structures, visitedLines) := acc in
  if existsb (Nat.eqb line_1) visitedLines then Ok acc
  else
    let structure := Structure.append Structure.init line_1 in
    let visitedLines := visitedLines ++ [line_1] in
    '(structure, visitedLines) <-
      collectAdjacentLines (S (List.length lines)) line_1
        (structure, visitedLines) ;;
    Ok (structures ++ [structure], visitedLines).

Definition groupAdjacentLines : res (list Structure.t) :=
  '(structures, _) <- for_each lines groupAdjacentLines_body ([], []) ;;
  Ok structures.

End Grouping.

(* ================================================================== *)
(** ** Slope model *)

Open Scope R_scope.

(** [round(r, 5)] of Python 2: the nearest multiple of [10^-5], a tie going
    away from zero. *)
Definition py_round5 (r : R) : R :=
  if Rle_dec 0 r then IZR (Int_part (r * 100000 + / 2)) / 100000
  else - (IZR (Int_part (- r * 100000 + / 2)) / 100000).

Definition degrees (r : R) : R := r * 180 / PI.

Definition Rle_bool (x y : R) : bool := if Rle_dec x y then true else false.

(** [math.acos], which refuses an argument outside [-1, 1]. *)
Definition math_acos (r : R) : res R :=
  if Rle_bool (-1) r && Rle_bool r 1 then Ok (acos r)
  else Raise (ValueError "math domain error").

(** [computeSlope]: [None] for a point and for a vertical segment, the
    quotient of the two float differences otherwise, over the reals. *)
Definition computeSlope (line : LineSegment.t) : option R :=
  if LineSegment.isPoint line then None
  else
    let delta_y := IZR (LineSegment.y_end line - LineSegment.y_start line) in
    let delta_x := IZR (LineSegment.x_end line - LineSegment.x_start line) in
    if Req_dec_T 0 delta_y then Some 0
    else if Req_dec_T 0 delta_x then None
    else Some (delta_y / delta_x).

Definition computeAngle (line_1 line_2 : LineSegment.t) : res R :=
  let a_1 := (LineSegment.x_start line_1 - LineSegment.x_end line_1)%Z in
  let a_2 := (LineSegment.y_start line_1 - LineSegment.y_end line_1)%Z in
  let b_1 := (LineSegment.x_start line_2 - LineSegment.x_end line_2)%Z in
  let b_2 := (LineSegment.y_start line_2 - LineSegment.y_end line_2)%Z in
  let ab := (a_1 * b_1 + a_2 * b_2)%Z in
  if (0 =? ab)%Z then Ok 90
  else
    let a_ := sqrt (IZR (a_1 ^ 2 + a_2 ^ 2)) in
    let b_ := sqrt (IZR (b_1 ^ 2 + b_2 ^ 2)) in
    let a_b_ := a_ * b_ in
    if Req_dec_T a_b_ 0 then Raise ZeroDivisionError
    else
      let r := IZR ab / a_b_ in
      acos <- math_acos (py_round5 r) ;;
      Ok (degrees acos).

Definition haveEqualSlope (line_1 line_2 : LineSegment.t)
           (angle_epsilon : option R) : res bool :=
  match angle_epsilon with
  | Some angle_epsilon =>
      angle <- computeAngle line_1 line_2 ;;
      Ok (Rle_bool (-1 * angle_epsilon) angle && Rle_bool angle angle_epsilon)
  | None => Raise (ValueError "angle_epsilon not set")
  end.

Close Scope R_scope.

(* ================================================================== *)
(** ** Merging *)

Section Merging.

Variable angle_epsilon : option R.
Variable delta : Z.

(** [combineLines] mutates one of its operands and returns it, or returns
    [None]; the result is the store after the call and the returned
    reference. *)
Definition combineLines (h : heap) (line_1 line_2 : loc)
  : res (heap * option loc) :=
  let s1 := h line_1 in
  let s2 := h line_2 in
  differ <-
    (if negb (LineSegment.isPoint s1) && negb (LineSegment.isPoint s2)
     then eq <- haveEqualSlope s1 s2 angle_epsilon ;; Ok (negb eq)
     else Ok false) ;;
  if differ then Ok (h, None)
  else if LineSegment.isPoint s1 then
    if isAdjacentToStart s2 s1 delta then
      Ok (update h line_1
            (LineSegment.setEndCoordinate s1 (LineSegment.x_end s2)
               (LineSegment.y_end s2)),
          Some line_1)
    else if isAdjacentToEnd s2 s1 delta then
      Ok (update h line_2
            (LineSegment.setEndCoordinate s2 (LineSegment.x_end s1)
               (LineSegment.y_end s1)),
          Some line_2)
    else Ok (h, None)
  else if LineSegment.isPoint s2 then
    if isAdjacentToStart s1 s2 delta then
      Ok (update h line_2
            (LineSegment.setEndCoordinate s2 (LineSegment.x_end s1)
               (LineSegment.y_end s1)),
          Some line_2)
    else if isAdjacentToEnd s1 s2 delta then
      Ok (update h line_1
            (LineSegment.setEndCoordinate s1 (LineSegment.x_end s2)
               (LineSegment.y_end s2)),
          Some line_1)
    else Ok (h, None)
  else if isAdjacentToStart s1 s2 delta then
    Ok (update h line_2
          (LineSegment.setEndCoordinate s2 (LineSegment.x_end s1)
             (LineSegment.y_end s1)),
        Some line_2)
  else if isAdjacentToEnd s1 s2 delta then
    Ok (update h line_1
          (LineSegment.setEndCoordinate s1 (LineSegment.x_end s2)
             (LineSegment.y_end s2)),
        Some line_1)
  else Ok (h, None).

(** The [for j in range(i+1, len(structure))] loop of
    [combineLinesWithEqualSlope_Rec], up to its first successful merge:
    [Some] of the structure after [structure[i] = combinedLine] and
    [structure.remove(line_2)], or [None] when no [j] merges. *)
Fixpoint combineLinesWithEqualSlope_for (h : heap) (structure : Structure.t)
         (i : Z) (line_1 : loc) (js : list Z)
  : res (heap * option Structure.t) :=
  match js with
  | [] => Ok (h, None)
  | j :: rest =>
      line_2 <- Structure.getitem structure j ;;
      '(h', combinedLine) <- combineLines h line_1 line_2 ;;
      match combinedLine with
      | Some combinedLine =>
          structure' <- Structure.setitem structure i combinedLine ;;
          structure'' <- Structure.remove structure' line_2 ;;
          Ok (h', Some structure'')
      | None => combineLinesWithEqualSlope_for h' structure i line_1 rest
      end
  end.

Fixpoint combineLinesWithEqualSlope_Rec (fuel : nat) (i : Z)
         (structure : Structure.t) (h : heap) : res (heap * Structure.t) :=
  match fuel with
  | O => OutOfFuel
  | S fuel' =>
      if Structure.len structure >? i then
        line_1 <- Structure.getitem structure i ;;
        '(h', merged) <-
          combineLinesWithEqualSlope_for h structure i line_1
            (range (i + 1) (Structure.len structure)) ;;
        match merged with
        | Some structure' =>
            combineLinesWithEqualSlope_Rec fuel' i structure' h'
        | None => combineLinesWithEqualSlope_Rec fuel' (i + 1) structure h'
        end
      else Ok (h, structure)
  end.

(** Every call either drops a segment or advances [i]. *)
Definition merge_fuel (structure : Structure.t) : nat :=
  S (2 * List.length structure).

(** Body of the [for structure in structures] loop of
    [combineLinesWithEqualSlope]. *)
Definition combineLinesWithEqualSlope_body (structure : Structure.t)
           (acc : heap * list Structure.t) : res (heap * list Structure.t) :=
  let '(h, processedStructures) := acc in
  '(h', structure') <-
    combineLinesWithEqualSlope_Rec (merge_fuel structure) 0 structure h ;;
  Ok (h', processedStructures ++ [structure']).

Definition combineLinesWithEqualSlope (structures : list Structure.t)
           (h : heap) : res (heap * list Structure.t) :=
  for_each structures combineLinesWithEqualSlope_body (h, []).

End Merging.

(* ================================================================== *)
(** * Properties *)

(** Turns boolean comparisons on [Z] in the context and the goal into
    propositions for [lia]. *)
Ltac zbool :=
  repeat match goal with
  | H : _ && _ = true |- _ => apply andb_true_iff in H; destruct H
  | H : _ || _ = false |- _ => apply orb_false_iff in H; destruct H
  | H : negb _ = true |- _ => apply negb_true_iff in H
  | H : negb _ = false |- _ => apply negb_false_iff in H
  | H : (_ <? _) = true |- _ => apply Z.ltb_lt in H
  | H : (_ <? _) = false |- _ => apply Z.ltb_ge in H
  | H : (_ <=? _) = true |- _ => apply Z.leb_le in H
  | H : (_ <=? _) = false |- _ => apply Z.leb_gt in H
  | H : (_ >? _) = true |- _ => rewrite Z.gtb_ltb in H
  | H : (_ >? _) = false |- _ => rewrite Z.gtb_ltb in H
  | H : (_ >=? _) = true |- _ => rewrite Z.geb_leb in H
  | H : (_ >=? _) = false |- _ => rewrite Z.geb_leb in H
  | H : (_ =? _) = true |- _ => apply Z.eqb_eq in H
  | H : (_ =? _) = false |- _ => apply Z.eqb_neq in H
  end.

(** Case analysis on the next boolean test of the goal. *)
Ltac case_test :=
  match goal with
  | |- context [if ?b then _ else _] =>
      let E := fresh "E" in destruct b eqn:E
  end.

(* ------------------------------------------------------------------ *)
(** ** numpy indexing *)

Lemma axis_index_in_range (n i : Z) :
  0 <= i < n -> axis_index n i = Some i.
Proof.
  intros Hi. unfold axis_index.
  replace ((0 <=? i) && (i <? n)) with true; [reflexivity|].
  symmetry. apply andb_true_iff. split; [apply Z.leb_le | apply Z.ltb_lt]; lia.
Qed.

Lemma axis_index_beyond (n i : Z) : n <= i -> 0 <= i -> axis_index n i = None.
Proof.
  intros Hn Hi. unfold axis_index.
  destruct (i <? n) eqn:E1; zbool; [lia|].
  destruct (i <? 0) eqn:E2; zbool; [lia|].
  now rewrite !andb_false_r.
Qed.

Lemma getitem_in_range {A : Type} (a : ndarray A) (y x : Z) :
  0 <= y < shape0 a -> 0 <= x < shape1 a -> getitem a y x = Ok (item a y x).
Proof.
  intros Hy Hx. unfold getitem.
  now rewrite (axis_index_in_range Hy), (axis_index_in_range Hx).
Qed.

Lemma getitem_beyond {A : Type} (a : ndarray A) (y x : Z) :
  0 <= y -> 0 <= x -> shape0 a <= y \/ shape1 a <= x ->
  getitem a y x = Raise IndexError.
Proof.
  intros Hy Hx [H | H]; unfold getitem.
  - now rewrite (axis_index_beyond H Hy).
  - rewrite (axis_index_beyond H Hx). now destruct (axis_index (shape0 a) y).
Qed.

(* ------------------------------------------------------------------ *)
(** ** VisitedMatrix *)

Section VisitedMatrixFacts.

Import VisitedMatrix.

Variable vm : VisitedMatrix.t.

Let W := shape1 (_visited_matrix vm).
Let H := shape0 (_visited_matrix vm).

Lemma isValidIndice_spec (x y : Z) :
  isValidIndice vm x y = true <-> 0 <= x <= W /\ 0 <= y <= H.
Proof.
  unfold isValidIndice, W, H.
  repeat case_test; zbool; split; intros; try discriminate; try lia; auto.
Qed.

(** C5.  Over a grid of [W] columns and [H] rows, [isVisited(x, y)] at an
    out-of-bounds coordinate pair ([x < 0], [x >= W], [y < 0] or [y >= H])
    returns no value: it raises the [ValueError] of the index check, or,
    on the one column [x = W] and the one row [y = H] that the check
    admits, the [IndexError] of the array access. *)
Theorem isVisited_out_of_bounds (x y : Z) :
  x < 0 \/ W <= x \/ y < 0 \/ H <= y ->
  isVisited vm x y = Raise (invalid_indices x y)
  \/ ((x = W \/ y = H) /\ isVisited vm x y = Raise IndexError).
Proof.
  intros Hout. unfold isVisited.
  destruct (isValidIndice vm x y) eqn:E; [right | now left].
  apply isValidIndice_spec in E. cbn [negb].
  split; [lia|].
  rewrite getitem_beyond; [reflexivity | lia | lia | fold W H; lia].
Qed.

End VisitedMatrixFacts.

(** The tracker of a 4 x 3 grid, queried one column beyond the edge and two
    columns beyond it. *)
Lemma isVisited_out_of_bounds_witness :
  let vm := VisitedMatrix.init (mk_ndarray 3 4 (fun _ _ => 0)) in
  (VisitedMatrix.isVisited vm 4 0 = Raise IndexError)
  /\ VisitedMatrix.isVisited vm 5 0
     = Raise (ValueError "Invalid indices x=5, y=0").
Proof.
  intro vm. split.
  - destruct (@isVisited_out_of_bounds vm 4 0) as [E | [_ E]];
      [cbn; lia | discriminate E | exact E].
  - destruct (@isVisited_out_of_bounds vm 5 0) as [E | [[E | E] _]];
      [cbn; lia | exact E | discriminate E | discriminate E].
Defined.

(* ------------------------------------------------------------------ *)
(** ** Direction probes *)

(** The three probes of a segment and the pixel each one tests. *)
Inductive probe : Type := Below | RightDown | LeftDown.

Definition probed_pixel (p : probe) (seg : LineSegment.t) : Z * Z :=
  match p with
  | Below => (LineSegment.x_end seg, LineSegment.y_end seg + 1)
  | RightDown => (LineSegment.x_end seg + 1, LineSegment.y_end seg + 1)
  | LeftDown =>
      if LineSegment._vertical seg
      then (LineSegment.x_end seg - 1, LineSegment.y_end seg + 1)
      else (LineSegment.x_start seg - 1, LineSegment.y_start seg + 1)
  end.

Definition run_probe (p : probe) (seg : LineSegment.t) (img : image)
           (isLineColor : Z -> bool) : res bool :=
  match p with
  | Below => LineSegment.isNextPixelBelow seg img isLineColor
  | RightDown => LineSegment.isNextPixelRightDown seg img isLineColor
  | LeftDown => LineSegment.isNextPixelLeftDown seg img isLineColor
  end.

(** Column [x], row [y] is a pixel of the image. *)
Definition in_bounds (img : image) (x y : Z) : Prop :=
  0 <= x < shape1 img /\ 0 <= y < shape0 img.

Lemma LineSegment_isValidIndice_spec (img : image) (x y : Z) :
  LineSegment.isValidIndice img x y = true <-> in_bounds img x y.
Proof.
  unfold LineSegment.isValidIndice, in_bounds.
  repeat case_test; zbool; split; intros; try discriminate; try lia; auto.
Qed.

(** What a probe answers: [false] off the image, the predicate of the probed
    pixel on it. *)
Lemma run_probe_eq (p : probe) (seg : LineSegment.t) (img : image)
      (isLineColor : Z -> bool) :
  run_probe p seg img isLineColor =
  let '(x, y) := probed_pixel p seg in
  if LineSegment.isValidIndice img x y then Ok (isLineColor (item img y x))
  else Ok false.
Proof.
  destruct p; cbn [run_probe probed_pixel];
    unfold LineSegment.isNextPixelBelow, LineSegment.isNextPixelRightDown,
      LineSegment.isNextPixelLeftDown;
    try destruct (LineSegment._vertical seg);
    match goal with
    | |- context [LineSegment.isValidIndice img ?x ?y] =>
        destruct (LineSegment.isValidIndice img x y) eqn:E
    end; cbn [negb]; try reflexivity;
    apply LineSegment_isValidIndice_spec in E; destruct E;
    rewrite getitem_in_range by assumption; reflexivity.
Qed.

Lemma run_probe_true (p : probe) (seg : LineSegment.t) (img : image)
      (isLineColor : Z -> bool) :
  run_probe p seg img isLineColor = Ok true ->
  in_bounds img (fst (probed_pixel p seg)) (snd (probed_pixel p seg))
  /\ isLineColor (item img (snd (probed_pixel p seg))
                           (fst (probed_pixel p seg))) = true.
Proof.
  rewrite run_probe_eq. destruct (probed_pixel p seg) as [x y]. cbn [fst snd].
  destruct (LineSegment.isValidIndice img x y) eqn:E; [|discriminate].
  apply LineSegment_isValidIndice_spec in E. intros [= ->]. now split.
Qed.

(** C9.  Each direction probe ([isNextPixelBelow] at [(x_end, y_end+1)],
    [isNextPixelRightDown] at [(x_end+1, y_end+1)], [isNextPixelLeftDown] at
    [(x_start-1, y_start+1)], or at [(x_end-1, y_end+1)] when the vertical
    flag is set) returns [False], and does not raise, when the pixel it
    probes lies outside the image. *)
Theorem probe_out_of_bounds_false (p : probe) (seg : LineSegment.t)
        (img : image) (isLineColor : Z -> bool) :
  ~ in_bounds img (fst (probed_pixel p seg)) (snd (probed_pixel p seg)) ->
  run_probe p seg img isLineColor = Ok false.
Proof.
  intros Hout. rewrite run_probe_eq.
  destruct (probed_pixel p seg) as [x y]. cbn [fst snd] in Hout.
  destruct (LineSegment.isValidIndice img x y) eqn:E; [|reflexivity].
  apply LineSegment_isValidIndice_spec in E. contradiction.
Qed.

(** The three probes of the segment (0,0)-(2,0) on a one-row image: every
    probed pixel is in row 1, below the image. *)
Lemma probe_out_of_bounds_false_witness :
  let img := array_of_rows [[1; 1; 1; 1]] in
  let seg := LineSegment.mk 0 0 2 0 false in
  LineSegment.isNextPixelBelow seg img (Z.eqb 1) = Ok false
  /\ LineSegment.isNextPixelRightDown seg img (Z.eqb 1) = Ok false
  /\ LineSegment.isNextPixelLeftDown seg img (Z.eqb 1) = Ok false
  /\ LineSegment.isNextPixelLeftDown (LineSegment.setVertical seg) img
       (Z.eqb 1) = Ok false.
Proof.
  intros img seg. split; [|split; [|split]].
  - apply (@probe_out_of_bounds_false Below seg img).
    unfold in_bounds; cbn; lia.
  - apply (@probe_out_of_bounds_false RightDown seg img).
    unfold in_bounds; cbn; lia.
  - apply (@probe_out_of_bounds_false LeftDown seg img).
    unfold in_bounds; cbn; lia.
  - apply (@probe_out_of_bounds_false LeftDown (LineSegment.setVertical seg)
             img).
    unfold in_bounds; cbn; lia.
Defined.

(* ------------------------------------------------------------------ *)
(** ** Run finders *)

Section FindVertical.

Variable img : image.
Variable isLineColor : Z -> bool.
Variable x : Z.
Hypothesis Hx : 0 <= x < shape1 img.

(** The loop of [findVerticalSegment], entered at row [l] with enough fuel
    to reach the last row, stops at the first row at or below [l] that is
    off the image or not line-coloured. *)
Lemma findVerticalSegment_while_spec (fuel : nat) (l : Z) :
  0 <= l -> shape0 img - l <= Z.of_nat fuel ->
  exists l',
    findVerticalSegment_while fuel img x l isLineColor = Ok l'
    /\ l <= l' /\ (l <= shape0 img -> l' <= shape0 img)
    /\ (forall r, l <= r < l' -> isLineColor (item img r x) = true)
    /\ (l' < shape0 img -> isLineColor (item img l' x) = false).
Proof.
  revert l. induction fuel as [|fuel IH]; intros l Hl Hfuel.
  - exists l. cbn. destruct (l <? shape0 img) eqn:E; zbool; [lia|].
    repeat split; intros; lia.
  - cbn [findVerticalSegment_while].
    destruct (l <? shape0 img) eqn:E; zbool.
    + rewrite getitem_in_range by lia. cbn [bind].
      destruct (isLineColor (item img l x)) eqn:Ecol.
      * destruct (IH (l + 1)) as (l' & Hrun & Hle & Hin & Hall & Hstop);
          [lia | lia |].
        exists l'. split; [exact Hrun|].
        split; [lia|]. split; [lia|]. split; [|exact Hstop].
        intros r Hr. destruct (Z.eq_dec r l) as [-> | Hne]; auto.
        apply Hall. lia.
      * exists l. split; [reflexivity|].
        split; [lia|]. split; [lia|]. split; [intros; lia | auto].
    + exists l. repeat split; intros; lia.
Qed.

(** C8, as the code has it.  For an in-bounds seed [(x, y)],
    [findVerticalSegment] returns [(x, y')] where rows [y .. y'] of column
    [x] are the contiguous downward run of line-coloured pixels starting at
    row [y] inside the image; [y' >= y] when the seed pixel itself is
    line-coloured, and [y' = y - 1] (the run is empty) when it is not. *)
Theorem findVerticalSegment_run (y : Z) :
  0 <= y < shape0 img ->
  exists y',
    findVerticalSegment img x y isLineColor = Ok (x, y')
    /\ y - 1 <= y' < shape0 img
    /\ (forall r, y <= r <= y' -> isLineColor (item img r x) = true)
    /\ (y' + 1 < shape0 img -> isLineColor (item img (y' + 1) x) = false)
    /\ (isLineColor (item img y x) = true -> y <= y')
    /\ (isLineColor (item img y x) = false -> y' = y - 1).
Proof.
  intros Hy. unfold findVerticalSegment.
  destruct (@findVerticalSegment_while_spec
              (Z.to_nat (shape0 img - y)) y)
    as (l' & Hrun & Hle & Hin & Hall & Hstop); [lia | lia |].
  exists (l' - 1). rewrite Hrun. cbn [bind].
  repeat split; try lia.
  - intros r Hr. apply Hall. lia.
  - intros Hlt. replace (l' - 1 + 1) with l' in * by lia. auto.
  - intros Hseed. destruct (Z.eq_dec l' y) as [-> | Hne]; [|lia].
    rewrite Hstop in Hseed by lia. discriminate.
  - intros Hseed. destruct (Z.eq_dec l' y) as [-> | Hne]; [lia|].
    rewrite Hall in Hseed by lia. discriminate.
Qed.

End FindVertical.

(** A column of three pixels, line-coloured in rows 0 and 1: the run seeded
    at (0,0) ends in row 1. *)
Lemma findVerticalSegment_run_witness :
  let img := array_of_rows [[1]; [1]; [0]] in
  exists y', findVerticalSegment img 0 0 (Z.eqb 1) = Ok (0, y') /\ 0 <= y'.
Proof.
  intro img.
  destruct (@findVerticalSegment_run img (Z.eqb 1) 0) with (y := 0)
    as (y' & Hrun & _ & _ & _ & Hseed & _); [cbn; lia | cbn; lia |].
  exists y'. split; [exact Hrun | apply Hseed; reflexivity].
Defined.

(** C8 as stated fails: seeded on a background pixel, the loop body never
    runs and the returned row is the one above the seed. *)
Lemma findVerticalSegment_below_seed :
  let img := array_of_rows [[0]] in
  in_bounds img 0 0
  /\ findVerticalSegment img 0 0 (Z.eqb 1) = Ok (0, -1)
  /\ ~ (exists y', findVerticalSegment img 0 0 (Z.eqb 1) = Ok (0, y')
                   /\ 0 <= y').
Proof.
  intro img. split; [unfold in_bounds; cbn; lia|].
  split; [reflexivity|].
  intros (y' & Hrun & Hy'). cbv in Hrun. injection Hrun as <-. lia.
Qed.

(* ------------------------------------------------------------------ *)
(** ** The extension loops of the octant handlers *)

Lemma bind_Ok {A B : Type} (c : res A) (k : A -> res B) (b : B) :
  bind c k = Ok b -> exists a, c = Ok a /\ k a = Ok b.
Proof. destruct c; cbn; intros E; try discriminate. eauto. Qed.

(** Splits a hypothesis [x <- c ;; k = Ok _] into its two runs. *)
Ltac bind_inv H :=
  let a := fresh "a" in
  let Ha := fresh "Hrun" in
  apply bind_Ok in H; destruct H as (a & Ha & H).

Lemma run_probe_total (p : probe) (seg : LineSegment.t) (img : image)
      (isLineColor : Z -> bool) :
  exists b, run_probe p seg img isLineColor = Ok b.
Proof.
  rewrite run_probe_eq. destruct (probed_pixel p seg) as [x y].
  destruct (LineSegment.isValidIndice img x y); eauto.
Qed.

Inductive octant : Type := Fourth | Seventh | FifthAndSixth.

Section Extension.

Variable img : image.
Variable isLineColor : Z -> bool.

(** The loop body of each handler. *)
Definition extension_body (o : octant) : Z -> Z -> locals -> res locals :=
  match o with
  | Fourth => handleFourthOctant_body img isLineColor
  | Seventh => handleSeventhOctant_body img isLineColor
  | FifthAndSixth => handleFifthAndSixthOctant_body img isLineColor
  end.

(** [length] of a handler: the x-length of the initial horizontal run, the
    y-length of the initial vertical run. *)
Definition reference_length (o : octant) (seg : LineSegment.t) : Z :=
  match o with
  | FifthAndSixth => LineSegment.getYLength seg
  | _ => LineSegment.getXLength seg
  end.

(** [lengthX] / [lengthY] of the iteration that leads from [st] to [st']:
    the inclusive length from the cell the run starts in to the run end
    held by the locals after the iteration. *)
Definition run_length (o : octant) (st st' : locals) : Z :=
  let seg := lineSegment st in
  match run_end st' with
  | None => 0
  | Some (x_end, y_end) =>
      match o with
      | Fourth => (LineSegment.x_start seg - 1) - x_end + 1
      | Seventh => x_end - (LineSegment.x_end seg + 1) + 1
      | FifthAndSixth => (y_end - (LineSegment.y_end seg + 1)) + 1
      end
  end.

(** No diagonal probe of the handler succeeds. *)
Definition probes_fail (o : octant) (st : locals) : Prop :=
  let seg := lineSegment st in
  match o with
  | Fourth => LineSegment.isNextPixelLeftDown seg img isLineColor = Ok false
  | Seventh =>
      LineSegment.isNextPixelRightDown seg img isLineColor = Ok false
  | FifthAndSixth =>
      LineSegment.isNextPixelLeftDown seg img isLineColor = Ok false
      /\ LineSegment.isNextPixelRightDown seg img isLineColor = Ok false
  end.

(** What holds of the locals [x_end], [y_end] whenever an iteration begins:
    once bound, they are the coordinate the segment was last extended to. *)
Definition locals_inv (o : octant) (st : locals) : Prop :=
  let seg := lineSegment st in
  match run_end st with
  | None => True
  | Some (x_end, y_end) =>
      match o with
      | Fourth => x_end = LineSegment.x_start seg
      | Seventh => x_end = LineSegment.x_end seg
      | FifthAndSixth => y_end = LineSegment.y_end seg
      end
  end.

Lemma reference_length_pos (o : octant) (seg : LineSegment.t) :
  1 <= reference_length o seg.
Proof.
  destruct o; cbn; unfold LineSegment.getXLength, LineSegment.getYLength;
    lia.
Qed.

(** The two outcomes of an iteration: the run is accepted, inside the
    window and after a successful probe, or nothing changes and the loop
    ends. *)
Lemma extension_body_cases (o : octant) (length : Z) (st st' : locals) :
  1 <= length ->
  locals_inv o st ->
  extension_body o length (2 * length) st = Ok st' ->
  (length <= run_length o st st' <= 2 * length
   /\ ~ probes_fail o st
   /\ moreSeg st' = moreSeg st
   /\ lineSegment st' <> lineSegment st
   /\ locals_inv o st')
  \/ (moreSeg st' = false
      /\ lineSegment st' = lineSegment st
      /\ visited_matrix st' = visited_matrix st
      /\ (~ (length <= run_length o st st' <= 2 * length)
          \/ probes_fail o st)).
Proof.
  intros Hlen Hinv Hbody.
  destruct st as [seg vm xt found more].
  unfold locals_inv in Hinv. cbn [lineSegment run_end] in Hinv.
  destruct o; cbn [extension_body] in Hbody;
    unfold handleFourthOctant_body, handleSeventhOctant_body,
      handleFifthAndSixthOctant_body in Hbody;
    cbn [lineSegment run_end moreSeg visited_matrix x_temp] in Hbody.
  - (* Fourth *)
    bind_inv Hbody. destruct a as [|].
    + bind_inv Hbody. bind_inv Hrun0. injection Hrun0 as <-.
      destruct a0 as [x_end y_end]. cbn [fst snd] in Hbody.
      match type of Hbody with
      | (if ?c then _ else _) = _ => destruct c eqn:Ewin
      end.
      * bind_inv Hbody. injection Hbody as <-. left.
        unfold run_length, probes_fail, locals_inv.
        cbn [lineSegment run_end moreSeg visited_matrix].
        zbool. repeat split; try lia.
        -- rewrite Hrun. discriminate.
        -- destruct seg. unfold LineSegment.setStartCoordinate. cbn.
           unfold findHorizontalNegativeSegment in Hrun1.
           bind_inv Hrun1. injection Hrun1 as <- <-.
           intros [= ? ?]. cbn in *. lia.
      * injection Hbody as <-. right.
        unfold run_length. cbn [lineSegment run_end moreSeg visited_matrix].
        repeat split. left. intros Hw.
        apply andb_false_iff in Ewin. destruct Ewin; zbool; lia.
    + cbn [bind] in Hbody. destruct found as [[x_end y_end]|];
        [|discriminate]. subst x_end.
      match type of Hbody with
      | (if ?c then _ else _) = _ => destruct c eqn:Ewin
      end.
      * zbool. lia.
      * injection Hbody as <-. right. unfold probes_fail.
        cbn [lineSegment run_end moreSeg visited_matrix]. auto.
  - (* Seventh *)
    bind_inv Hbody. destruct a as [|].
    + bind_inv Hbody. bind_inv Hrun0. injection Hrun0 as <-.
      destruct a0 as [x_end y_end]. cbn [fst snd] in Hbody.
      match type of Hbody with
      | (if ?c then _ else _) = _ => destruct c eqn:Ewin
      end.
      * bind_inv Hbody. injection Hbody as <-. left.
        unfold run_length, probes_fail, locals_inv.
        cbn [lineSegment run_end moreSeg visited_matrix].
        zbool. repeat split; try lia.
        -- rewrite Hrun. discriminate.
        -- destruct seg. unfold LineSegment.setEndCoordinate. cbn.
           unfold findHorizontalPositiveSegment in Hrun1.
           bind_inv Hrun1. injection Hrun1 as <- <-.
           intros [= ? ?]. cbn in *. lia.
      * injection Hbody as <-. right.
        unfold run_length. cbn [lineSegment run_end moreSeg visited_matrix].
        repeat split. left. intros Hw.
        apply andb_false_iff in Ewin. destruct Ewin; zbool; lia.
    + cbn [bind] in Hbody. destruct found as [[x_end y_end]|];
        [|discriminate]. subst x_end.
      match type of Hbody with
      | (if ?c then _ else _) = _ => destruct c eqn:Ewin
      end.
      * zbool. lia.
      * injection Hbody as <-. right. unfold probes_fail.
        cbn [lineSegment run_end moreSeg visited_matrix]. auto.
  - (* FifthAndSixth *)
    bind_inv Hbody. bind_inv Hbody. destruct a0 as [[xt' found'] more'].
    assert (Hprobe :
      (found' = found /\ more' = false
       /\ probes_fail FifthAndSixth (mk_locals seg vm xt found more))
      \/ (exists xy, found' = Some xy /\ more' = more
          /\ ~ probes_fail FifthAndSixth (mk_locals seg vm xt found more))).
    { unfold probes_fail. cbn [lineSegment]. destruct a.
      - bind_inv Hrun0. injection Hrun0 as <- <- <-. right.
        eexists; repeat split. rewrite Hrun. intros [? _]. discriminate.
      - bind_inv Hrun0. destruct a.
        + bind_inv Hrun0. injection Hrun0 as <- <- <-. right.
          eexists; repeat split. rewrite Hrun1. intros [_ ?]. discriminate.
        + injection Hrun0 as <- <- <-. left. auto. }
    destruct found' as [[x_end y_end]|]; [|discriminate].
    match type of Hbody with
    | (if ?c then _ else _) = _ => destruct c eqn:Ewin
    end.
    + bind_inv Hbody. injection Hbody as <-.
      unfold run_length, locals_inv.
      cbn [lineSegment run_end moreSeg visited_matrix].
      zbool.
      destruct Hprobe as [(E1 & -> & Hfail) | (xy & _ & -> & Hok)].
      * rewrite <- E1 in Hinv. lia.
      * left. repeat split; try lia; auto.
        destruct seg. unfold LineSegment.setEndCoordinate. cbn.
        intros [= ? ?]. cbn in *. lia.
    + injection Hbody as <-. right.
      unfold run_length. cbn [lineSegment run_end moreSeg visited_matrix].
      repeat split. left. intros Hw.
      apply andb_false_iff in Ewin. destruct Ewin; zbool; lia.
Qed.

(** One iteration of a loop body run with a reference length [L] and the
    window [[L, 2L]]: it moves the segment endpoint or marks pixels visited
    only if the length of the new run lies in [[L, 2L]]; when the length
    lies outside the window, or no diagonal probe succeeds, the iteration
    changes nothing and ends the loop. *)
Lemma extension_window (o : octant) (seg0 : LineSegment.t)
        (st st' : locals) :
  let L := reference_length o seg0 in
  locals_inv o st ->
  extension_body o L (2 * L) st = Ok st' ->
  ((lineSegment st' <> lineSegment st
    \/ visited_matrix st' <> visited_matrix st) ->
   L <= run_length o st st' <= 2 * L)
  /\ ((~ (L <= run_length o st st' <= 2 * L) \/ probes_fail o st) ->
      moreSeg st' = false
      /\ lineSegment st' = lineSegment st
      /\ visited_matrix st' = visited_matrix st).
Proof.
  intros L Hinv Hbody.
  destruct (extension_body_cases o st (reference_length_pos o seg0)
              Hinv Hbody)
    as [(Hwin & Hprobe & _ & _ & _) | (Hmore & Hseg & Hvm & _)].
  - split; [intros _; exact Hwin|].
    intros [Hout | Hfail]; contradiction.
  - split; [|intros _; auto].
    intros [Hne | Hne]; contradiction.
Qed.

(** The hypothesis of [extension_window] holds whenever a handler runs its
    loop body: at loop entry, and after every iteration that leaves
    [moreSeg] set. *)
Lemma locals_inv_shallow_entry (o : octant) (seg : LineSegment.t)
      (vm : VisitedMatrix.t) :
  locals_inv o (mk_locals seg vm 0 None true).
Proof. exact I. Qed.

Lemma locals_inv_steep_entry (seg : LineSegment.t) (vm : VisitedMatrix.t)
      (st0 : locals) :
  handleFifthAndSixthOctant_init img isLineColor seg vm = Ok st0 ->
  locals_inv FifthAndSixth st0
  /\ LineSegment.getYLength (lineSegment st0)
     = reference_length FifthAndSixth (lineSegment st0).
Proof.
  unfold handleFifthAndSixthOctant_init. intros Hinit.
  bind_inv Hinit. destruct a as [x_end y_end]. bind_inv Hinit.
  injection Hinit as <-. split; reflexivity.
Qed.

Lemma locals_inv_preserved (o : octant) (length : Z) (st st' : locals) :
  1 <= length ->
  locals_inv o st ->
  extension_body o length (2 * length) st = Ok st' ->
  moreSeg st' = true ->
  locals_inv o st'.
Proof.
  intros Hlen Hinv Hbody Hmore.
  destruct (extension_body_cases o st Hlen Hinv Hbody)
    as [(_ & _ & _ & _ & Hinv') | (Hstop & _)]; [exact Hinv'|].
  congruence.
Qed.

(** The locals with which [while_moreSeg] runs its body, in order. *)
Fixpoint iteration_states (fuel : nat) (body : locals -> res locals)
         (st : locals) : list locals :=
  if moreSeg st then
    match fuel with
    | O => []
    | S fuel' =>
        st :: match body st with
              | Ok st' => iteration_states fuel' body st'
              | _ => []
              end
    end
  else [].

Lemma iteration_states_inv (o : octant) (length : Z) (fuel : nat)
      (st : locals) :
  1 <= length ->
  locals_inv o st ->
  Forall (locals_inv o)
         (iteration_states fuel (extension_body o length (2 * length)) st).
Proof.
  intros Hlen. revert st.
  induction fuel as [|fuel IH]; intros st Hinv; cbn [iteration_states];
    destruct (moreSeg st); try constructor; auto.
  destruct (extension_body o length (2 * length) st) as [st'| |] eqn:Hbody;
    try constructor.
  destruct (moreSeg st') eqn:Hmore.
  - apply IH. eapply locals_inv_preserved; eauto.
  - destruct fuel; cbn [iteration_states]; rewrite Hmore; constructor.
Qed.

End Extension.

(** Seventh octant on a staircase of two-pixel steps whose second step is
    three pixels long: the initial run (0,0)-(1,0) has [L = 2], the run found
    one row below is (2,1)-(4,1), of length 3, and it is accepted. *)
Lemma extension_window_witness :
  let img := array_of_rows [[1; 1; 0; 0; 0]; [0; 0; 1; 1; 1]] in
  let seg := LineSegment.mk 0 0 1 0 false in
  let st := mk_locals seg (VisitedMatrix.init img) 0 None true in
  exists st',
    handleSeventhOctant_body img (Z.eqb 1) 2 4 st = Ok st'
    /\ lineSegment st' = LineSegment.mk 0 0 4 1 false
    /\ 2 <= run_length Seventh st st' <= 2 * 2.
Proof.
  intros img seg st.
  assert (Hbody :
    exists st',
      handleSeventhOctant_body img (Z.eqb 1) 2 4 st = Ok st'
      /\ lineSegment st' = LineSegment.mk 0 0 4 1 false).
  { eexists. split; [vm_compute; reflexivity | reflexivity]. }
  destruct Hbody as (st' & Hbody & Hseg).
  exists st'. split; [exact Hbody|]. split; [exact Hseg|].
  apply (@extension_window img (Z.eqb 1) Seventh seg st st' I Hbody).
  left. rewrite Hseg. discriminate.
Defined.

(* ------------------------------------------------------------------ *)
(** ** Marking pixels visited *)

Lemma in_range_iff (lo hi i : Z) : In i (range lo hi) <-> lo <= i < hi.
Proof.
  unfold range.
  assert (Hgen : forall n lo, In i (range_from lo n)
                              <-> lo <= i < lo + Z.of_nat n).
  { induction n as [|n IH]; intros lo'; cbn [range_from In].
    - lia.
    - rewrite IH. lia. }
  rewrite Hgen. lia.
Qed.

(** The tracker has the shape of the image. *)
Definition same_shape (vm : VisitedMatrix.t) (img : image) : Prop :=
  shape0 (VisitedMatrix._visited_matrix vm) = shape0 img
  /\ shape1 (VisitedMatrix._visited_matrix vm) = shape1 img.

Lemma setVisited_in_bounds (vm : VisitedMatrix.t) (img : image) (x y : Z) :
  same_shape vm img -> in_bounds img x y ->
  exists vm', VisitedMatrix.setVisited vm x y = Ok vm' /\ same_shape vm' img.
Proof.
  intros [H0 H1] [Hx Hy]. unfold VisitedMatrix.setVisited.
  replace (VisitedMatrix.isValidIndice vm x y) with true
    by (symmetry; apply isValidIndice_spec; lia).
  cbn [negb]. unfold setitem.
  rewrite !axis_index_in_range by lia. cbn [bind].
  eexists. split; [reflexivity|]. split; assumption.
Qed.

Lemma for_each_setVisited (vm : VisitedMatrix.t) (img : image)
      (cells : list Z) (mark : Z -> VisitedMatrix.t -> res VisitedMatrix.t) :
  (forall i vm0, In i cells -> same_shape vm0 img ->
                 exists vm', mark i vm0 = Ok vm' /\ same_shape vm' img) ->
  same_shape vm img ->
  exists vm', for_each cells mark vm = Ok vm' /\ same_shape vm' img.
Proof.
  revert vm. induction cells as [|i cells IH]; intros vm Hmark Hshape.
  - exists vm. split; [reflexivity | assumption].
  - cbn [for_each].
    destruct (Hmark i vm) as (vm1 & -> & Hshape1); [now left | assumption |].
    cbn [bind]. apply IH; [|assumption].
    intros j vm0 Hj. apply Hmark. now right.
Qed.

Lemma setColumnVisited_in_bounds (vm : VisitedMatrix.t) (img : image)
      (x y1 y2 : Z) :
  same_shape vm img -> in_bounds img x y1 -> in_bounds img x y2 ->
  exists vm', VisitedMatrix.setColumnVisited vm x y1 y2 = Ok vm'
              /\ same_shape vm' img.
Proof.
  intros Hshape [Hx Hy1] [_ Hy2]. pose proof Hshape as [H0 H1].
  unfold VisitedMatrix.setColumnVisited.
  replace (VisitedMatrix.isValidIndice vm x y1) with true
    by (symmetry; apply isValidIndice_spec; lia).
  replace (VisitedMatrix.isValidIndice vm x y2) with true
    by (symmetry; apply isValidIndice_spec; lia).
  cbn [andb negb].
  destruct (y1 >? y2); apply for_each_setVisited; auto;
    intros i vm0 Hi Hvm0; apply in_range_iff in Hi;
    apply setVisited_in_bounds; auto; split; lia.
Qed.

Lemma setRowVisited_in_bounds (vm : VisitedMatrix.t) (img : image)
      (y x1 x2 : Z) :
  same_shape vm img -> in_bounds img x1 y -> in_bounds img x2 y ->
  exists vm', VisitedMatrix.setRowVisited vm y x1 x2 = Ok vm'
              /\ same_shape vm' img.
Proof.
  intros Hshape [Hx1 Hy] [Hx2 _]. pose proof Hshape as [H0 H1].
  unfold VisitedMatrix.setRowVisited.
  replace (VisitedMatrix.isValidIndice vm x1 y) with true
    by (symmetry; apply isValidIndice_spec; lia).
  replace (VisitedMatrix.isValidIndice vm x2 y) with true
    by (symmetry; apply isValidIndice_spec; lia).
  cbn [andb negb].
  destruct (x1 >? x2); apply for_each_setVisited; auto;
    intros i vm0 Hi Hvm0; apply in_range_iff in Hi;
    apply setVisited_in_bounds; auto; split; lia.
Qed.

(* ------------------------------------------------------------------ *)
(** ** The tie-break of the steep family *)

(** What holds of the locals of [handleFifthAndSixthOctant] whenever an
    iteration begins: the segment carries the vertical flag, [x_temp] is the
    column of its end, and the tracker has the shape of the image. *)
Definition steep_inv (img : image) (st : locals) : Prop :=
  LineSegment._vertical (lineSegment st) = true
  /\ x_temp st = LineSegment.x_end (lineSegment st)
  /\ same_shape (visited_matrix st) img.

(** C7.  In an iteration of the steep-family loop in which the left-down
    and the right-down probe of the segment end both succeed, the left-down
    direction is taken: the tracing column [x_temp] is shifted by -1 and the
    new run is traced in that column.  Such an iteration completes whenever
    the locals are those of a running handler. *)
Theorem steep_left_precedence (img : image) (isLineColor : Z -> bool)
        (length max_length : Z) (st : locals) :
  LineSegment.isNextPixelLeftDown (lineSegment st) img isLineColor = Ok true ->
  LineSegment.isNextPixelRightDown (lineSegment st) img isLineColor
  = Ok true ->
  (forall st',
      handleFifthAndSixthOctant_body img isLineColor length max_length st
      = Ok st' ->
      x_temp st' = x_temp st - 1
      /\ exists y', run_end st' = Some (x_temp st - 1, y'))
  /\ (steep_inv img st ->
      exists st',
        handleFifthAndSixthOctant_body img isLineColor length max_length st
        = Ok st').
Proof.
  intros Hleft Hright. unfold handleFifthAndSixthOctant_body.
  rewrite Hleft. cbn [bind]. split.
  - intros st' Hbody. bind_inv Hbody. bind_inv Hrun. injection Hrun as <-.
    destruct a0 as [x_end y_end].
    assert (x_end = x_temp st - 1) as ->.
    { unfold findVerticalSegment in Hrun0. bind_inv Hrun0.
      now injection Hrun0 as <- _. }
    match type of Hbody with
    | (if ?c then _ else _) = _ => destruct c
    end.
    + bind_inv Hbody. injection Hbody as <-. cbn. eauto.
    + injection Hbody as <-. cbn. eauto.
  - intros (Hvert & Hcol & Hshape).
    change (LineSegment.isNextPixelLeftDown (lineSegment st) img isLineColor)
      with (run_probe LeftDown (lineSegment st) img isLineColor) in Hleft.
    apply run_probe_true in Hleft. cbn [probed_pixel] in Hleft.
    rewrite Hvert in Hleft. cbn [fst snd] in Hleft.
    destruct Hleft as [[Hx Hy] Hcolour]. rewrite <- Hcol in Hx, Hcolour.
    destruct (@findVerticalSegment_run img isLineColor (x_temp st - 1) Hx
                (LineSegment.y_end (lineSegment st) + 1) Hy)
      as (y' & -> & Hy' & _ & _ & Hseed & _).
    specialize (Hseed Hcolour). cbn [bind].
    case_test; [|eauto].
    destruct (@setColumnVisited_in_bounds (visited_matrix st) img
                (x_temp st - 1) (LineSegment.y_end (lineSegment st) + 1) y')
      as (vm' & -> & _); auto; try (split; lia).
    cbn [bind]. eauto.
Qed.

(** A vertical run of two pixels that forks: below its end both the pixel to
    the left and the pixel to the right are line-coloured.  The iteration
    moves to column 0. *)
Lemma steep_left_precedence_witness :
  let img := array_of_rows [[0; 1; 0]; [0; 1; 0]; [1; 0; 1]; [1; 0; 1]] in
  let st := mk_locals (LineSegment.mk 1 0 1 1 true) (VisitedMatrix.init img)
                      1 (Some (1, 1)) true in
  exists st',
    handleFifthAndSixthOctant_body img (Z.eqb 1) 2 4 st = Ok st'
    /\ x_temp st' = 0
    /\ lineSegment st' = LineSegment.mk 1 0 0 3 true.
Proof.
  intros img st.
  destruct (@steep_left_precedence img (Z.eqb 1) 2 4 st)
    as [Hshift Hprogress]; [reflexivity | reflexivity |].
  destruct Hprogress as [st' Hbody].
  { repeat split. }
  exists st'. split; [exact Hbody|].
  split; [apply (Hshift st' Hbody)|].
  vm_compute in Hbody. injection Hbody as <-. reflexivity.
Defined.

(* ------------------------------------------------------------------ *)
(** ** The slope test *)

Section Slope.

Open Scope R_scope.

Lemma Rle_bool_true (x y : R) : Rle_bool x y = true <-> x <= y.
Proof.
  unfold Rle_bool. destruct (Rle_dec x y); split; intros; auto;
    try discriminate; contradiction.
Qed.

Lemma py_round5_range (r : R) : -1 <= r <= 1 -> -1 <= py_round5 r <= 1.
Proof.
  assert (Hbound : forall x, 0 <= x <= 1 ->
            0 <= IZR (Int_part (x * 100000 + / 2)) / 100000 <= 1).
  { intros x Hx.
    destruct (base_Int_part (x * 100000 + / 2)) as [Hlo Hhi].
    assert (H0 : (0 <= Int_part (x * 100000 + / 2))%Z).
    { apply Z.lt_succ_r, lt_IZR. rewrite succ_IZR. lra. }
    assert (H1 : (Int_part (x * 100000 + / 2) <= 100000)%Z).
    { apply Z.lt_succ_r, lt_IZR. rewrite succ_IZR. lra. }
    apply IZR_le in H0, H1. lra. }
  intros Hr. unfold py_round5. destruct (Rle_dec 0 r) as [Hpos | Hneg].
  - specialize (Hbound r). lra.
  - specialize (Hbound (- r)). lra.
Qed.

Lemma py_round5_1 : py_round5 1 = 1.
Proof.
  unfold py_round5. destruct (Rle_dec 0 1) as [_ | H]; [|lra].
  rewrite <- (Int_part_spec (1 * 100000 + / 2) 100000) by lra. lra.
Qed.

Lemma sqrt_sum_squares_pos (u v : Z) :
  (u <> 0 \/ v <> 0)%Z -> 0 < sqrt (IZR (u ^ 2 + v ^ 2)).
Proof.
  intros H. apply sqrt_lt_R0. apply IZR_lt. nia.
Qed.

(** Cauchy-Schwarz on integer vectors, after division by the norms. *)
Lemma cosine_range (a_1 a_2 b_1 b_2 : Z) :
  let ab := (a_1 * b_1 + a_2 * b_2)%Z in
  ab <> 0%Z ->
  let a_b_ := sqrt (IZR (a_1 ^ 2 + a_2 ^ 2)) * sqrt (IZR (b_1 ^ 2 + b_2 ^ 2)) in
  0 < a_b_ /\ -1 <= IZR ab / a_b_ <= 1.
Proof.
  intros ab Hab a_b_.
  assert (Ha : (a_1 <> 0 \/ a_2 <> 0)%Z) by (subst ab; nia).
  assert (Hb : (b_1 <> 0 \/ b_2 <> 0)%Z) by (subst ab; nia).
  assert (Hpos : 0 < a_b_).
  { apply Rmult_lt_0_compat; apply sqrt_sum_squares_pos; assumption. }
  split; [exact Hpos|].
  assert (Hsq : a_b_ * a_b_
                = IZR ((a_1 ^ 2 + a_2 ^ 2) * (b_1 ^ 2 + b_2 ^ 2))).
  { subst a_b_. rewrite mult_IZR.
    set (A := IZR (a_1 ^ 2 + a_2 ^ 2)). set (B := IZR (b_1 ^ 2 + b_2 ^ 2)).
    assert (0 <= A) by (apply IZR_le; nia).
    assert (0 <= B) by (apply IZR_le; nia).
    replace (sqrt A * sqrt B * (sqrt A * sqrt B))
      with ((sqrt A * sqrt A) * (sqrt B * sqrt B)) by ring.
    now rewrite !sqrt_sqrt. }
  assert (Hcs : IZR ab * IZR ab <= a_b_ * a_b_).
  { rewrite Hsq, <- mult_IZR. apply IZR_le. subst ab.
    pose proof (Z.square_nonneg (a_1 * b_2 - a_2 * b_1)) as Hcross.
    replace ((a_1 ^ 2 + a_2 ^ 2) * (b_1 ^ 2 + b_2 ^ 2))%Z
      with ((a_1 * b_1 + a_2 * b_2) * (a_1 * b_1 + a_2 * b_2)
            + (a_1 * b_2 - a_2 * b_1) * (a_1 * b_2 - a_2 * b_1))%Z by ring.
    lia. }
  assert (Habs : - a_b_ <= IZR ab <= a_b_) by nra.
  split.
  - apply Rmult_le_reg_r with a_b_; [exact Hpos|].
    unfold Rdiv. rewrite Rmult_assoc, Rinv_l by lra. lra.
  - apply Rmult_le_reg_r with a_b_; [exact Hpos|].
    unfold Rdiv. rewrite Rmult_assoc, Rinv_l by lra. lra.
Qed.

(** [computeAngle] raises neither [ZeroDivisionError] nor a domain error:
    it returns 90, or an angle between 0 and 180 degrees. *)
Lemma computeAngle_total (line_1 line_2 : LineSegment.t) :
  exists angle, computeAngle line_1 line_2 = Ok angle /\ 0 <= angle <= 180.
Proof.
  unfold computeAngle.
  set (a_1 := (LineSegment.x_start line_1 - LineSegment.x_end line_1)%Z).
  set (a_2 := (LineSegment.y_start line_1 - LineSegment.y_end line_1)%Z).
  set (b_1 := (LineSegment.x_start line_2 - LineSegment.x_end line_2)%Z).
  set (b_2 := (LineSegment.y_start line_2 - LineSegment.y_end line_2)%Z).
  destruct (0 =? a_1 * b_1 + a_2 * b_2)%Z eqn:E.
  - exists 90. split; [reflexivity | lra].
  - apply Z.eqb_neq in E.
    destruct (@cosine_range a_1 a_2 b_1 b_2) as [Hpos Hr]; [lia|].
    destruct (Req_dec_T _ 0) as [H0 | _]; [lra|].
    apply py_round5_range in Hr. unfold math_acos.
    replace (Rle_bool (-1) _) with true
      by (symmetry; apply Rle_bool_true; lra).
    replace (Rle_bool _ 1) with true
      by (symmetry; apply Rle_bool_true; lra).
    cbn [andb bind]. eexists. split; [reflexivity|].
    pose proof (acos_bound (py_round5
      (IZR (a_1 * b_1 + a_2 * b_2)
       / (sqrt (IZR (a_1 ^ 2 + a_2 ^ 2)) * sqrt (IZR (b_1 ^ 2 + b_2 ^ 2))))))
      as Hacos.
    pose proof PI_RGT_0 as Hpi. unfold degrees. split.
    + apply Rmult_le_pos; [lra|]. left. now apply Rinv_0_lt_compat.
    + apply Rmult_le_reg_r with PI; [lra|].
      unfold Rdiv. rewrite Rmult_assoc, Rinv_l by lra. lra.
Qed.

(** Perpendicular direction vectors: exactly 90, without floating point. *)
Lemma computeAngle_perpendicular (line_1 line_2 : LineSegment.t) :
  ((LineSegment.x_start line_1 - LineSegment.x_end line_1)
   * (LineSegment.x_start line_2 - LineSegment.x_end line_2)
   + (LineSegment.y_start line_1 - LineSegment.y_end line_1)
     * (LineSegment.y_start line_2 - LineSegment.y_end line_2) = 0)%Z ->
  computeAngle line_1 line_2 = Ok 90.
Proof. intros H. unfold computeAngle. now rewrite H. Qed.

(** Direction vectors that point the same way: the angle is 0. *)
Lemma computeAngle_same_direction (line_1 line_2 : LineSegment.t) :
  let a_1 := (LineSegment.x_start line_1 - LineSegment.x_end line_1)%Z in
  let a_2 := (LineSegment.y_start line_1 - LineSegment.y_end line_1)%Z in
  let b_1 := (LineSegment.x_start line_2 - LineSegment.x_end line_2)%Z in
  let b_2 := (LineSegment.y_start line_2 - LineSegment.y_end line_2)%Z in
  (a_1 * b_2 = a_2 * b_1)%Z -> (0 < a_1 * b_1 + a_2 * b_2)%Z ->
  computeAngle line_1 line_2 = Ok 0.
Proof.
  intros a_1 a_2 b_1 b_2 Hcross Hdot. unfold computeAngle.
  fold a_1 a_2 b_1 b_2.
  replace (0 =? a_1 * b_1 + a_2 * b_2)%Z with false
    by (symmetry; apply Z.eqb_neq; lia).
  destruct (@cosine_range a_1 a_2 b_1 b_2) as [Hpos _]; [lia|].
  destruct (Req_dec_T _ 0) as [H0 | _]; [lra|].
  assert (Hnorm : sqrt (IZR (a_1 ^ 2 + a_2 ^ 2))
                  * sqrt (IZR (b_1 ^ 2 + b_2 ^ 2))
                  = IZR (a_1 * b_1 + a_2 * b_2)).
  { rewrite <- sqrt_mult by (apply IZR_le; nia).
    rewrite <- mult_IZR.
    replace ((a_1 ^ 2 + a_2 ^ 2) * (b_1 ^ 2 + b_2 ^ 2))%Z
      with ((a_1 * b_1 + a_2 * b_2) * (a_1 * b_1 + a_2 * b_2)
            + (a_1 * b_2 - a_2 * b_1) * (a_1 * b_2 - a_2 * b_1))%Z by ring.
    replace (a_1 * b_2 - a_2 * b_1)%Z with 0%Z by lia.
    rewrite Z.mul_0_l, Z.add_0_r.
    rewrite mult_IZR. apply sqrt_square. apply IZR_le. lia. }
  rewrite Hnorm. unfold Rdiv. rewrite Rinv_r by (rewrite <- Hnorm; lra).
  rewrite py_round5_1. unfold math_acos.
  replace (Rle_bool (-1) 1) with true by (symmetry; apply Rle_bool_true; lra).
  replace (Rle_bool 1 1) with true by (symmetry; apply Rle_bool_true; lra).
  cbn [andb bind]. rewrite acos_1. unfold degrees. f_equal. lra.
Qed.

(** Segments that point the same way pass the test for every non-negative
    [angle_epsilon]; perpendicular segments pass it from 90 upwards. *)
Lemma haveEqualSlope_same_direction (line_1 line_2 : LineSegment.t)
      (angle_epsilon : R) :
  computeAngle line_1 line_2 = Ok 0 -> 0 <= angle_epsilon ->
  haveEqualSlope line_1 line_2 (Some angle_epsilon) = Ok true.
Proof.
  intros Hangle Heps. unfold haveEqualSlope. rewrite Hangle. cbn [bind].
  f_equal. apply andb_true_iff. rewrite !Rle_bool_true. lra.
Qed.

Lemma haveEqualSlope_perpendicular (line_1 line_2 : LineSegment.t)
      (angle_epsilon : R) :
  computeAngle line_1 line_2 = Ok 90 -> angle_epsilon < 90 ->
  haveEqualSlope line_1 line_2 (Some angle_epsilon) = Ok false.
Proof.
  intros Hangle Heps. unfold haveEqualSlope. rewrite Hangle. cbn [bind].
  f_equal. apply andb_false_iff. right.
  destruct (Rle_bool 90 angle_epsilon) eqn:E; [|reflexivity].
  apply Rle_bool_true in E. lra.
Qed.

End Slope.

(* ------------------------------------------------------------------ *)
(** ** combineLines *)

Section CombineLines.

Variable angle_epsilon : option R.
Variable delta : Z.

(** The three kinds of result of [combineLines]: no merge and an
    untouched store; [line_1], its end moved to the end of [line_2];
    [line_2], its end moved to the end of [line_1]. *)
Lemma combineLines_cases (h h' : heap) (line_1 line_2 : loc)
      (r : option loc) :
  combineLines angle_epsilon delta h line_1 line_2 = Ok (h', r) ->
  (r = None /\ h' = h)
  \/ (r = Some line_1
      /\ h' = update h line_1
                (LineSegment.setEndCoordinate (h line_1)
                   (LineSegment.x_end (h line_2))
                   (LineSegment.y_end (h line_2))))
  \/ (r = Some line_2
      /\ h' = update h line_2
                (LineSegment.setEndCoordinate (h line_2)
                   (LineSegment.x_end (h line_1))
                   (LineSegment.y_end (h line_1)))).
Proof.
  unfold combineLines. intros Hrun. bind_inv Hrun.
  repeat match type of Hrun with
         | (if ?c then _ else _) = _ => destruct c
         end;
    injection Hrun as <- <-; auto.
Qed.

(** C10.  When [combineLines] returns [None] the store is the one it was
    called with: no coordinate of either operand, or of any other segment,
    has been modified. *)
Theorem combineLines_None_unchanged (h h' : heap) (line_1 line_2 : loc) :
  combineLines angle_epsilon delta h line_1 line_2 = Ok (h', None) ->
  h' = h /\ h' line_1 = h line_1 /\ h' line_2 = h line_2.
Proof.
  intros Hrun.
  destruct (combineLines_cases _ _ _ Hrun)
    as [[_ ->] | [[Hr _] | [Hr _]]]; try discriminate.
  auto.
Qed.

Lemma combineLines_not_OutOfFuel (h : heap) (line_1 line_2 : loc) :
  combineLines angle_epsilon delta h line_1 line_2 <> OutOfFuel.
Proof.
  unfold combineLines.
  destruct (negb (LineSegment.isPoint (h line_1))
            && negb (LineSegment.isPoint (h line_2))).
  - unfold haveEqualSlope. destruct angle_epsilon as [eps|];
      [|cbn; discriminate].
    destruct (computeAngle_total (h line_1) (h line_2)) as (a & -> & _).
    cbn [bind].
    repeat case_test; discriminate.
  - cbn [bind]. repeat case_test; discriminate.
Qed.

End CombineLines.

(** Two points five pixels apart, [delta = 1]: nothing to merge. *)
Lemma combineLines_None_unchanged_witness :
  let h := fst (alloc [LineSegment.mk 0 0 0 0 false;
                       LineSegment.mk 5 5 5 5 false]) in
  exists h',
    combineLines None 1 h 0%nat 1%nat = Ok (h', None)
    /\ h' 0%nat = LineSegment.mk 0 0 0 0 false
    /\ h' 1%nat = LineSegment.mk 5 5 5 5 false.
Proof.
  intro h.
  assert (Hrun : exists h', combineLines None 1 h 0%nat 1%nat = Ok (h', None))
    by (eexists; reflexivity).
  destruct Hrun as [h' Hrun]. exists h'.
  destruct (@combineLines_None_unchanged None 1 h h' 0%nat 1%nat Hrun)
    as (_ & H0 & H1).
  split; [exact Hrun|].
  split; [rewrite H0 | rewrite H1]; reflexivity.
Defined.

(* ------------------------------------------------------------------ *)
(** ** Grouping partitions the segments *)

Lemma existsb_eqb_In (l : loc) (v : list loc) :
  existsb (Nat.eqb l) v = true <-> In l v.
Proof.
  rewrite existsb_exists. split.
  - intros (x & Hin & Heq). apply Nat.eqb_eq in Heq. now subst.
  - intros Hin. exists l. split; [assumption | apply Nat.eqb_refl].
Qed.

Lemma existsb_eqb_not_In (l : loc) (v : list loc) :
  existsb (Nat.eqb l) v = false <-> ~ In l v.
Proof.
  rewrite <- existsb_eqb_In. destruct (existsb (Nat.eqb l) v); split;
    intros; try discriminate; auto; now contradiction.
Qed.

Lemma filter_length_mono {A : Type} (p q : A -> bool) (l : list A) :
  (forall x, q x = true -> p x = true) ->
  (List.length (filter q l) <= List.length (filter p l))%nat.
Proof.
  intros Himp. induction l as [|a l IH]; cbn [filter]; [lia|].
  destruct (q a) eqn:Eq.
  - rewrite (Himp a Eq). cbn [List.length]. lia.
  - destruct (p a); cbn [List.length]; lia.
Qed.

Lemma filter_length_strict {A : Type} (p q : A -> bool) (l : list A) (a : A) :
  (forall x, q x = true -> p x = true) ->
  In a l -> p a = true -> q a = false ->
  (List.length (filter q l) < List.length (filter p l))%nat.
Proof.
  intros Himp Hin Hp Hq. induction l as [|b l IH]; [destruct Hin|].
  cbn [filter]. destruct Hin as [-> | Hin].
  - rewrite Hp, Hq. cbn [List.length].
    pose proof (filter_length_mono p q l Himp). lia.
  - specialize (IH Hin). destruct (q b) eqn:Eq.
    + rewrite (Himp b Eq). cbn [List.length]. lia.
    + destruct (p b); cbn [List.length]; lia.
Qed.

Section GroupingFacts.

Variable h : heap.
Variable lines : list loc.
Variable delta : Z.

(** The input segments not yet placed in a structure: what bounds the
    depth of the recursion of [collectAdjacentLines]. *)
Definition remaining (visitedLines : list loc) : nat :=
  List.length
    (filter (fun l => negb (existsb (Nat.eqb l) visitedLines)) lines).

Lemma remaining_le_length (v : list loc) :
  (remaining v <= List.length lines)%nat.
Proof. apply List.filter_length_le. Qed.

Lemma remaining_mono (v v' : list loc) :
  incl v v' -> (remaining v' <= remaining v)%nat.
Proof.
  intros Hincl. apply filter_length_mono. intros x Hx.
  apply negb_true_iff in Hx. apply negb_true_iff.
  apply existsb_eqb_not_In in Hx. apply existsb_eqb_not_In. auto.
Qed.

Lemma remaining_append (v : list loc) (line : loc) :
  In line lines -> ~ In line v ->
  (remaining (v ++ [line]) < remaining v)%nat.
Proof.
  intros Hin Hnew. apply filter_length_strict with (a := line); auto.
  - intros x Hx. apply negb_true_iff in Hx. apply negb_true_iff.
    apply existsb_eqb_not_In in Hx. apply existsb_eqb_not_In.
    intros Hv. apply Hx. apply in_or_app. now left.
  - apply negb_true_iff. now apply existsb_eqb_not_In.
  - apply negb_false_iff. apply existsb_eqb_In. apply in_or_app.
    right. now left.
Qed.

Lemma NoDup_snoc (v : list loc) (line : loc) :
  NoDup v -> ~ In line v -> NoDup (v ++ [line]).
Proof.
  intros Hv Hnew. apply NoDup_app; auto.
  - repeat constructor. intros [].
  - intros x Hx [<- | []]. contradiction.
Qed.

(** A call of [collectAdjacentLines] appends the same new segments, all
    taken from [lines] and none seen before, to [structure] and to
    [visitedLines]; it returns whenever the fuel exceeds the number of
    segments that remain. *)
Lemma collectAdjacentLines_spec (fuel : nat) :
  forall (currentLine : loc) (structure visitedLines : list loc),
    NoDup visitedLines ->
    (remaining visitedLines < fuel)%nat ->
    exists ext,
      collectAdjacentLines h lines delta fuel currentLine
        (structure, visitedLines)
      = Ok (structure ++ ext, visitedLines ++ ext)
      /\ NoDup (visitedLines ++ ext)
      /\ incl ext lines.
Proof.
  induction fuel as [|fuel IH]; intros cur s v Hnd Hfuel; [lia|].
  cbn [collectAdjacentLines].
  assert (Hloop : forall todo, incl todo lines ->
    forall s v, NoDup v -> (remaining v <= fuel)%nat ->
    exists ext,
      for_each todo
        (fun line st =>
           let '(structure, visitedLines) := st in
           if Structure.contains structure line
              || existsb (Nat.eqb line) visitedLines
           then Ok st
           else if isAdjacent (h cur) (h line) delta then
             collectAdjacentLines h lines delta fuel line
               (Structure.append structure line, visitedLines ++ [line])
           else Ok st)
        (s, v)
      = Ok (s ++ ext, v ++ ext)
      /\ NoDup (v ++ ext) /\ incl ext lines).
  { clear s v Hnd Hfuel.
    induction todo as [|line rest IHrest]; intros Htodo s v Hnd Hfuel.
    - exists []. rewrite !app_nil_r.
      split; [reflexivity|]. split; [assumption|].
      intros x [].
    - assert (Hline : In line lines) by (apply Htodo; now left).
      assert (Hrest : incl rest lines)
        by (intros x Hx; apply Htodo; now right).
      cbn [for_each].
      destruct (Structure.contains s line || existsb (Nat.eqb line) v)
        eqn:Eseen; [cbn [bind]; now apply IHrest|].
      apply orb_false_iff in Eseen. destruct Eseen as [_ Eseen].
      apply existsb_eqb_not_In in Eseen.
      destruct (isAdjacent (h cur) (h line) delta);
        [|cbn [bind]; now apply IHrest].
      destruct (IH line (Structure.append s line) (v ++ [line]))
        as (ext1 & Hrun1 & Hnd1 & Hincl1).
      { now apply NoDup_snoc. }
      { pose proof (@remaining_append v line Hline Eseen). lia. }
      destruct (IHrest Hrest (Structure.append s line ++ ext1)
                  ((v ++ [line]) ++ ext1))
        as (ext2 & Hrun2 & Hnd2 & Hincl2); [exact Hnd1 | |].
      { assert (Hmono : incl v ((v ++ [line]) ++ ext1)).
        { intros x Hx. apply in_or_app. left. apply in_or_app. now left. }
        pose proof (remaining_mono Hmono). lia. }
      exists ([line] ++ ext1 ++ ext2).
      unfold Structure.append in *.
      rewrite Hrun1. cbn [bind]. rewrite Hrun2.
      rewrite <- !app_assoc in *. split; [reflexivity|].
      split; [assumption|].
      intros x Hx. apply in_app_or in Hx. destruct Hx as [[<- | []] | Hx];
        [assumption|].
      apply in_app_or in Hx. destruct Hx; auto. }
  apply Hloop; auto; [apply incl_refl | lia].
Qed.

(** The outer loop of [groupAdjacentLines]: [visitedLines] is the
    structures built so far, laid end to end. *)
Lemma groupAdjacentLines_loop (todo : list loc) :
  incl todo lines ->
  forall (structures : list Structure.t),
    NoDup (List.concat structures) ->
    incl (List.concat structures) lines ->
    exists structures',
      for_each todo (groupAdjacentLines_body h lines delta)
        (structures, List.concat structures)
      = Ok (structures', List.concat structures')
      /\ NoDup (List.concat structures')
      /\ incl (List.concat structures') lines
      /\ incl (List.concat structures) (List.concat structures')
      /\ incl todo (List.concat structures').
Proof.
  induction todo as [|line_1 rest IH]; intros Htodo structures Hnd Hincl.
  - exists structures. cbn [for_each].
    split; [reflexivity|]. split; [assumption|]. split; [assumption|].
    split; [apply incl_refl | apply incl_nil_l].
  - assert (Hline : In line_1 lines) by (apply Htodo; now left).
    assert (Hrest : incl rest lines)
      by (intros x Hx; apply Htodo; now right).
    cbn [for_each]. unfold groupAdjacentLines_body at 1.
    destruct (existsb (Nat.eqb line_1) (List.concat structures)) eqn:Eseen.
    + cbn [bind]. destruct (IH Hrest structures Hnd Hincl)
        as (structures' & Hrun & Hnd' & Hincl' & Hmono & Hall).
      exists structures'. rewrite Hrun. repeat split; auto.
      intros x [<- | Hx]; [|now apply Hall].
      apply Hmono. now apply existsb_eqb_In.
    + apply existsb_eqb_not_In in Eseen.
      destruct (@collectAdjacentLines_spec (S (List.length lines)) line_1
                  (Structure.append Structure.init line_1)
                  (List.concat structures ++ [line_1]))
        as (ext & Hrun & Hnd1 & Hincl1).
      { now apply NoDup_snoc. }
      { pose proof (remaining_le_length (List.concat structures ++ [line_1])).
        lia. }
      assert (Hconcat :
        List.concat (structures ++ [Structure.append Structure.init line_1
                                      ++ ext])
        = (List.concat structures ++ [line_1]) ++ ext).
      { rewrite concat_app. cbn. rewrite app_nil_r.
        now rewrite <- app_assoc. }
      destruct (IH Hrest
                  (structures ++ [Structure.append Structure.init line_1
                                    ++ ext]))
        as (structures' & Hrun' & Hnd' & Hincl' & Hmono & Hall).
      { now rewrite Hconcat. }
      { rewrite Hconcat. intros x Hx. apply in_app_or in Hx.
        destruct Hx as [Hx | Hx]; [|now apply Hincl1].
        apply in_app_or in Hx. destruct Hx as [Hx | [<- | []]]; auto. }
      exists structures'. rewrite Hrun. cbn [bind]. rewrite <- Hconcat.
      rewrite Hrun'. repeat split; auto.
      * intros x Hx. apply Hmono. rewrite Hconcat.
        apply in_or_app. left. apply in_or_app. now left.
      * intros x [<- | Hx]; [|now apply Hall].
        apply Hmono. rewrite Hconcat. apply in_or_app. left.
        apply in_or_app. right. now left.
Qed.

(** C1.  [groupAdjacentLines] returns, for every list of segment
    objects, structures that partition them: laid end to end the
    structures hold no object twice, and they hold exactly the objects of
    [lines]. *)
Theorem groupAdjacentLines_partition :
  exists structures,
    groupAdjacentLines h lines delta = Ok structures
    /\ NoDup (List.concat structures)
    /\ (forall line, In line (List.concat structures) <-> In line lines)
    /\ (NoDup lines -> Permutation (List.concat structures) lines).
Proof.
  unfold groupAdjacentLines.
  destruct (@groupAdjacentLines_loop lines (incl_refl lines) [])
    as (structures & Hrun & Hnd & Hincl & _ & Hall);
    [constructor | intros x [] |].
  exists structures. cbn [List.concat] in Hrun. rewrite Hrun. cbn [bind].
  split; [reflexivity|]. split; [exact Hnd|].
  assert (Hiff : forall line,
             In line (List.concat structures) <-> In line lines)
    by (intros line; split; [apply Hincl | apply Hall]).
  split; [exact Hiff|].
  intros Hlines. apply NoDup_Permutation; assumption.
Qed.


End GroupingFacts.

(* ------------------------------------------------------------------ *)
(** ** Merging over a structure *)

Lemma Structure_getitem_in_range (structure : Structure.t) (key : Z) :
  0 <= key < Structure.len structure ->
  exists line,
    Structure.getitem structure key = Ok line
    /\ nth_error structure (Z.to_nat key) = Some line.
Proof.
  intros Hkey. unfold Structure.getitem.
  rewrite axis_index_in_range by assumption.
  eexists. split; [reflexivity|].
  apply nth_error_nth'. unfold Structure.len in Hkey. lia.
Qed.

Lemma Structure_set_nth_length (structure : Structure.t) (k : nat)
      (value : loc) :
  List.length (Structure.set_nth structure k value) = List.length structure.
Proof.
  revert k. induction structure as [|l rest IH]; intros [|k]; cbn; auto.
Qed.

Lemma Structure_remove_length (structure structure' : Structure.t)
      (line : loc) :
  Structure.remove structure line = Ok structure' ->
  S (List.length structure') = List.length structure.
Proof.
  revert structure'. induction structure as [|l rest IH]; intros s' Hrun;
    cbn [Structure.remove] in Hrun; [discriminate|].
  destruct (Nat.eqb l line).
  - injection Hrun as <-. reflexivity.
  - bind_inv Hrun. injection Hrun as <-. cbn [List.length].
    now rewrite (IH _ Hrun0).
Qed.

Lemma Structure_remove_not_OutOfFuel (structure : Structure.t) (line : loc) :
  Structure.remove structure line <> OutOfFuel.
Proof.
  induction structure as [|l rest IH]; cbn [Structure.remove];
    [discriminate|].
  destruct (Nat.eqb l line); [discriminate|].
  destruct (Structure.remove rest line); cbn; congruence.
Qed.

Section MergeFacts.

Variable angle_epsilon : option R.
Variable delta : Z.

(** No segment of the structure can be combined with a later one. *)
Definition fully_merged (h : heap) (structure : Structure.t) : Prop :=
  forall (i j : nat) (line_1 line_2 : loc),
    (i < j)%nat ->
    nth_error structure i = Some line_1 ->
    nth_error structure j = Some line_2 ->
    combineLines angle_epsilon delta h line_1 line_2 = Ok (h, None).

Lemma combineLinesWithEqualSlope_for_none (h : heap)
      (structure : Structure.t) (i : Z) (line_1 : loc) (js : list Z) :
  (forall j, In j js ->
             exists line_2,
               Structure.getitem structure j = Ok line_2
               /\ combineLines angle_epsilon delta h line_1 line_2
                  = Ok (h, None)) ->
  combineLinesWithEqualSlope_for angle_epsilon delta h structure i line_1 js
  = Ok (h, None).
Proof.
  induction js as [|j rest IH]; intros Hjs; [reflexivity|].
  cbn [combineLinesWithEqualSlope_for].
  destruct (Hjs j) as (line_2 & -> & Hnone); [now left|].
  cbn [bind]. rewrite Hnone. cbn [bind]. apply IH.
  intros j' Hj'. apply Hjs. now right.
Qed.

Lemma combineLinesWithEqualSlope_Rec_fixed (h : heap)
      (structure : Structure.t) :
  fully_merged h structure ->
  forall (fuel : nat) (i : Z),
    0 <= i <= Structure.len structure ->
    Structure.len structure - i < Z.of_nat fuel ->
    combineLinesWithEqualSlope_Rec angle_epsilon delta fuel i structure h
    = Ok (h, structure).
Proof.
  intros Hfull. induction fuel as [|fuel IH]; intros i Hi Hfuel.
  - unfold Structure.len in *. lia.
  - cbn [combineLinesWithEqualSlope_Rec].
    destruct (Structure.len structure >? i) eqn:Elen; [|reflexivity].
    zbool.
    destruct (@Structure_getitem_in_range structure i)
      as (line_1 & -> & Hnth1); [lia|].
    cbn [bind]. rewrite combineLinesWithEqualSlope_for_none.
    + cbn [bind]. apply IH; lia.
    + intros j Hj. apply in_range_iff in Hj.
      destruct (@Structure_getitem_in_range structure j)
        as (line_2 & Hget & Hnth2); [lia|].
      exists line_2. split; [exact Hget|].
      apply (Hfull (Z.to_nat i) (Z.to_nat j)); auto. lia.
Qed.

(** C3, as the code has it.  Re-running [combineLinesWithEqualSlope] on
    structures that are fully merged -- no segment can be combined with a
    later one of its structure -- changes nothing: neither a structure nor
    a segment of the store. *)
Theorem combineLinesWithEqualSlope_fully_merged (h : heap)
        (structures : list Structure.t) :
  Forall (fully_merged h) structures ->
  combineLinesWithEqualSlope angle_epsilon delta structures h
  = Ok (h, structures).
Proof.
  unfold combineLinesWithEqualSlope. intros Hall.
  change (Ok (h, structures)) with (Ok (h, [] ++ structures)).
  generalize (@nil (list nat)) as processed.
  induction Hall as [|structure rest Hfull _ IH]; intros processed.
  - now rewrite app_nil_r.
  - cbn [for_each]. unfold combineLinesWithEqualSlope_body at 1.
    rewrite (combineLinesWithEqualSlope_Rec_fixed Hfull).
    + cbn [bind]. rewrite IH. now rewrite <- app_assoc.
    + unfold Structure.len. lia.
    + unfold merge_fuel, Structure.len. lia.
Qed.

(** The fuel of [combineLinesWithEqualSlope] is enough: a call that merges
    drops a segment, a call that does not advances [i]. *)
Lemma combineLinesWithEqualSlope_for_result (h h' : heap)
      (structure structure' : Structure.t) (i : Z) (line_1 : loc)
      (js : list Z) :
  combineLinesWithEqualSlope_for angle_epsilon delta h structure i line_1 js
  = Ok (h', Some structure') ->
  S (List.length structure') = List.length structure.
Proof.
  revert h. induction js as [|j rest IH]; intros h Hrun;
    cbn [combineLinesWithEqualSlope_for] in Hrun; [discriminate|].
  bind_inv Hrun. bind_inv Hrun. destruct a0 as [h1 [c|]].
  - bind_inv Hrun. bind_inv Hrun. injection Hrun as <- <-.
    rewrite (Structure_remove_length _ _ Hrun3).
    unfold Structure.setitem in Hrun2.
    destruct (axis_index (Structure.len structure) i); [|discriminate].
    injection Hrun2 as <-. apply Structure_set_nth_length.
  - eapply IH; eauto.
Qed.

Lemma combineLinesWithEqualSlope_for_not_OutOfFuel (h : heap)
      (structure : Structure.t) (i : Z) (line_1 : loc) (js : list Z) :
  combineLinesWithEqualSlope_for angle_epsilon delta h structure i line_1 js
  <> OutOfFuel.
Proof.
  revert h. induction js as [|j rest IH]; intros h;
    cbn [combineLinesWithEqualSlope_for]; [discriminate|].
  unfold Structure.getitem.
  destruct (axis_index (Structure.len structure) j); [|discriminate].
  cbn [bind].
  pose proof (@combineLines_not_OutOfFuel angle_epsilon delta h line_1
                (nth (Z.to_nat z) structure 0%nat)) as Hc.
  destruct (combineLines angle_epsilon delta h line_1
              (nth (Z.to_nat z) structure 0%nat)) as [[h1 [c|]]| |];
    cbn [bind]; try discriminate; try congruence; try apply IH.
  unfold Structure.setitem.
  destruct (axis_index (Structure.len structure) i); [|discriminate].
  cbn [bind].
  pose proof (@Structure_remove_not_OutOfFuel
                (Structure.set_nth structure (Z.to_nat z0) c)
                (nth (Z.to_nat z) structure 0%nat)) as Hr.
  destruct (Structure.remove _ _); cbn [bind]; congruence.
Qed.

Lemma combineLinesWithEqualSlope_Rec_fuel (fuel : nat) :
  forall (structure : Structure.t) (i : Z) (h : heap),
    0 <= i <= Structure.len structure ->
    2 * Structure.len structure - i < Z.of_nat fuel ->
    combineLinesWithEqualSlope_Rec angle_epsilon delta fuel i structure h
    <> OutOfFuel.
Proof.
  induction fuel as [|fuel IH]; intros structure i h Hi Hfuel.
  - unfold Structure.len in *. lia.
  - cbn [combineLinesWithEqualSlope_Rec].
    destruct (Structure.len structure >? i) eqn:Elen; [|discriminate].
    zbool.
    destruct (@Structure_getitem_in_range structure i)
      as (line_1 & -> & _); [lia|].
    cbn [bind].
    pose proof (@combineLinesWithEqualSlope_for_not_OutOfFuel h structure i
                  line_1 (range (i + 1) (Structure.len structure))) as Hfor.
    destruct (combineLinesWithEqualSlope_for _ _ _ _ _ _ _)
      as [[h1 [structure'|]]| |] eqn:Efor;
      cbn [bind]; try discriminate; try congruence.
    + apply combineLinesWithEqualSlope_for_result in Efor.
      apply IH; unfold Structure.len in *; lia.
    + apply IH; lia.
Qed.

Lemma combineLinesWithEqualSlope_not_OutOfFuel
      (structures : list Structure.t) (h : heap) :
  combineLinesWithEqualSlope angle_epsilon delta structures h <> OutOfFuel.
Proof.
  unfold combineLinesWithEqualSlope.
  generalize (@nil (list nat)) as processed. revert h.
  induction structures as [|structure rest IH]; intros h processed;
    cbn [for_each]; [discriminate|].
  unfold combineLinesWithEqualSlope_body at 1.
  pose proof (@combineLinesWithEqualSlope_Rec_fuel (merge_fuel structure)
                structure 0 h) as Hrec.
  destruct (combineLinesWithEqualSlope_Rec _ _ _ _ _ _)
    as [[h1 structure']| |]; cbn [bind]; try discriminate.
  - apply IH.
  - exfalso. apply Hrec;
      [unfold Structure.len; lia
      | unfold merge_fuel, Structure.len; lia
      | reflexivity].
Qed.

End MergeFacts.

(* ------------------------------------------------------------------ *)
(** ** Running the merge on given segments *)

(** [combineLines] on two segments that are not points, given the answer of
    the slope test. *)
Lemma combineLines_lines (eps : option R) (delta : Z) (h : heap)
      (l1 l2 : loc) (g : bool) :
  LineSegment.isPoint (h l1) = false -> LineSegment.isPoint (h l2) = false ->
  haveEqualSlope (h l1) (h l2) eps = Ok g ->
  combineLines eps delta h l1 l2 =
  if negb g then Ok (h, None)
  else if isAdjacentToStart (h l1) (h l2) delta then
      Ok (update h l2
            (LineSegment.setEndCoordinate (h l2) (LineSegment.x_end (h l1))
               (LineSegment.y_end (h l1))),
          Some l2)
    else if isAdjacentToEnd (h l1) (h l2) delta then
      Ok (update h l1
            (LineSegment.setEndCoordinate (h l1) (LineSegment.x_end (h l2))
               (LineSegment.y_end (h l2))),
          Some l1)
    else Ok (h, None).
Proof.
  intros H1 H2 Hg. unfold combineLines. rewrite H1, H2, Hg. reflexivity.
Qed.

(** One step of the loops of [combineLinesWithEqualSlope_Rec]. *)
Section MergeSteps.

Variable angle_epsilon : option R.
Variable delta : Z.

Lemma for_skip (h h' : heap) (structure : Structure.t) (i j : Z)
      (line_1 line_2 : nat) (rest : list Z) :
  Structure.getitem structure j = Ok line_2 ->
  combineLines angle_epsilon delta h line_1 line_2 = Ok (h', None) ->
  combineLinesWithEqualSlope_for angle_epsilon delta h structure i line_1
    (j :: rest)
  = combineLinesWithEqualSlope_for angle_epsilon delta h' structure i line_1
      rest.
Proof.
  intros Hget Hnone. cbn [combineLinesWithEqualSlope_for].
  rewrite Hget. cbn [bind]. now rewrite Hnone.
Qed.

Lemma for_merge (h h' : heap) (structure structure' structure'' : Structure.t)
      (i j : Z) (line_1 line_2 combinedLine : nat) (rest : list Z) :
  Structure.getitem structure j = Ok line_2 ->
  combineLines angle_epsilon delta h line_1 line_2
  = Ok (h', Some combinedLine) ->
  Structure.setitem structure i combinedLine = Ok structure' ->
  Structure.remove structure' line_2 = Ok structure'' ->
  combineLinesWithEqualSlope_for angle_epsilon delta h structure i line_1
    (j :: rest)
  = Ok (h', Some structure'').
Proof.
  intros Hget Hsome Hset Hrem. cbn [combineLinesWithEqualSlope_for].
  rewrite Hget. cbn [bind]. rewrite Hsome. cbn [bind].
  rewrite Hset. cbn [bind]. now rewrite Hrem.
Qed.

Lemma Rec_merge (fuel : nat) (h h' : heap) (structure structure' : Structure.t)
      (i : Z) (line_1 : nat) (js : list Z) :
  (Structure.len structure >? i) = true ->
  Structure.getitem structure i = Ok line_1 ->
  range (i + 1) (Structure.len structure) = js ->
  combineLinesWithEqualSlope_for angle_epsilon delta h structure i line_1 js
  = Ok (h', Some structure') ->
  combineLinesWithEqualSlope_Rec angle_epsilon delta (S fuel) i structure h
  = combineLinesWithEqualSlope_Rec angle_epsilon delta fuel i structure' h'.
Proof.
  intros Hlen Hget <- Hfor. cbn [combineLinesWithEqualSlope_Rec].
  rewrite Hlen, Hget. cbn [bind]. now rewrite Hfor.
Qed.

Lemma Rec_advance (fuel : nat) (h h' : heap) (structure : Structure.t)
      (i : Z) (line_1 : nat) (js : list Z) :
  (Structure.len structure >? i) = true ->
  Structure.getitem structure i = Ok line_1 ->
  range (i + 1) (Structure.len structure) = js ->
  combineLinesWithEqualSlope_for angle_epsilon delta h structure i line_1 js
  = Ok (h', None) ->
  combineLinesWithEqualSlope_Rec angle_epsilon delta (S fuel) i structure h
  = combineLinesWithEqualSlope_Rec angle_epsilon delta fuel (i + 1)
      structure h'.
Proof.
  intros Hlen Hget <- Hfor. cbn [combineLinesWithEqualSlope_Rec].
  rewrite Hlen, Hget. cbn [bind]. now rewrite Hfor.
Qed.

Lemma Rec_done (fuel : nat) (h : heap) (structure : Structure.t) (i : Z) :
  (Structure.len structure >? i) = false ->
  combineLinesWithEqualSlope_Rec angle_epsilon delta (S fuel) i structure h
  = Ok (h, structure).
Proof.
  intros Hlen. cbn [combineLinesWithEqualSlope_Rec]. now rewrite Hlen.
Qed.

End MergeSteps.

(** Evaluates a call of [combineLinesWithEqualSlope_Rec] on a given
    structure, with the results of the [combineLines] calls in the
    context. *)
Ltac run_for :=
  repeat first
    [ erewrite for_skip by (first [eassumption | reflexivity])
    | erewrite for_merge by (first [eassumption | reflexivity]) ];
  reflexivity.

Ltac run_Rec :=
  repeat first
    [ erewrite Rec_merge;
      [ | reflexivity | reflexivity | vm_compute; reflexivity | run_for ]
    | erewrite Rec_advance;
      [ | reflexivity | reflexivity | vm_compute; reflexivity | run_for ]
    | erewrite Rec_done by reflexivity ].

(* ------------------------------------------------------------------ *)
(** ** Scenario: two collinear runs separated by one background pixel *)

Definition scenario_C_grid : image := array_of_rows [[1; 1; 1; 0; 1; 1; 1]].

Definition scenario_C_segments : list LineSegment.t :=
  [LineSegment.mk 0 0 2 0 false; LineSegment.mk 4 0 6 0 false].

Definition scenario_C_heap : heap := fst (alloc scenario_C_segments).

Definition scenario_C_merged : heap :=
  update scenario_C_heap 0 (LineSegment.mk 0 0 6 0 false).

Lemma scenario_C_traced :
  _findLines scenario_C_grid (Z.eqb 1) = Ok scenario_C_segments
  /\ alloc scenario_C_segments = (scenario_C_heap, [0; 1]%nat).
Proof. split; [vm_compute; reflexivity | reflexivity]. Qed.

(** C2 as stated fails: the end (2,0) of the first segment and the start
    (4,0) of the second are two columns apart, outside the 3 x 3
    neighbourhood of [delta = 1]; grouping returns two structures and the
    merge, which only combines segments of one structure, leaves both. *)
Lemma scenario_C_delta_1_not_grouped :
  _findLines scenario_C_grid (Z.eqb 1) = Ok scenario_C_segments
  /\ isAdjacent (scenario_C_heap 0%nat) (scenario_C_heap 1%nat) 1 = false
  /\ groupAdjacentLines scenario_C_heap [0; 1]%nat 1 = Ok [[0]; [1]]%nat
  /\ ~ (exists structure,
           groupAdjacentLines scenario_C_heap [0; 1]%nat 1 = Ok [structure])
  /\ combineLinesWithEqualSlope (Some 5%R) 1 [[0]; [1]]%nat scenario_C_heap
     = Ok (scenario_C_heap, [[0]; [1]]%nat).
Proof.
  split; [apply scenario_C_traced|].
  split; [reflexivity|].
  assert (Hgroup : groupAdjacentLines scenario_C_heap [0; 1]%nat 1
                   = Ok [[0]; [1]]%nat) by (vm_compute; reflexivity).
  split; [exact Hgroup|].
  split; [intros [structure Hone]; rewrite Hgroup in Hone; discriminate|].
  unfold combineLinesWithEqualSlope. cbn [for_each].
  unfold combineLinesWithEqualSlope_body, merge_fuel.
  cbn [List.length Nat.mul Nat.add]. run_Rec. cbn [bind]. run_Rec.
  reflexivity.
Qed.

(** C2, as the code has it.  Tracing the grid yields the segments
    (0,0)-(2,0) and (4,0)-(6,0).  With [delta = 1] they are grouped into two
    structures; with [delta = 2] and an [angle_epsilon >= 0] they are grouped
    into one structure and merged into the single segment (0,0)-(6,0) that
    spans both runs. *)
Theorem scenario_C_delta_2_merged (angle_epsilon : R) :
  (0 <= angle_epsilon)%R ->
  _findLines scenario_C_grid (Z.eqb 1) = Ok scenario_C_segments
  /\ groupAdjacentLines scenario_C_heap [0; 1]%nat 1 = Ok [[0]; [1]]%nat
  /\ groupAdjacentLines scenario_C_heap [0; 1]%nat 2 = Ok [[0; 1]]%nat
  /\ combineLinesWithEqualSlope (Some angle_epsilon) 2 [[0; 1]]%nat
       scenario_C_heap
     = Ok (scenario_C_merged, [[0]]%nat)
  /\ Structure.transformIntoNumpyArray scenario_C_merged [0]%nat
     = [[0; 0; 6; 0]].
Proof.
  intros Heps.
  split; [apply scenario_C_traced|].
  split; [vm_compute; reflexivity|].
  split; [vm_compute; reflexivity|].
  split; [|reflexivity].
  assert (Hmerge : combineLines (Some angle_epsilon) 2 scenario_C_heap
                     0%nat 1%nat
                   = Ok (scenario_C_merged, Some 0%nat)).
  { rewrite (@combineLines_lines _ _ _ _ _ true); try reflexivity.
    apply haveEqualSlope_same_direction; [|exact Heps].
    apply computeAngle_same_direction; reflexivity. }
  unfold combineLinesWithEqualSlope. cbn [for_each].
  unfold combineLinesWithEqualSlope_body, merge_fuel.
  cbn [List.length Nat.mul Nat.add]. run_Rec. reflexivity.
Qed.

Lemma scenario_C_delta_2_merged_witness :
  combineLinesWithEqualSlope (Some 5%R) 2 [[0; 1]]%nat scenario_C_heap
  = Ok (scenario_C_merged, [[0]]%nat)
  /\ scenario_C_merged 0%nat = LineSegment.mk 0 0 6 0 false.
Proof.
  assert (Heps : (0 <= 5)%R) by lra.
  destruct (scenario_C_delta_2_merged Heps) as (_ & _ & _ & Hmerge & _).
  split; [exact Hmerge | reflexivity].
Defined.

(* ------------------------------------------------------------------ *)
(** ** Scenario: a merge that a second run completes *)

(** A vertical line in column 4, an isolated pixel at (2,4) and a two-pixel
    run (1,6)-(2,6). *)
Definition fork_grid : image := array_of_rows
  [[0; 0; 0; 0; 1];
   [0; 0; 0; 0; 1];
   [0; 0; 0; 0; 1];
   [0; 0; 0; 0; 1];
   [0; 0; 1; 0; 1];
   [0; 0; 0; 0; 1];
   [0; 1; 1; 0; 1];
   [0; 0; 0; 0; 1]].

Definition fork_segments : list LineSegment.t :=
  [LineSegment.mk 4 0 4 7 true;
   LineSegment.mk 2 4 2 4 false;
   LineSegment.mk 1 6 2 6 false].

Definition fork_heap : heap := fst (alloc fork_segments).

(** The store after the first run: the point has become (2,4)-(2,6). *)
Definition fork_heap_1 : heap :=
  update fork_heap 1 (LineSegment.mk 2 4 2 6 false).

(** The store after the second run: the vertical line has become
    (4,0)-(2,6). *)
Definition fork_heap_2 : heap :=
  update fork_heap_1 0 (LineSegment.mk 4 0 2 6 true).

(** C3 as stated fails.  The grid is traced into three segments that
    [delta = 2] groups into the one structure [line; run; point].  The first
    run of the merge tests the line against the run (perpendicular) and
    against the point (not adjacent), moves on, and then extends the point
    to the end of the run, which makes it a vertical segment adjacent to the
    line.  Index 0 is not visited again, so the output still holds two
    segments that [combineLines] combines: the second run merges them. *)
Lemma merge_not_idempotent :
  _findLines fork_grid (Z.eqb 1) = Ok fork_segments
  /\ groupAdjacentLines fork_heap [0; 1; 2]%nat 2 = Ok [[0; 2; 1]]%nat
  /\ combineLinesWithEqualSlope (Some 5%R) 2 [[0; 2; 1]]%nat fork_heap
     = Ok (fork_heap_1, [[0; 1]]%nat)
  /\ combineLinesWithEqualSlope (Some 5%R) 2 [[0; 1]]%nat fork_heap_1
     = Ok (fork_heap_2, [[0]]%nat)
  /\ Structure.transformIntoNumpyArray fork_heap_1 [0; 1]%nat
     = [[4; 0; 4; 7]; [2; 4; 2; 6]]
  /\ Structure.transformIntoNumpyArray fork_heap_2 [0]%nat = [[4; 0; 2; 6]]
  /\ combineLines (Some 5%R) 2 fork_heap_1 0%nat 1%nat
     = Ok (fork_heap_2, Some 0%nat)
  /\ combineLinesWithEqualSlope (Some 5%R) 2 [[0; 1]]%nat fork_heap_1
     <> Ok (fork_heap_1, [[0; 1]]%nat).
Proof.
  assert (Hline_run : combineLines (Some 5%R) 2 fork_heap 0%nat 2%nat
                      = Ok (fork_heap, None)).
  { rewrite (@combineLines_lines _ _ _ _ _ false); try reflexivity.
    apply haveEqualSlope_perpendicular; [|lra].
    apply computeAngle_perpendicular. reflexivity. }
  assert (Hline_point : combineLines (Some 5%R) 2 fork_heap 0%nat 1%nat
                        = Ok (fork_heap, None)) by reflexivity.
  assert (Hrun_point : combineLines (Some 5%R) 2 fork_heap 2%nat 1%nat
                       = Ok (fork_heap_1, Some 1%nat)) by reflexivity.
  assert (Hsecond : combineLines (Some 5%R) 2 fork_heap_1 0%nat 1%nat
                    = Ok (fork_heap_2, Some 0%nat)).
  { rewrite (@combineLines_lines _ _ _ _ _ true); try reflexivity.
    apply haveEqualSlope_same_direction; [|lra].
    apply computeAngle_same_direction; reflexivity. }
  split; [vm_compute; reflexivity|].
  split; [vm_compute; reflexivity|].
  split.
  { unfold combineLinesWithEqualSlope. cbn [for_each].
    unfold combineLinesWithEqualSlope_body, merge_fuel.
    cbn [List.length Nat.mul Nat.add]. run_Rec. reflexivity. }
  assert (Hrun2 : combineLinesWithEqualSlope (Some 5%R) 2 [[0; 1]]%nat
                    fork_heap_1
                  = Ok (fork_heap_2, [[0]]%nat)).
  { unfold combineLinesWithEqualSlope. cbn [for_each].
    unfold combineLinesWithEqualSlope_body, merge_fuel.
    cbn [List.length Nat.mul Nat.add]. run_Rec. reflexivity. }
  split; [exact Hrun2|].
  split; [reflexivity|]. split; [reflexivity|]. split; [exact Hsecond|].
  rewrite Hrun2. intros [= _ Hlen].
Qed.

(** Two points five pixels apart form a fully merged structure. *)
Lemma combineLinesWithEqualSlope_fully_merged_witness :
  let h := fst (alloc [LineSegment.mk 0 0 0 0 false;
                       LineSegment.mk 5 5 5 5 false]) in
  combineLinesWithEqualSlope (Some 5%R) 1 [[0; 1]]%nat h
  = Ok (h, [[0; 1]]%nat).
Proof.
  intro h. apply combineLinesWithEqualSlope_fully_merged.
  constructor; [|constructor].
  intros i j line_1 line_2 Hlt Hi Hj.
  destruct i as [|[|i]]; destruct j as [|[|[|j]]]; cbn in Hi, Hj;
    try discriminate; try lia.
  injection Hi as <-. injection Hj as <-. reflexivity.
Defined.

(* ------------------------------------------------------------------ *)
(** ** The tracing loops do not run out of fuel *)

Lemma bind_not_OutOfFuel {A B : Type} (c : res A) (k : A -> res B) :
  c <> OutOfFuel -> (forall a, c = Ok a -> k a <> OutOfFuel) ->
  bind c k <> OutOfFuel.
Proof.
  intros Hc Hk. destruct c as [a| |]; cbn [bind];
    [now apply Hk | discriminate | contradiction].
Qed.

Lemma for_each_not_OutOfFuel {A S : Type} (xs : list A)
      (body : A -> S -> res S) (s : S) :
  (forall x s, body x s <> OutOfFuel) -> for_each xs body s <> OutOfFuel.
Proof.
  intros Hbody. revert s. induction xs as [|x xs IH]; intros s;
    cbn [for_each]; [discriminate|].
  apply bind_not_OutOfFuel; auto.
Qed.

Lemma getitem_not_OutOfFuel {A : Type} (a : ndarray A) (y x : Z) :
  getitem a y x <> OutOfFuel.
Proof.
  unfold getitem.
  destruct (axis_index (shape0 a) y), (axis_index (shape1 a) x); discriminate.
Qed.

Lemma getitem_Ok_row {A : Type} (a : ndarray A) (y x : Z) (p : A) :
  getitem a y x = Ok p -> - shape0 a <= y < shape0 a.
Proof.
  unfold getitem, axis_index.
  destruct ((0 <=? y) && (y <? shape0 a)) eqn:E1; zbool; [lia|].
  destruct ((- shape0 a <=? y) && (y <? 0)) eqn:E2; zbool; [lia|].
  discriminate.
Qed.

Section TracingReturns.

Variable img : image.
Variable isLineColor : Z -> bool.

Lemma findVerticalSegment_while_fuel (x : Z) (fuel : nat) :
  forall l, shape0 img - l <= Z.of_nat fuel ->
  findVerticalSegment_while fuel img x l isLineColor <> OutOfFuel.
Proof.
  induction fuel as [|fuel IH]; intros l Hfuel;
    cbn [findVerticalSegment_while];
    (destruct (l <? shape0 img) eqn:E; zbool; [|discriminate]);
    [lia|].
  apply bind_not_OutOfFuel; [apply getitem_not_OutOfFuel|].
  intros p _. destruct (isLineColor p); [apply IH; lia | discriminate].
Qed.

Lemma findHorizontalPositiveSegment_while_fuel (y : Z) (fuel : nat) :
  forall l, shape1 img - l <= Z.of_nat fuel ->
  findHorizontalPositiveSegment_while fuel img l y isLineColor <> OutOfFuel.
Proof.
  induction fuel as [|fuel IH]; intros l Hfuel;
    cbn [findHorizontalPositiveSegment_while];
    (destruct (l <? shape1 img) eqn:E; zbool; [|discriminate]);
    [lia|].
  apply bind_not_OutOfFuel; [apply getitem_not_OutOfFuel|].
  intros p _. destruct (isLineColor p); [apply IH; lia | discriminate].
Qed.

Lemma findHorizontalNegativeSegment_while_fuel (y : Z) (fuel : nat) :
  forall l, l + 1 <= Z.of_nat fuel ->
  findHorizontalNegativeSegment_while fuel img l y isLineColor <> OutOfFuel.
Proof.
  induction fuel as [|fuel IH]; intros l Hfuel;
    cbn [findHorizontalNegativeSegment_while];
    (destruct (l >=? 0) eqn:E; zbool; [|discriminate]);
    [lia|].
  apply bind_not_OutOfFuel; [apply getitem_not_OutOfFuel|].
  intros p _. destruct (isLineColor p); [apply IH; lia | discriminate].
Qed.

Lemma findVerticalSegment_not_OutOfFuel (x y : Z) :
  findVerticalSegment img x y isLineColor <> OutOfFuel.
Proof.
  unfold findVerticalSegment. apply bind_not_OutOfFuel; [|discriminate].
  apply findVerticalSegment_while_fuel. lia.
Qed.

Lemma findHorizontalPositiveSegment_not_OutOfFuel (x y : Z) :
  findHorizontalPositiveSegment img x y isLineColor <> OutOfFuel.
Proof.
  unfold findHorizontalPositiveSegment.
  apply bind_not_OutOfFuel; [|discriminate].
  apply findHorizontalPositiveSegment_while_fuel. lia.
Qed.

Lemma findHorizontalNegativeSegment_not_OutOfFuel (x y : Z) :
  findHorizontalNegativeSegment img x y isLineColor <> OutOfFuel.
Proof.
  unfold findHorizontalNegativeSegment.
  apply bind_not_OutOfFuel; [|discriminate].
  apply findHorizontalNegativeSegment_while_fuel. lia.
Qed.

(** A run finder that moved has read the pixel it was seeded on. *)
Lemma findVerticalSegment_while_moved (x : Z) (fuel : nat) :
  forall l l',
    findVerticalSegment_while fuel img x l isLineColor = Ok l' ->
    l <= l'
    /\ (l < l' -> l' <= shape0 img /\ exists p, getitem img l x = Ok p).
Proof.
  induction fuel as [|fuel IH]; intros l l' Hrun;
    cbn [findVerticalSegment_while] in Hrun;
    (destruct (l <? shape0 img) eqn:E; zbool;
     [|injection Hrun as <-; split; [lia | intros; lia]]);
    bind_inv Hrun; destruct (isLineColor a);
    try discriminate; try (injection Hrun as <-; split; [lia | intros; lia]).
  apply IH in Hrun. destruct Hrun as [Hle Hmoved]. split; [lia|].
  intros _. split; [|eauto].
  destruct (Z.eq_dec l' (l + 1)) as [-> | Hne]; [lia|].
  apply Hmoved. lia.
Qed.

Lemma findHorizontalPositiveSegment_while_moved (y : Z) (fuel : nat) :
  forall l l',
    findHorizontalPositiveSegment_while fuel img l y isLineColor = Ok l' ->
    l <= l' /\ (l < l' -> exists p, getitem img y l = Ok p).
Proof.
  induction fuel as [|fuel IH]; intros l l' Hrun;
    cbn [findHorizontalPositiveSegment_while] in Hrun;
    (destruct (l <? shape1 img) eqn:E; zbool;
     [|injection Hrun as <-; split; [lia | intros; lia]]);
    bind_inv Hrun; destruct (isLineColor a);
    try discriminate; try (injection Hrun as <-; split; [lia | intros; lia]).
  apply IH in Hrun. destruct Hrun as [Hle _]. split; [lia | eauto].
Qed.

Lemma findHorizontalNegativeSegment_while_moved (y : Z) (fuel : nat) :
  forall l l',
    findHorizontalNegativeSegment_while fuel img l y isLineColor = Ok l' ->
    l' <= l /\ (l' < l -> exists p, getitem img y l = Ok p).
Proof.
  induction fuel as [|fuel IH]; intros l l' Hrun;
    cbn [findHorizontalNegativeSegment_while] in Hrun;
    (destruct (l >=? 0) eqn:E; zbool;
     [|injection Hrun as <-; split; [lia | intros; lia]]);
    bind_inv Hrun; destruct (isLineColor a);
    try discriminate; try (injection Hrun as <-; split; [lia | intros; lia]).
  apply IH in Hrun. destruct Hrun as [Hle _]. split; [lia | eauto].
Qed.

End TracingReturns.

Lemma run_probe_not_OutOfFuel (p : probe) (seg : LineSegment.t) (img : image)
      (isLineColor : Z -> bool) :
  run_probe p seg img isLineColor <> OutOfFuel.
Proof.
  destruct (run_probe_total p seg img isLineColor) as [b ->]. discriminate.
Qed.

Lemma setVisited_not_OutOfFuel (vm : VisitedMatrix.t) (x y : Z) :
  VisitedMatrix.setVisited vm x y <> OutOfFuel.
Proof.
  unfold VisitedMatrix.setVisited, setitem.
  destruct (negb (VisitedMatrix.isValidIndice vm x y)); [discriminate|].
  destruct (axis_index (shape0 (VisitedMatrix._visited_matrix vm)) y),
    (axis_index (shape1 (VisitedMatrix._visited_matrix vm)) x); discriminate.
Qed.

Lemma setRowVisited_not_OutOfFuel (vm : VisitedMatrix.t) (y x1 x2 : Z) :
  VisitedMatrix.setRowVisited vm y x1 x2 <> OutOfFuel.
Proof.
  unfold VisitedMatrix.setRowVisited.
  destruct (negb _); [discriminate|].
  destruct (x1 >? x2); apply for_each_not_OutOfFuel;
    intros; apply setVisited_not_OutOfFuel.
Qed.

Lemma setColumnVisited_not_OutOfFuel (vm : VisitedMatrix.t) (x y1 y2 : Z) :
  VisitedMatrix.setColumnVisited vm x y1 y2 <> OutOfFuel.
Proof.
  unfold VisitedMatrix.setColumnVisited.
  destruct (negb _); [discriminate|].
  destruct (y1 >? y2); apply for_each_not_OutOfFuel;
    intros; apply setVisited_not_OutOfFuel.
Qed.

(** Discharges a goal [c <> OutOfFuel] for a straight-line [c]. *)
Ltac no_fuel :=
  repeat first
    [ discriminate
    | match goal with
      | H : forall seg vm, ?handler _ _ seg vm <> OutOfFuel
        |- ?handler _ _ _ _ <> OutOfFuel => apply H
      end
    | apply getitem_not_OutOfFuel
    | apply findVerticalSegment_not_OutOfFuel
    | apply findHorizontalPositiveSegment_not_OutOfFuel
    | apply findHorizontalNegativeSegment_not_OutOfFuel
    | apply setRowVisited_not_OutOfFuel
    | apply setColumnVisited_not_OutOfFuel
    | apply (run_probe_not_OutOfFuel Below)
    | apply (run_probe_not_OutOfFuel RightDown)
    | apply (run_probe_not_OutOfFuel LeftDown)
    | apply bind_not_OutOfFuel; [|intros ? _]
    | match goal with
      | |- (if ?c then _ else _) <> _ => destruct c
      | |- (match ?x with _ => _ end) <> _ => destruct x
      | |- (let '_ := ?x in _) <> _ => destruct x
      end ].

Section TracingLoops.

Variable img : image.
Variable isLineColor : Z -> bool.

Lemma extension_body_not_OutOfFuel (o : octant) (length max_length : Z)
      (st : locals) :
  extension_body img isLineColor o length max_length st <> OutOfFuel.
Proof.
  destruct o; cbn [extension_body];
    unfold handleFourthOctant_body, handleSeventhOctant_body,
      handleFifthAndSixthOctant_body; no_fuel.
Qed.

(** The row of the endpoint that a handler moves. *)
Definition moving_row (o : octant) (st : locals) : Z :=
  match o with
  | Fourth => LineSegment.y_start (lineSegment st)
  | _ => LineSegment.y_end (lineSegment st)
  end.

(** An iteration that leaves [moreSeg] set has moved the endpoint down, to a
    row that the image addresses. *)
Lemma extension_body_continues (o : octant) (length : Z) (st st' : locals) :
  1 <= length ->
  extension_body img isLineColor o length (2 * length) st = Ok st' ->
  moreSeg st' = true ->
  moving_row o st < moving_row o st'
  /\ - shape0 img <= moving_row o st' < shape0 img.
Proof.
  intros Hlen Hbody Hmore.
  destruct st as [seg vm xt found more].
  destruct o; cbn [extension_body] in Hbody;
    unfold handleFourthOctant_body, handleSeventhOctant_body,
      handleFifthAndSixthOctant_body in Hbody;
    cbn [lineSegment run_end moreSeg visited_matrix x_temp] in Hbody;
    unfold moving_row; cbn [lineSegment].
  - (* Fourth *)
    bind_inv Hbody. destruct a as [|].
    + bind_inv Hbody. bind_inv Hrun0. injection Hrun0 as <-.
      destruct a0 as [x_end y_end]. cbn [fst snd] in Hbody.
      match type of Hbody with
      | (if ?c then _ else _) = _ => destruct c eqn:Ewin
      end.
      * bind_inv Hbody. injection Hbody as <-. cbn [lineSegment]. zbool.
        unfold findHorizontalNegativeSegment in Hrun1. bind_inv Hrun1.
        injection Hrun1 as <- <-.
        apply findHorizontalNegativeSegment_while_moved in Hrun2.
        destruct Hrun2 as [_ Hmoved].
        destruct Hmoved as [p Hp]; [lia|].
        apply getitem_Ok_row in Hp. cbn. lia.
      * injection Hbody as <-. discriminate.
    + cbn [bind] in Hbody. destruct found as [[x_end y_end]|];
        [|discriminate].
      match type of Hbody with
      | (if ?c then _ else _) = _ => destruct c
      end; [bind_inv Hbody|]; injection Hbody as <-; discriminate.
  - (* Seventh *)
    bind_inv Hbody. destruct a as [|].
    + bind_inv Hbody. bind_inv Hrun0. injection Hrun0 as <-.
      destruct a0 as [x_end y_end]. cbn [fst snd] in Hbody.
      match type of Hbody with
      | (if ?c then _ else _) = _ => destruct c eqn:Ewin
      end.
      * bind_inv Hbody. injection Hbody as <-. cbn [lineSegment]. zbool.
        unfold findHorizontalPositiveSegment in Hrun1. bind_inv Hrun1.
        injection Hrun1 as <- <-.
        apply findHorizontalPositiveSegment_while_moved in Hrun2.
        destruct Hrun2 as [_ Hmoved].
        destruct Hmoved as [p Hp]; [lia|].
        apply getitem_Ok_row in Hp. cbn. lia.
      * injection Hbody as <-. discriminate.
    + cbn [bind] in Hbody. destruct found as [[x_end y_end]|];
        [|discriminate].
      match type of Hbody with
      | (if ?c then _ else _) = _ => destruct c
      end; [bind_inv Hbody|]; injection Hbody as <-; discriminate.
  - (* FifthAndSixth *)
    bind_inv Hbody. bind_inv Hbody. destruct a0 as [[xt' found'] more'].
    assert (Hfound :
      more' = false
      \/ exists x_end y_end,
          found' = Some (x_end, y_end)
          /\ findVerticalSegment img xt' (LineSegment.y_end seg + 1)
               isLineColor = Ok (x_end, y_end)).
    { destruct a.
      - bind_inv Hrun0. injection Hrun0 as <- <- <-. right.
        destruct a as [x_end y_end]. eauto.
      - bind_inv Hrun0. destruct a.
        + bind_inv Hrun0. injection Hrun0 as <- <- <-. right.
          destruct a as [x_end y_end]. eauto.
        + injection Hrun0 as <- <- <-. now left. }
    destruct found' as [[x_end y_end]|]; [|discriminate].
    match type of Hbody with
    | (if ?c then _ else _) = _ => destruct c eqn:Ewin
    end.
    + bind_inv Hbody. injection Hbody as <-. cbn [lineSegment moreSeg] in *.
      destruct Hfound as [-> | (x_end' & y_end' & [= <- <-] & Hfind)];
        [discriminate|].
      zbool. unfold findVerticalSegment in Hfind. bind_inv Hfind.
      injection Hfind as <- <-.
      apply findVerticalSegment_while_moved in Hrun2.
      destruct Hrun2 as [_ Hmoved].
      destruct Hmoved as [Hle [p Hp]]; [lia|].
      apply getitem_Ok_row in Hp. cbn. lia.
    + injection Hbody as <-. discriminate.
Qed.

(** A loop whose endpoint is on a row of the image returns within as many
    iterations as there are rows from it to the last one. *)
Lemma while_moreSeg_fuel_in_image (o : octant) (length : Z) (fuel : nat) :
  1 <= length ->
  forall st,
    (moreSeg st = true ->
     - shape0 img <= moving_row o st < shape0 img
     /\ shape0 img - moving_row o st <= Z.of_nat fuel) ->
    while_moreSeg fuel (extension_body img isLineColor o length (2 * length))
      st
    <> OutOfFuel.
Proof.
  intros Hlen. induction fuel as [|fuel IH]; intros st Hrow;
    cbn [while_moreSeg]; destruct (moreSeg st) eqn:Hmore; try discriminate.
  - destruct (Hrow eq_refl). lia.
  - apply bind_not_OutOfFuel;
      [apply extension_body_not_OutOfFuel|].
    intros st' Hbody. apply IH. intros Hmore'.
    destruct (Hrow eq_refl) as [Hlo Hhi].
    destruct (extension_body_continues o st Hlen Hbody Hmore'). lia.
Qed.

Lemma while_moreSeg_S (fuel : nat) (body : locals -> res locals)
      (st : locals) :
  while_moreSeg (S fuel) body st
  = if moreSeg st then st' <- body st ;; while_moreSeg fuel body st'
    else Ok st.
Proof. reflexivity. Qed.

(** From any locals, the fuel of the handlers is enough: after one
    iteration the endpoint is on a row of the image. *)
Lemma while_moreSeg_extension_fuel (o : octant) (length : Z) (st : locals) :
  1 <= length ->
  while_moreSeg (extension_fuel img)
    (extension_body img isLineColor o length (2 * length)) st
  <> OutOfFuel.
Proof.
  intros Hlen. unfold extension_fuel. rewrite while_moreSeg_S.
  destruct (moreSeg st); [|discriminate].
  apply bind_not_OutOfFuel; [apply extension_body_not_OutOfFuel|].
  intros st' Hbody. apply while_moreSeg_fuel_in_image; [assumption|].
  intros Hmore'.
  destruct (extension_body_continues o st Hlen Hbody Hmore'). lia.
Qed.

Lemma handleFourthOctant_not_OutOfFuel (seg : LineSegment.t)
      (vm : VisitedMatrix.t) :
  handleFourthOctant img isLineColor seg vm <> OutOfFuel.
Proof.
  unfold handleFourthOctant. apply bind_not_OutOfFuel; [|discriminate].
  apply (@while_moreSeg_extension_fuel Fourth).
  apply (reference_length_pos Fourth).
Qed.

Lemma handleSeventhOctant_not_OutOfFuel (seg : LineSegment.t)
      (vm : VisitedMatrix.t) :
  handleSeventhOctant img isLineColor seg vm <> OutOfFuel.
Proof.
  unfold handleSeventhOctant. apply bind_not_OutOfFuel; [|discriminate].
  apply (@while_moreSeg_extension_fuel Seventh).
  apply (reference_length_pos Seventh).
Qed.

Lemma handleFourthAndSeventhOctant_not_OutOfFuel (seg : LineSegment.t)
      (vm : VisitedMatrix.t) :
  handleFourthAndSeventhOctant img isLineColor seg vm <> OutOfFuel.
Proof.
  unfold handleFourthAndSeventhOctant.
  pose proof handleFourthOctant_not_OutOfFuel.
  pose proof handleSeventhOctant_not_OutOfFuel.
  no_fuel; auto.
Qed.

Lemma handleFifthAndSixthOctant_not_OutOfFuel (seg : LineSegment.t)
      (vm : VisitedMatrix.t) :
  handleFifthAndSixthOctant img isLineColor seg vm <> OutOfFuel.
Proof.
  unfold handleFifthAndSixthOctant.
  apply bind_not_OutOfFuel.
  - unfold handleFifthAndSixthOctant_init. no_fuel.
  - intros st0 _. apply bind_not_OutOfFuel; [|discriminate].
    apply (@while_moreSeg_extension_fuel FifthAndSixth).
    apply (reference_length_pos FifthAndSixth).
Qed.

(** The scan driver returns its list of segments or raises: none of its
    loops runs out of fuel. *)
Lemma findLines_not_OutOfFuel : _findLines img isLineColor <> OutOfFuel.
Proof.
  unfold _findLines. apply bind_not_OutOfFuel;
    [|intros [lines vm] _; discriminate].
  apply for_each_not_OutOfFuel. intros i acc.
  apply for_each_not_OutOfFuel. intros j [lines vm].
  unfold findLines_pixel.
  pose proof handleFourthAndSeventhOctant_not_OutOfFuel.
  pose proof handleFifthAndSixthOctant_not_OutOfFuel.
  unfold VisitedMatrix.isVisited.
  no_fuel; auto.
Qed.

End TracingLoops.

(* ================================================================== *)
(** * Further properties of the tracing code *)

(* ------------------------------------------------------------------ *)
(** ** The visited tracker: marking and querying *)

(** A cell of the tracker, read from the array (rows first). *)
Definition marked (vm : VisitedMatrix.t) (x y : Z) : bool :=
  1 =? item (VisitedMatrix._visited_matrix vm) y x.

(** Column [x], row [y] is a cell of the tracker. *)
Definition in_tracker (vm : VisitedMatrix.t) (x y : Z) : Prop :=
  0 <= x < shape1 (VisitedMatrix._visited_matrix vm)
  /\ 0 <= y < shape0 (VisitedMatrix._visited_matrix vm).

(** The two trackers have the same shape. *)
Definition same_tracker_shape (vm vm' : VisitedMatrix.t) : Prop :=
  shape0 (VisitedMatrix._visited_matrix vm')
  = shape0 (VisitedMatrix._visited_matrix vm)
  /\ shape1 (VisitedMatrix._visited_matrix vm')
     = shape1 (VisitedMatrix._visited_matrix vm).

Lemma isVisited_in_tracker (vm : VisitedMatrix.t) (x y : Z) :
  in_tracker vm x y -> VisitedMatrix.isVisited vm x y = Ok (marked vm x y).
Proof.
  intros [Hx Hy]. unfold VisitedMatrix.isVisited.
  replace (VisitedMatrix.isValidIndice vm x y) with true
    by (symmetry; apply isValidIndice_spec; lia).
  cbn [negb]. now rewrite getitem_in_range.
Qed.

Lemma setVisited_in_tracker (vm : VisitedMatrix.t) (x y : Z) :
  in_tracker vm x y ->
  exists vm',
    VisitedMatrix.setVisited vm x y = Ok vm'
    /\ same_tracker_shape vm vm'
    /\ forall x' y',
        marked vm' x' y' = ((x' =? x) && (y' =? y)) || marked vm x' y'.
Proof.
  intros [Hx Hy]. unfold VisitedMatrix.setVisited.
  replace (VisitedMatrix.isValidIndice vm x y) with true
    by (symmetry; apply isValidIndice_spec; lia).
  cbn [negb]. unfold setitem.
  rewrite !axis_index_in_range by lia. cbn [bind].
  eexists. split; [reflexivity|]. split; [split; reflexivity|].
  intros x' y'. unfold marked. cbn.
  destruct (y' =? y) eqn:Ey, (x' =? x) eqn:Ex; cbn; reflexivity.
Qed.

(** X1.  Marking a cell of the tracker and querying it: after
    [setVisited(x, y)] on a cell of the grid, [isVisited(x, y)] is [True],
    the shape is the same, and the answer for every other cell is what it
    was before. *)
Theorem setVisited_isVisited (vm : VisitedMatrix.t) (x y : Z) :
  in_tracker vm x y ->
  exists vm',
    VisitedMatrix.setVisited vm x y = Ok vm'
    /\ same_tracker_shape vm vm'
    /\ VisitedMatrix.isVisited vm' x y = Ok true
    /\ forall x' y',
        in_tracker vm x' y' -> (x', y') <> (x, y) ->
        VisitedMatrix.isVisited vm' x' y' = VisitedMatrix.isVisited vm x' y'.
Proof.
  intros Hin. destruct (setVisited_in_tracker Hin) as (vm' & Hset & Hshape & Hm).
  exists vm'. split; [exact Hset|]. split; [exact Hshape|].
  assert (Hin' : forall x' y', in_tracker vm x' y' -> in_tracker vm' x' y').
  { intros x' y' [Hx' Hy']. destruct Hshape as [H0 H1].
    split; [rewrite H1 | rewrite H0]; assumption. }
  split.
  - rewrite isVisited_in_tracker by auto. rewrite Hm, !Z.eqb_refl.
    reflexivity.
  - intros x' y' Hin2 Hne.
    rewrite !isVisited_in_tracker by auto. rewrite Hm.
    destruct (x' =? x) eqn:Ex, (y' =? y) eqn:Ey; zbool; cbn; try reflexivity.
    subst. contradiction.
Qed.

(** A fresh tracker over a 4 x 3 image: cell (2,1) is marked, cell (1,1)
    is still unvisited. *)
Lemma setVisited_isVisited_witness :
  let vm := VisitedMatrix.init (mk_ndarray 3 4 (fun _ _ => 0)) in
  exists vm',
    VisitedMatrix.setVisited vm 2 1 = Ok vm'
    /\ VisitedMatrix.isVisited vm' 2 1 = Ok true
    /\ VisitedMatrix.isVisited vm' 1 1 = Ok false.
Proof.
  intro vm.
  destruct (@setVisited_isVisited vm 2 1) as (vm' & Hset & _ & Hget & Hrest).
  { split; cbn; lia. }
  exists vm'. split; [exact Hset|]. split; [exact Hget|].
  rewrite Hrest; [reflexivity | split; cbn; lia | discriminate].
Defined.

(** Marking a list of cells of one row, or of one column. *)
Lemma for_each_setVisited_cells (cell : Z -> Z * Z) (cells : list Z) :
  forall vm,
    (forall i, In i cells -> in_tracker vm (fst (cell i)) (snd (cell i))) ->
    exists vm',
      for_each cells
        (fun i vm => VisitedMatrix.setVisited vm (fst (cell i)) (snd (cell i)))
        vm = Ok vm'
      /\ same_tracker_shape vm vm'
      /\ forall x' y',
          marked vm' x' y'
          = existsb (fun i => (x' =? fst (cell i)) && (y' =? snd (cell i)))
              cells
            || marked vm x' y'.
Proof.
  induction cells as [|i cells IH]; intros vm Hcells.
  - exists vm. split; [reflexivity|]. split; [split; reflexivity|].
    reflexivity.
  - cbn [for_each].
    destruct (@setVisited_in_tracker vm (fst (cell i)) (snd (cell i)))
      as (vm1 & Hset & [H0 H1] & Hm1); [apply Hcells; now left|].
    rewrite Hset. cbn [bind].
    destruct (IH vm1) as (vm' & Hrun & [H0' H1'] & Hm').
    { intros j Hj. destruct (Hcells j) as [Hx Hy]; [now right|].
      split; [rewrite H1 | rewrite H0]; assumption. }
    exists vm'. split; [exact Hrun|].
    split; [split; congruence|].
    intros x' y'. rewrite Hm', Hm1. cbn [existsb].
    destruct (existsb _ cells); destruct ((x' =? fst (cell i)) && _);
      reflexivity.
Qed.

Lemma existsb_range (p : Z -> bool) (lo hi : Z) :
  existsb p (range lo hi) = true <-> exists i, lo <= i < hi /\ p i = true.
Proof.
  rewrite existsb_exists. split; intros (i & Hi & Hp); exists i;
    (split; [|exact Hp]); now apply in_range_iff.
Qed.

(** X2.  [setRowVisited(y, x1, x2)] with both end cells on the grid marks
    exactly the cells of row [y] between the two columns, inclusive, in
    whichever order they are given; every other cell answers as before. *)
Theorem setRowVisited_marks (vm : VisitedMatrix.t) (y x1 x2 : Z) :
  in_tracker vm x1 y -> in_tracker vm x2 y ->
  exists vm',
    VisitedMatrix.setRowVisited vm y x1 x2 = Ok vm'
    /\ same_tracker_shape vm vm'
    /\ forall x' y',
        in_tracker vm x' y' ->
        VisitedMatrix.isVisited vm' x' y'
        = Ok (((y' =? y) && (Z.min x1 x2 <=? x') && (x' <=? Z.max x1 x2))
              || marked vm x' y').
Proof.
  intros [Hx1 Hy] [Hx2 _]. unfold VisitedMatrix.setRowVisited.
  replace (VisitedMatrix.isValidIndice vm x1 y) with true
    by (symmetry; apply isValidIndice_spec; lia).
  replace (VisitedMatrix.isValidIndice vm x2 y) with true
    by (symmetry; apply isValidIndice_spec; lia).
  cbn [andb negb].
  assert (Hrow : forall lo hi,
    0 <= lo -> hi < shape1 (VisitedMatrix._visited_matrix vm) ->
    exists vm',
      for_each (range lo (hi + 1))
        (fun i vm0 => VisitedMatrix.setVisited vm0 i y) vm = Ok vm'
      /\ same_tracker_shape vm vm'
      /\ forall x' y',
          in_tracker vm x' y' ->
          VisitedMatrix.isVisited vm' x' y'
          = Ok (((y' =? y) && (lo <=? x') && (x' <=? hi))
                || marked vm x' y')).
  { intros lo hi Hlo Hhi.
    destruct (@for_each_setVisited_cells (fun i => (i, y))
                (range lo (hi + 1)) vm) as (vm' & Hrun & Hshape & Hm).
    { intros i Hi. apply in_range_iff in Hi. split; cbn; lia. }
    exists vm'. split; [exact Hrun|]. split; [exact Hshape|].
    intros x' y' [Hx' Hy'].
    rewrite isVisited_in_tracker
      by (destruct Hshape as [H0 H1]; split; [rewrite H1 | rewrite H0];
          assumption).
    rewrite Hm. f_equal. f_equal. cbn [fst snd].
    apply eq_true_iff_eq. rewrite existsb_range, !andb_true_iff.
    split.
    - intros (i & Hi & Hp). zbool. subst.
      repeat split; try (apply Z.leb_le; lia). apply Z.eqb_refl.
    - intros [[Ey Hlo'] Hhi']. zbool. exists x'. split; [lia|].
      rewrite Z.eqb_refl. cbn. now apply Z.eqb_eq. }
  destruct (x1 >? x2) eqn:E; zbool.
  - rewrite Z.min_r, Z.max_l by lia. apply Hrow; lia.
  - rewrite Z.min_l, Z.max_r by lia. apply Hrow; lia.
Qed.

(** Row 1 of a fresh 4 x 3 tracker, marked from column 3 back to column 1. *)
Lemma setRowVisited_marks_witness :
  let vm := VisitedMatrix.init (mk_ndarray 3 4 (fun _ _ => 0)) in
  exists vm',
    VisitedMatrix.setRowVisited vm 1 3 1 = Ok vm'
    /\ VisitedMatrix.isVisited vm' 2 1 = Ok true
    /\ VisitedMatrix.isVisited vm' 0 1 = Ok false.
Proof.
  intro vm.
  destruct (@setRowVisited_marks vm 1 3 1) as (vm' & Hset & _ & Hget);
    [split; cbn; lia | split; cbn; lia |].
  exists vm'. split; [exact Hset|].
  split; rewrite Hget by (split; cbn; lia); reflexivity.
Defined.

(** X3.  [setColumnVisited(x, y1, y2)] with both end cells on the grid
    marks exactly the cells of column [x] between the two rows, inclusive,
    in whichever order they are given; every other cell answers as
    before. *)
Theorem setColumnVisited_marks (vm : VisitedMatrix.t) (x y1 y2 : Z) :
  in_tracker vm x y1 -> in_tracker vm x y2 ->
  exists vm',
    VisitedMatrix.setColumnVisited vm x y1 y2 = Ok vm'
    /\ same_tracker_shape vm vm'
    /\ forall x' y',
        in_tracker vm x' y' ->
        VisitedMatrix.isVisited vm' x' y'
        = Ok (((x' =? x) && (Z.min y1 y2 <=? y') && (y' <=? Z.max y1 y2))
              || marked vm x' y').
Proof.
  intros [Hx Hy1] [_ Hy2]. unfold VisitedMatrix.setColumnVisited.
  replace (VisitedMatrix.isValidIndice vm x y1) with true
    by (symmetry; apply isValidIndice_spec; lia).
  replace (VisitedMatrix.isValidIndice vm x y2) with true
    by (symmetry; apply isValidIndice_spec; lia).
  cbn [andb negb].
  assert (Hcol : forall lo hi,
    0 <= lo -> hi < shape0 (VisitedMatrix._visited_matrix vm) ->
    exists vm',
      for_each (range lo (hi + 1))
        (fun i vm0 => VisitedMatrix.setVisited vm0 x i) vm = Ok vm'
      /\ same_tracker_shape vm vm'
      /\ forall x' y',
          in_tracker vm x' y' ->
          VisitedMatrix.isVisited vm' x' y'
          = Ok (((x' =? x) && (lo <=? y') && (y' <=? hi))
                || marked vm x' y')).
  { intros lo hi Hlo Hhi.
    destruct (@for_each_setVisited_cells (fun i => (x, i))
                (range lo (hi + 1)) vm) as (vm' & Hrun & Hshape & Hm).
    { intros i Hi. apply in_range_iff in Hi. split; cbn; lia. }
    exists vm'. split; [exact Hrun|]. split; [exact Hshape|].
    intros x' y' [Hx' Hy'].
    rewrite isVisited_in_tracker
      by (destruct Hshape as [H0 H1]; split; [rewrite H1 | rewrite H0];
          assumption).
    rewrite Hm. f_equal. f_equal. cbn [fst snd].
    apply eq_true_iff_eq. rewrite existsb_range, !andb_true_iff.
    split.
    - intros (i & Hi & Hp). zbool. subst.
      repeat split; try (apply Z.leb_le; lia). apply Z.eqb_refl.
    - intros [[Ex Hlo'] Hhi']. zbool. exists y'. split; [lia|].
      rewrite Z.eqb_refl. rewrite andb_true_r. now apply Z.eqb_eq. }
  destruct (y1 >? y2) eqn:E; zbool.
  - rewrite Z.min_r, Z.max_l by lia. apply Hcol; lia.
  - rewrite Z.min_l, Z.max_r by lia. apply Hcol; lia.
Qed.

(** Column 2 of a fresh 4 x 3 tracker, marked from row 0 to row 1. *)
Lemma setColumnVisited_marks_witness :
  let vm := VisitedMatrix.init (mk_ndarray 3 4 (fun _ _ => 0)) in
  exists vm',
    VisitedMatrix.setColumnVisited vm 2 0 1 = Ok vm'
    /\ VisitedMatrix.isVisited vm' 2 1 = Ok true
    /\ VisitedMatrix.isVisited vm' 2 2 = Ok false.
Proof.
  intro vm.
  destruct (@setColumnVisited_marks vm 2 0 1) as (vm' & Hset & _ & Hget);
    [split; cbn; lia | split; cbn; lia |].
  exists vm'. split; [exact Hset|].
  split; rewrite Hget by (split; cbn; lia); reflexivity.
Defined.

Lemma for_each_app {A S : Type} (xs ys : list A) (body : A -> S -> res S)
      (s : S) :
  for_each (xs ++ ys) body s = (s' <- for_each xs body s ;; for_each ys body s').
Proof.
  revert s. induction xs as [|x xs IH]; intros s; cbn [for_each app bind];
    [reflexivity|].
  destruct (body x s); cbn [bind]; auto.
Qed.

Lemma range_from_snoc (n : nat) :
  forall lo, range_from lo (S n) = range_from lo n ++ [lo + Z.of_nat n].
Proof.
  induction n as [|n IH]; intros lo.
  - cbn. now rewrite Z.add_0_r.
  - change (range_from lo (S (S n)))
      with (lo :: range_from (lo + 1) (S n)).
    rewrite IH. cbn [range_from app].
    replace (lo + 1 + Z.of_nat n) with (lo + Z.of_nat (S n)) by lia.
    reflexivity.
Qed.

Lemma range_snoc (lo hi : Z) :
  lo <= hi -> range lo (hi + 1) = range lo hi ++ [hi].
Proof.
  intros Hle. unfold range.
  replace (Z.to_nat (hi + 1 - lo)) with (S (Z.to_nat (hi - lo))) by lia.
  rewrite range_from_snoc. do 2 f_equal. lia.
Qed.

(** X4.  The failures of [setRowVisited(y, x1, x2)].  When an end cell
    fails the index check the call raises [ValueError("Invalid indices")].
    When both pass it but one of them lies on the row [H] or the column [W]
    that the check admits beyond the grid, the call raises the [IndexError]
    of the array. *)
Theorem setRowVisited_failures (vm : VisitedMatrix.t) (y x1 x2 : Z) :
  let W := shape1 (VisitedMatrix._visited_matrix vm) in
  let H := shape0 (VisitedMatrix._visited_matrix vm) in
  (VisitedMatrix.isValidIndice vm x1 y = false
   \/ VisitedMatrix.isValidIndice vm x2 y = false ->
   VisitedMatrix.setRowVisited vm y x1 x2 = Raise (ValueError "Invalid indices"))
  /\ (0 <= x1 <= W -> 0 <= x2 <= W -> 0 <= y <= H ->
      y = H \/ x1 = W \/ x2 = W ->
      VisitedMatrix.setRowVisited vm y x1 x2 = Raise IndexError).
Proof.
  intros W H. split.
  - intros Hbad. unfold VisitedMatrix.setRowVisited.
    replace (VisitedMatrix.isValidIndice vm x1 y
             && VisitedMatrix.isValidIndice vm x2 y) with false;
      [reflexivity|].
    symmetry. apply andb_false_iff. exact Hbad.
  - intros Hx1 Hx2 Hy Hedge. unfold VisitedMatrix.setRowVisited.
    replace (VisitedMatrix.isValidIndice vm x1 y) with true
      by (symmetry; apply isValidIndice_spec; unfold W, H in *; lia).
    replace (VisitedMatrix.isValidIndice vm x2 y) with true
      by (symmetry; apply isValidIndice_spec; unfold W, H in *; lia).
    cbn [andb negb].
    assert (Hfail : forall lo hi,
      0 <= lo <= hi -> hi <= W -> y = H \/ hi = W ->
      for_each (range lo (hi + 1))
        (fun i vm0 => VisitedMatrix.setVisited vm0 i y) vm
      = Raise IndexError).
    { intros lo hi Hlo Hhi Hcase.
      assert (Hcell : forall vm0 i,
        same_tracker_shape vm vm0 -> 0 <= i <= W ->
        y = H \/ i = W ->
        VisitedMatrix.setVisited vm0 i y = Raise IndexError).
      { intros vm0 i [H0 H1] Hi Hc. unfold VisitedMatrix.setVisited.
        replace (VisitedMatrix.isValidIndice vm0 i y) with true
          by (symmetry; apply isValidIndice_spec; unfold W, H in *; lia).
        cbn [negb]. unfold setitem.
        destruct Hc as [-> | ->].
        - rewrite (@axis_index_beyond _ H) by (unfold W, H in *; lia).
          reflexivity.
        - rewrite (@axis_index_beyond _ W) by (unfold W, H in *; lia).
          now destruct (axis_index _ y). }
      destruct (Z.eq_dec y H) as [Hrow | Hne].
      - (* on row H the first cell already fails *)
        unfold range.
        replace (Z.to_nat (hi + 1 - lo)) with (S (Z.to_nat (hi - lo)))
          by lia.
        cbn [range_from for_each].
        rewrite Hcell; [reflexivity | split; reflexivity | lia | now left].
      - (* on a row of the grid the cells before column W are marked *)
        destruct Hcase as [Hrow | ->]; [contradiction|].
        rewrite range_snoc by lia. rewrite for_each_app.
        destruct (@for_each_setVisited_cells (fun i => (i, y)) (range lo W)
                    vm) as (vm1 & Hrun & Hshape & _).
        { intros i Hi. apply in_range_iff in Hi.
          split; cbn; unfold W, H in *; lia. }
        cbn [fst snd] in Hrun. rewrite Hrun. cbn [bind for_each].
        rewrite Hcell; [reflexivity | exact Hshape | lia | now right]. }
    destruct (x1 >? x2) eqn:E; zbool;
      apply Hfail; lia.
Qed.

(** A 4 x 3 tracker: marking row 1 up to the admitted column 4 fails in the
    array, marking it up to column 5 fails in the check. *)
Lemma setRowVisited_failures_witness :
  let vm := VisitedMatrix.init (mk_ndarray 3 4 (fun _ _ => 0)) in
  VisitedMatrix.setRowVisited vm 1 0 5 = Raise (ValueError "Invalid indices")
  /\ VisitedMatrix.setRowVisited vm 1 0 4 = Raise IndexError.
Proof.
  intro vm. split.
  - apply (proj1 (@setRowVisited_failures vm 1 0 5)). now right.
  - apply (proj2 (@setRowVisited_failures vm 1 0 4)); cbn; lia.
Defined.

(* ------------------------------------------------------------------ *)
(** ** What the handlers keep *)

(** Every mark of [vm] is a mark of [vm'], and the shape is the same. *)
Definition marks_kept (vm vm' : VisitedMatrix.t) : Prop :=
  same_tracker_shape vm vm'
  /\ forall x y, marked vm x y = true -> marked vm' x y = true.

Lemma marks_kept_refl (vm : VisitedMatrix.t) : marks_kept vm vm.
Proof. split; [split; reflexivity | auto]. Qed.

Lemma marks_kept_trans (vm1 vm2 vm3 : VisitedMatrix.t) :
  marks_kept vm1 vm2 -> marks_kept vm2 vm3 -> marks_kept vm1 vm3.
Proof.
  intros [[H0 H1] Hm] [[H0' H1'] Hm']. split; [split; congruence | auto].
Qed.

Lemma setVisited_marks_kept (vm vm' : VisitedMatrix.t) (x y : Z) :
  VisitedMatrix.setVisited vm x y = Ok vm' -> marks_kept vm vm'.
Proof.
  unfold VisitedMatrix.setVisited, setitem. intros Hset.
  destruct (negb (VisitedMatrix.isValidIndice vm x y)); [discriminate|].
  destruct (axis_index (shape0 (VisitedMatrix._visited_matrix vm)) y)
    as [i|]; [|discriminate].
  destruct (axis_index (shape1 (VisitedMatrix._visited_matrix vm)) x)
    as [j|]; [|discriminate].
  injection Hset as <-. split; [split; reflexivity|].
  intros x' y'. unfold marked. cbn.
  destruct ((y' =? i) && (x' =? j)); auto.
Qed.

Lemma for_each_marks_kept {A : Type} (xs : list A)
      (body : A -> VisitedMatrix.t -> res VisitedMatrix.t) :
  (forall x vm vm', body x vm = Ok vm' -> marks_kept vm vm') ->
  forall vm vm', for_each xs body vm = Ok vm' -> marks_kept vm vm'.
Proof.
  intros Hbody. induction xs as [|x xs IH]; intros vm vm' Hrun;
    cbn [for_each] in Hrun.
  - injection Hrun as <-. apply marks_kept_refl.
  - bind_inv Hrun. eapply marks_kept_trans; eauto.
Qed.

Lemma setRowVisited_marks_kept (vm vm' : VisitedMatrix.t) (y x1 x2 : Z) :
  VisitedMatrix.setRowVisited vm y x1 x2 = Ok vm' -> marks_kept vm vm'.
Proof.
  unfold VisitedMatrix.setRowVisited. destruct (negb _); [discriminate|].
  destruct (x1 >? x2); apply for_each_marks_kept;
    intros i vm0 vm0'; apply setVisited_marks_kept.
Qed.

Lemma setColumnVisited_marks_kept (vm vm' : VisitedMatrix.t) (x y1 y2 : Z) :
  VisitedMatrix.setColumnVisited vm x y1 y2 = Ok vm' -> marks_kept vm vm'.
Proof.
  unfold VisitedMatrix.setColumnVisited. destruct (negb _); [discriminate|].
  destruct (y1 >? y2); apply for_each_marks_kept;
    intros i vm0 vm0'; apply setVisited_marks_kept.
Qed.

(** A relation that every iteration satisfies, and that composes, relates
    the locals before and after a [while moreSeg] loop. *)
Lemma while_moreSeg_relates (R : locals -> locals -> Prop)
      (body : locals -> res locals) :
  (forall st, R st st) ->
  (forall st1 st2 st3, R st1 st2 -> R st2 st3 -> R st1 st3) ->
  (forall st st', body st = Ok st' -> R st st') ->
  forall (fuel : nat) (st st' : locals),
    while_moreSeg fuel body st = Ok st' -> R st st'.
Proof.
  intros Hrefl Htrans Hbody. induction fuel as [|fuel IH]; intros st st' Hrun;
    cbn [while_moreSeg] in Hrun; destruct (moreSeg st); try discriminate;
    try (injection Hrun as <-; apply Hrefl).
  bind_inv Hrun. eapply Htrans; eauto.
Qed.

Section HandlersKeep.

Variable img : image.
Variable isLineColor : Z -> bool.

Lemma extension_body_marks_kept (o : octant) (length max_length : Z)
      (st st' : locals) :
  extension_body img isLineColor o length max_length st = Ok st' ->
  marks_kept (visited_matrix st) (visited_matrix st').
Proof.
  intros Hbody.
  destruct o; cbn [extension_body] in Hbody;
    unfold handleFourthOctant_body, handleSeventhOctant_body,
      handleFifthAndSixthOctant_body in Hbody;
    bind_inv Hbody; bind_inv Hbody;
    repeat match type of Hbody with
           | (let '_ := ?x in _) = _ => destruct x
           | match ?x with _ => _ end = _ => destruct x
           end;
    try discriminate;
    try (injection Hbody as <-; apply marks_kept_refl);
    bind_inv Hbody; injection Hbody as <-; cbn [visited_matrix];
    eauto using setRowVisited_marks_kept, setColumnVisited_marks_kept.
Qed.

Lemma while_moreSeg_marks_kept (o : octant) (length max_length : Z)
      (fuel : nat) (st st' : locals) :
  while_moreSeg fuel (extension_body img isLineColor o length max_length) st
  = Ok st' ->
  marks_kept (visited_matrix st) (visited_matrix st').
Proof.
  apply (@while_moreSeg_relates
           (fun st st' => marks_kept (visited_matrix st) (visited_matrix st'))).
  - intros; apply marks_kept_refl.
  - intros; eapply marks_kept_trans; eauto.
  - intros; eapply extension_body_marks_kept; eauto.
Qed.

(** X5.  The tracker only grows while a segment is traced: whatever
    [handleFourthAndSeventhOctant] or [handleFifthAndSixthOctant] returns,
    the tracker it leaves has the shape of the one it received and every
    pixel that was marked visited still is. *)
Theorem handlers_keep_marks (seg seg' : LineSegment.t)
        (vm vm' : VisitedMatrix.t) :
  handleFourthAndSeventhOctant img isLineColor seg vm = Ok (seg', vm')
  \/ handleFifthAndSixthOctant img isLineColor seg vm = Ok (seg', vm') ->
  marks_kept vm vm'.
Proof.
  intros [Hrun | Hrun].
  - unfold handleFourthAndSeventhOctant in Hrun.
    bind_inv Hrun. destruct a as [x_end y_end]. bind_inv Hrun.
    apply setRowVisited_marks_kept in Hrun1.
    bind_inv Hrun. destruct a0.
    + unfold handleSeventhOctant in Hrun. bind_inv Hrun.
      injection Hrun as <- <-.
      apply (@while_moreSeg_marks_kept Seventh) in Hrun3.
      eapply marks_kept_trans; eauto.
    + bind_inv Hrun. destruct a0.
      * unfold handleFourthOctant in Hrun. bind_inv Hrun.
        injection Hrun as <- <-.
        apply (@while_moreSeg_marks_kept Fourth) in Hrun4.
        eapply marks_kept_trans; eauto.
      * injection Hrun as <- <-. exact Hrun1.
  - unfold handleFifthAndSixthOctant in Hrun.
    bind_inv Hrun. bind_inv Hrun. injection Hrun as <- <-.
    apply (@while_moreSeg_marks_kept FifthAndSixth) in Hrun1.
    unfold handleFifthAndSixthOctant_init in Hrun0.
    bind_inv Hrun0. destruct a1 as [x_end y_end]. bind_inv Hrun0.
    injection Hrun0 as <-. apply setColumnVisited_marks_kept in Hrun2.
    eapply marks_kept_trans; eauto.
Qed.

End HandlersKeep.

(** A two-pixel run traced on a tracker whose cell (3,1) is already
    marked: the mark is still there afterwards. *)
Lemma handlers_keep_marks_witness :
  let img := array_of_rows [[1; 1; 0; 0]; [0; 0; 0; 0]] in
  exists vm0 seg' vm',
    VisitedMatrix.setVisited (VisitedMatrix.init img) 3 1 = Ok vm0
    /\ handleFourthAndSeventhOctant img (Z.eqb 1)
         (LineSegment.mk 0 0 0 0 false) vm0 = Ok (seg', vm')
    /\ marked vm' 3 1 = true.
Proof.
  intro img.
  assert (Hset : exists vm0,
             VisitedMatrix.setVisited (VisitedMatrix.init img) 3 1 = Ok vm0
             /\ marked vm0 3 1 = true)
    by (eexists; split; reflexivity).
  destruct Hset as (vm0 & Hset & Hmark).
  assert (Hrun : exists r,
             handleFourthAndSeventhOctant img (Z.eqb 1)
               (LineSegment.mk 0 0 0 0 false) vm0 = Ok r).
  { vm_compute in Hset. injection Hset as <-. eexists.
    vm_compute. reflexivity. }
  destruct Hrun as ([seg' vm'] & Hrun).
  exists vm0, seg', vm'. split; [exact Hset|]. split; [exact Hrun|].
  destruct (@handlers_keep_marks img (Z.eqb 1) _ seg' vm0 vm'
              (or_introl Hrun)) as [_ Hkept].
  apply Hkept. exact Hmark.
Defined.

(** The loop handler of an octant. *)
Definition loop_handler (o : octant) (img : image) (isLineColor : Z -> bool)
  : LineSegment.t -> VisitedMatrix.t -> res (LineSegment.t * VisitedMatrix.t) :=
  match o with
  | Fourth => handleFourthOctant img isLineColor
  | Seventh => handleSeventhOctant img isLineColor
  | FifthAndSixth => handleFifthAndSixthOctant img isLineColor
  end.

(** What a loop iteration leaves of a segment: the flag, and the endpoint
    that the octant does not extend; the other endpoint moves down, and
    outwards in the shallow octants. *)
Definition extended (o : octant) (seg seg' : LineSegment.t) : Prop :=
  LineSegment._vertical seg' = LineSegment._vertical seg
  /\ match o with
     | Fourth =>
         LineSegment.x_end seg' = LineSegment.x_end seg
         /\ LineSegment.y_end seg' = LineSegment.y_end seg
         /\ LineSegment.y_start seg <= LineSegment.y_start seg'
         /\ LineSegment.x_start seg' <= LineSegment.x_start seg
     | Seventh =>
         LineSegment.x_start seg' = LineSegment.x_start seg
         /\ LineSegment.y_start seg' = LineSegment.y_start seg
         /\ LineSegment.y_end seg <= LineSegment.y_end seg'
         /\ LineSegment.x_end seg <= LineSegment.x_end seg'
     | FifthAndSixth =>
         LineSegment.x_start seg' = LineSegment.x_start seg
         /\ LineSegment.y_start seg' = LineSegment.y_start seg
         /\ LineSegment.y_end seg <= LineSegment.y_end seg'
     end.

Lemma extended_refl (o : octant) (seg : LineSegment.t) : extended o seg seg.
Proof. destruct o; cbn; repeat split; try reflexivity; lia. Qed.

Lemma extended_trans (o : octant) (seg1 seg2 seg3 : LineSegment.t) :
  extended o seg1 seg2 -> extended o seg2 seg3 -> extended o seg1 seg3.
Proof.
  unfold extended. destruct o; intros [Hv H12] [Hv' H23];
    (split; [congruence|]); repeat split; try congruence; lia.
Qed.

Lemma while_moreSeg_stopped (fuel : nat) (body : locals -> res locals)
      (st : locals) :
  moreSeg st = false -> while_moreSeg fuel body st = Ok st.
Proof. intros Hmore. destruct fuel; cbn [while_moreSeg]; now rewrite Hmore. Qed.

(** Reduces the projections of segments given by their fields. *)
Ltac seg_simpl :=
  cbn [LineSegment.x_start LineSegment.y_start LineSegment.x_end
       LineSegment.y_end LineSegment._vertical
       LineSegment.setStartCoordinate LineSegment.setEndCoordinate
       LineSegment.setVertical LineSegment.swapStartEnd] in *.

Section HandlersExtend.

Variable img : image.
Variable isLineColor : Z -> bool.

Lemma extension_body_extended (o : octant) (length : Z) (st st' : locals) :
  1 <= length ->
  locals_inv o st ->
  extension_body img isLineColor o length (2 * length) st = Ok st' ->
  extended o (lineSegment st) (lineSegment st').
Proof.
  intros Hlen Hinv Hbody.
  destruct st as [seg vm xt found more].
  unfold locals_inv in Hinv. cbn [lineSegment run_end] in Hinv.
  destruct o; cbn [extension_body] in Hbody;
    unfold handleFourthOctant_body, handleSeventhOctant_body,
      handleFifthAndSixthOctant_body in Hbody;
    cbn [lineSegment run_end moreSeg visited_matrix x_temp] in Hbody |- *.
  - (* Fourth *)
    bind_inv Hbody. destruct a as [|].
    + bind_inv Hbody. bind_inv Hrun0. injection Hrun0 as <-.
      destruct a0 as [x_end y_end]. cbn [fst snd] in Hbody.
      match type of Hbody with
      | (if ?c then _ else _) = _ => destruct c eqn:Ewin
      end.
      * bind_inv Hbody. injection Hbody as <-. cbn [lineSegment]. zbool.
        unfold findHorizontalNegativeSegment in Hrun1. bind_inv Hrun1.
        injection Hrun1 as <- <-. unfold extended. destruct seg. seg_simpl.
        repeat split; try reflexivity; lia.
      * injection Hbody as <-. apply extended_refl.
    + cbn [bind] in Hbody. destruct found as [[x_end y_end]|];
        [|discriminate]. subst x_end.
      match type of Hbody with
      | (if ?c then _ else _) = _ => destruct c eqn:Ewin
      end; [zbool; lia|].
      injection Hbody as <-. apply extended_refl.
  - (* Seventh *)
    bind_inv Hbody. destruct a as [|].
    + bind_inv Hbody. bind_inv Hrun0. injection Hrun0 as <-.
      destruct a0 as [x_end y_end]. cbn [fst snd] in Hbody.
      match type of Hbody with
      | (if ?c then _ else _) = _ => destruct c eqn:Ewin
      end.
      * bind_inv Hbody. injection Hbody as <-. cbn [lineSegment]. zbool.
        unfold findHorizontalPositiveSegment in Hrun1. bind_inv Hrun1.
        injection Hrun1 as <- <-. unfold extended. destruct seg. seg_simpl.
        repeat split; try reflexivity; lia.
      * injection Hbody as <-. apply extended_refl.
    + cbn [bind] in Hbody. destruct found as [[x_end y_end]|];
        [|discriminate]. subst x_end.
      match type of Hbody with
      | (if ?c then _ else _) = _ => destruct c eqn:Ewin
      end; [zbool; lia|].
      injection Hbody as <-. apply extended_refl.
  - (* FifthAndSixth *)
    bind_inv Hbody. bind_inv Hbody. destruct a0 as [[xt' found'] more'].
    destruct found' as [[x_end y_end]|]; [|discriminate].
    match type of Hbody with
    | (if ?c then _ else _) = _ => destruct c eqn:Ewin
    end.
    + bind_inv Hbody. injection Hbody as <-. cbn [lineSegment]. zbool.
      unfold extended. destruct seg. seg_simpl.
      repeat split; try reflexivity; lia.
    + injection Hbody as <-. apply extended_refl.
Qed.

Lemma while_moreSeg_extended (o : octant) (length : Z) (fuel : nat) :
  1 <= length ->
  forall st st',
    locals_inv o st ->
    while_moreSeg fuel (extension_body img isLineColor o length (2 * length))
      st = Ok st' ->
    extended o (lineSegment st) (lineSegment st').
Proof.
  intros Hlen. induction fuel as [|fuel IH]; intros st st' Hinv Hrun;
    cbn [while_moreSeg] in Hrun; destruct (moreSeg st); try discriminate;
    try (injection Hrun as <-; apply extended_refl).
  bind_inv Hrun.
  pose proof (extension_body_extended o st Hlen Hinv Hrun0) as Hstep.
  destruct (moreSeg a) eqn:Hmore.
  - eapply extended_trans; [exact Hstep|]. apply IH; [|exact Hrun].
    eapply locals_inv_preserved; eauto.
  - rewrite while_moreSeg_stopped in Hrun by assumption.
    injection Hrun as <-. exact Hstep.
Qed.

(** X6.  A handler extends a segment at one endpoint only.
    [handleSeventhOctant] leaves the start where it is and moves the end
    down and to the right; [handleFourthOctant] leaves the end where it is
    and moves the start down and to the left; [handleFifthAndSixthOctant]
    leaves the start where it is; none of them changes the vertical
    flag. *)
Theorem loop_handler_extends (o : octant) (seg seg' : LineSegment.t)
        (vm vm' : VisitedMatrix.t) :
  loop_handler o img isLineColor seg vm = Ok (seg', vm') ->
  LineSegment._vertical seg' = LineSegment._vertical seg
  /\ match o with
     | Fourth =>
         LineSegment.x_end seg' = LineSegment.x_end seg
         /\ LineSegment.y_end seg' = LineSegment.y_end seg
         /\ LineSegment.y_start seg <= LineSegment.y_start seg'
         /\ LineSegment.x_start seg' <= LineSegment.x_start seg
     | Seventh =>
         LineSegment.x_start seg' = LineSegment.x_start seg
         /\ LineSegment.y_start seg' = LineSegment.y_start seg
         /\ LineSegment.y_end seg <= LineSegment.y_end seg'
         /\ LineSegment.x_end seg <= LineSegment.x_end seg'
     | FifthAndSixth =>
         LineSegment.x_start seg' = LineSegment.x_start seg
         /\ LineSegment.y_start seg' = LineSegment.y_start seg
     end.
Proof.
  intros Hrun. destruct o; cbn [loop_handler] in Hrun.
  - unfold handleFourthOctant in Hrun. bind_inv Hrun.
    injection Hrun as <- <-.
    apply (@while_moreSeg_extended Fourth) in Hrun0;
      [exact Hrun0 | apply (reference_length_pos Fourth) | exact I].
  - unfold handleSeventhOctant in Hrun. bind_inv Hrun.
    injection Hrun as <- <-.
    apply (@while_moreSeg_extended Seventh) in Hrun0;
      [exact Hrun0 | apply (reference_length_pos Seventh) | exact I].
  - unfold handleFifthAndSixthOctant in Hrun. bind_inv Hrun. bind_inv Hrun.
    injection Hrun as <- <-.
    destruct (locals_inv_steep_entry img isLineColor seg vm Hrun0)
      as [Hinv _].
    apply (@while_moreSeg_extended FifthAndSixth) in Hrun1;
      [| apply (reference_length_pos FifthAndSixth) | exact Hinv].
    unfold handleFifthAndSixthOctant_init in Hrun0.
    bind_inv Hrun0. destruct a1 as [x_end y_end]. bind_inv Hrun0.
    injection Hrun0 as <-. cbn [lineSegment] in Hrun1.
    destruct Hrun1 as (Hv & Hx & Hy & _). destruct seg. seg_simpl.
    repeat split; congruence.
Qed.

End HandlersExtend.

(** The staircase of the fourth octant: the run (3,0)-(4,0) is extended by
    the run (1,1)-(2,1); the start moves to (1,1), the end stays. *)
Lemma loop_handler_extends_witness :
  let img := array_of_rows [[0; 0; 0; 1; 1]; [0; 1; 1; 0; 0]] in
  exists seg' vm',
    handleFourthOctant img (Z.eqb 1) (LineSegment.mk 3 0 4 0 false)
      (VisitedMatrix.init img) = Ok (seg', vm')
    /\ seg' = LineSegment.mk 1 1 4 0 false
    /\ LineSegment.x_end seg' = 4 /\ LineSegment.y_end seg' = 0.
Proof.
  intro img.
  assert (Hrun : exists seg' vm',
             handleFourthOctant img (Z.eqb 1) (LineSegment.mk 3 0 4 0 false)
               (VisitedMatrix.init img) = Ok (seg', vm')
             /\ seg' = LineSegment.mk 1 1 4 0 false).
  { eexists. eexists. split; [vm_compute; reflexivity | reflexivity]. }
  destruct Hrun as (seg' & vm' & Hrun & Hseg).
  exists seg', vm'. split; [exact Hrun|]. split; [exact Hseg|].
  destruct (@loop_handler_extends img (Z.eqb 1) Fourth _ seg' _ vm' Hrun)
    as (_ & Hx & Hy & _).
  split; assumption.
Defined.

(* ------------------------------------------------------------------ *)
(** ** The horizontal run finders *)

Section FindHorizontal.

Variable img : image.
Variable isLineColor : Z -> bool.
Variable y : Z.
Hypothesis Hy : 0 <= y < shape0 img.

Lemma findHorizontalPositiveSegment_while_spec (fuel : nat) (l : Z) :
  0 <= l -> shape1 img - l <= Z.of_nat fuel ->
  exists l',
    findHorizontalPositiveSegment_while fuel img l y isLineColor = Ok l'
    /\ l <= l' /\ (l <= shape1 img -> l' <= shape1 img)
    /\ (forall c, l <= c < l' -> isLineColor (item img y c) = true)
    /\ (l' < shape1 img -> isLineColor (item img y l') = false).
Proof.
  revert l. induction fuel as [|fuel IH]; intros l Hl Hfuel.
  - exists l. cbn. destruct (l <? shape1 img) eqn:E; zbool; [lia|].
    repeat split; intros; lia.
  - cbn [findHorizontalPositiveSegment_while].
    destruct (l <? shape1 img) eqn:E; zbool.
    + rewrite getitem_in_range by lia. cbn [bind].
      destruct (isLineColor (item img y l)) eqn:Ecol.
      * destruct (IH (l + 1)) as (l' & Hrun & Hle & Hin & Hall & Hstop);
          [lia | lia |].
        exists l'. split; [exact Hrun|].
        split; [lia|]. split; [lia|]. split; [|exact Hstop].
        intros c Hc. destruct (Z.eq_dec c l) as [-> | Hne]; auto.
        apply Hall. lia.
      * exists l. split; [reflexivity|].
        split; [lia|]. split; [lia|]. split; [intros; lia | auto].
    + exists l. repeat split; intros; lia.
Qed.

Lemma findHorizontalNegativeSegment_while_spec (fuel : nat) (l : Z) :
  l < shape1 img -> l + 1 <= Z.of_nat fuel ->
  exists l',
    findHorizontalNegativeSegment_while fuel img l y isLineColor = Ok l'
    /\ l' <= l /\ (-1 <= l -> -1 <= l')
    /\ (forall c, l' < c <= l -> isLineColor (item img y c) = true)
    /\ (0 <= l' -> isLineColor (item img y l') = false).
Proof.
  revert l. induction fuel as [|fuel IH]; intros l Hl Hfuel.
  - exists l. cbn. destruct (l >=? 0) eqn:E; zbool; [lia|].
    repeat split; intros; lia.
  - cbn [findHorizontalNegativeSegment_while].
    destruct (l >=? 0) eqn:E; zbool.
    + rewrite getitem_in_range by lia. cbn [bind].
      destruct (isLineColor (item img y l)) eqn:Ecol.
      * destruct (IH (l - 1)) as (l' & Hrun & Hle & Hin & Hall & Hstop);
          [lia | lia |].
        exists l'. split; [exact Hrun|].
        split; [lia|]. split; [lia|]. split; [|exact Hstop].
        intros c Hc. destruct (Z.eq_dec c l) as [-> | Hne]; auto.
        apply Hall. lia.
      * exists l. split; [reflexivity|].
        split; [lia|]. split; [lia|]. split; [intros; lia | auto].
    + exists l. repeat split; intros; lia.
Qed.

(** X7.  For a seed [(x, y)] on the image, [findHorizontalPositiveSegment]
    returns [(x', y)], on the seed's row, where columns [x .. x'] are the
    contiguous run of line-coloured pixels that starts at the seed and goes
    right: all of them are line-coloured, and the pixel after [x'] is off
    the image or is not.  The run is empty, [x' = x - 1], exactly when the
    seed itself is not line-coloured. *)
Theorem findHorizontalPositiveSegment_run (x : Z) :
  0 <= x < shape1 img ->
  exists x',
    findHorizontalPositiveSegment img x y isLineColor = Ok (x', y)
    /\ x - 1 <= x' < shape1 img
    /\ (forall c, x <= c <= x' -> isLineColor (item img y c) = true)
    /\ (x' + 1 < shape1 img -> isLineColor (item img y (x' + 1)) = false)
    /\ (isLineColor (item img y x) = true <-> x <= x').
Proof.
  intros Hx. unfold findHorizontalPositiveSegment.
  destruct (@findHorizontalPositiveSegment_while_spec
              (Z.to_nat (shape1 img - x)) x)
    as (l' & Hrun & Hle & Hin & Hall & Hstop); [lia | lia |].
  exists (l' - 1). rewrite Hrun. cbn [bind].
  split; [reflexivity|]. split; [lia|].
  split; [intros c Hc; apply Hall; lia|].
  split.
  - intros Hlt. replace (l' - 1 + 1) with l' by lia. apply Hstop. lia.
  - split.
    + intros Hseed. destruct (Z.eq_dec l' x) as [-> | Hne]; [|lia].
      rewrite Hstop in Hseed by lia. discriminate.
    + intros Hrun'. apply Hall. lia.
Qed.

(** X8.  For a seed [(x, y)] on the image, [findHorizontalNegativeSegment]
    returns [(x', y)], on the seed's row, where columns [x' .. x] are the
    contiguous run of line-coloured pixels that starts at the seed and goes
    left: all of them are line-coloured, and the pixel before [x'] is off
    the image or is not.  The run is empty, [x' = x + 1], exactly when the
    seed itself is not line-coloured. *)
Theorem findHorizontalNegativeSegment_run (x : Z) :
  0 <= x < shape1 img ->
  exists x',
    findHorizontalNegativeSegment img x y isLineColor = Ok (x', y)
    /\ 0 <= x' <= x + 1
    /\ (forall c, x' <= c <= x -> isLineColor (item img y c) = true)
    /\ (0 <= x' - 1 -> isLineColor (item img y (x' - 1)) = false)
    /\ (isLineColor (item img y x) = true <-> x' <= x).
Proof.
  intros Hx. unfold findHorizontalNegativeSegment.
  destruct (@findHorizontalNegativeSegment_while_spec (Z.to_nat (x + 1)) x)
    as (l' & Hrun & Hle & Hin & Hall & Hstop); [lia | lia |].
  exists (l' + 1). rewrite Hrun. cbn [bind].
  split; [reflexivity|]. split; [lia|].
  split; [intros c Hc; apply Hall; lia|].
  split.
  - intros Hge. replace (l' + 1 - 1) with l' in * by lia. apply Hstop. lia.
  - split.
    + intros Hseed. destruct (Z.eq_dec l' x) as [-> | Hne]; [|lia].
      rewrite Hstop in Hseed by lia. discriminate.
    + intros Hrun'. apply Hall. lia.
Qed.

End FindHorizontal.

(** The row [0 1 1 1 0], seeded at column 1 going right and at column 3
    going left: the run is columns 1 to 3. *)
Lemma findHorizontalPositiveSegment_run_witness :
  let img := array_of_rows [[0; 1; 1; 1; 0]] in
  exists x',
    findHorizontalPositiveSegment img 1 0 (Z.eqb 1) = Ok (x', 0) /\ 1 <= x'.
Proof.
  intro img.
  destruct (@findHorizontalPositiveSegment_run img (Z.eqb 1) 0) with (x := 1)
    as (x' & Hrun & _ & _ & _ & Hseed); [cbn; lia | cbn; lia |].
  exists x'. split; [exact Hrun | apply Hseed; reflexivity].
Defined.

Lemma findHorizontalNegativeSegment_run_witness :
  let img := array_of_rows [[0; 1; 1; 1; 0]] in
  exists x',
    findHorizontalNegativeSegment img 3 0 (Z.eqb 1) = Ok (x', 0) /\ x' <= 3.
Proof.
  intro img.
  destruct (@findHorizontalNegativeSegment_run img (Z.eqb 1) 0) with (x := 3)
    as (x' & Hrun & _ & _ & _ & Hseed); [cbn; lia | cbn; lia |].
  exists x'. split; [exact Hrun | apply Hseed; reflexivity].
Defined.

(* ================================================================== *)
(** * Further properties of the post-processing code *)

(* ------------------------------------------------------------------ *)
(** ** Neighbourhoods and adjacency *)

Lemma range_from_length (n : nat) (lo : Z) :
  List.length (range_from lo n) = n.
Proof. revert lo. induction n; intros lo; cbn; auto. Qed.

Lemma getAdjacentCoordinates_In (x y delta i j : Z) :
  In (i, j) (getAdjacentCoordinates x y delta)
  <-> x - delta <= i <= x + delta /\ y - delta <= j <= y + delta.
Proof.
  unfold getAdjacentCoordinates. rewrite in_flat_map. split.
  - intros (i' & Hi' & Hin). apply in_map_iff in Hin.
    destruct Hin as (j' & [= -> ->] & Hj').
    apply in_range_iff in Hi', Hj'. lia.
  - intros [Hi Hj]. exists i. split; [apply in_range_iff; lia|].
    apply in_map_iff. exists j. split; [reflexivity|].
    apply in_range_iff. lia.
Qed.

Lemma isAdjacentPoint_iff (x_1 y_1 x_2 y_2 delta : Z) :
  isAdjacentPoint x_1 y_1 x_2 y_2 delta = true
  <-> Z.abs (x_2 - x_1) <= delta /\ Z.abs (y_2 - y_1) <= delta.
Proof.
  unfold isAdjacentPoint. rewrite existsb_exists. split.
  - intros ([i j] & Hin & Heq). cbn [fst snd] in Heq. zbool. subst.
    apply getAdjacentCoordinates_In in Hin. lia.
  - intros [Hx Hy]. exists (x_2, y_2). split.
    + apply getAdjacentCoordinates_In. lia.
    + cbn [fst snd]. now rewrite !Z.eqb_refl.
Qed.

(** X9.  [getAdjacentCoordinates(x, y, delta)] lists the points of the
    square of side [2 * delta + 1] centred on [(x, y)]: a point is in the
    list exactly when each of its coordinates is within [delta] of the
    centre's, and for [delta >= 0] the list has [(2 * delta + 1)^2]
    entries; for a negative [delta] it is empty. *)
Theorem getAdjacentCoordinates_square (x y delta : Z) :
  (forall i j,
      In (i, j) (getAdjacentCoordinates x y delta)
      <-> Z.abs (i - x) <= delta /\ Z.abs (j - y) <= delta)
  /\ (0 <= delta ->
      Z.of_nat (List.length (getAdjacentCoordinates x y delta))
      = (2 * delta + 1) ^ 2)
  /\ (delta < 0 -> getAdjacentCoordinates x y delta = []).
Proof.
  split; [|split].
  - intros i j. rewrite getAdjacentCoordinates_In. lia.
  - intros Hdelta. unfold getAdjacentCoordinates.
    rewrite (@flat_map_constant_length _ _ (Z.to_nat (2 * delta + 1))).
    + unfold range. rewrite range_from_length. nia.
    + intros i _. rewrite length_map. unfold range.
      rewrite range_from_length. f_equal. lia.
  - intros Hdelta. unfold getAdjacentCoordinates, range.
    replace (Z.to_nat (x + delta + 1 - (x - delta))) with O by lia.
    reflexivity.
Qed.

Lemma getAdjacentCoordinates_square_witness :
  List.length (getAdjacentCoordinates 5 7 1) = 9%nat
  /\ getAdjacentCoordinates 5 7 (-1) = [].
Proof.
  destruct (getAdjacentCoordinates_square 5 7 1) as (_ & Hlen & _).
  destruct (getAdjacentCoordinates_square 5 7 (-1)) as (_ & _ & Hempty).
  split; [|apply Hempty; lia].
  apply Nat2Z.inj. rewrite Hlen by lia. reflexivity.
Defined.

(** X10.  [isAdjacentPoint] is the test of the Chebyshev distance: it
    returns [True] exactly when both coordinates of the second point are
    within [delta] of the first point's.  It is therefore symmetric in the
    two points, true of a point and itself for [delta >= 0], and never true
    for a negative [delta]. *)
Theorem isAdjacentPoint_chebyshev (x_1 y_1 x_2 y_2 delta : Z) :
  (isAdjacentPoint x_1 y_1 x_2 y_2 delta = true
   <-> Z.max (Z.abs (x_2 - x_1)) (Z.abs (y_2 - y_1)) <= delta)
  /\ isAdjacentPoint x_1 y_1 x_2 y_2 delta
     = isAdjacentPoint x_2 y_2 x_1 y_1 delta
  /\ (delta < 0 -> isAdjacentPoint x_1 y_1 x_2 y_2 delta = false).
Proof.
  split; [|split].
  - rewrite isAdjacentPoint_iff. lia.
  - apply eq_true_iff_eq. rewrite !isAdjacentPoint_iff. lia.
  - intros Hdelta.
    destruct (isAdjacentPoint x_1 y_1 x_2 y_2 delta) eqn:E; [|reflexivity].
    apply isAdjacentPoint_iff in E. lia.
Qed.

Lemma isAdjacentPoint_sym (x_1 y_1 x_2 y_2 delta : Z) :
  isAdjacentPoint x_1 y_1 x_2 y_2 delta = isAdjacentPoint x_2 y_2 x_1 y_1 delta.
Proof. apply eq_true_iff_eq. rewrite !isAdjacentPoint_iff. lia. Qed.

Lemma isAdjacent_sym (line_1 line_2 : LineSegment.t) (delta : Z) :
  isAdjacent line_1 line_2 delta = isAdjacent line_2 line_1 delta.
Proof.
  unfold isAdjacent, isAdjacentToStart, isAdjacentToEnd.
  rewrite (isAdjacentPoint_sym (LineSegment.x_start line_1)),
    (isAdjacentPoint_sym (LineSegment.x_start line_1) _
       (LineSegment.x_end line_2)),
    (isAdjacentPoint_sym (LineSegment.x_end line_1)),
    (isAdjacentPoint_sym (LineSegment.x_end line_1) _
       (LineSegment.x_end line_2)).
  repeat match goal with
         | |- context [isAdjacentPoint ?a ?b ?c ?d ?e] =>
             generalize (isAdjacentPoint a b c d e); intro
         end.
  repeat match goal with b : bool |- _ => destruct b end; reflexivity.
Qed.

(** X11.  [isAdjacent] does not depend on the order of its two segments,
    nor on the direction of either: the four endpoint pairs it tests are
    the same.  For [delta >= 0] every segment is adjacent to itself. *)
Theorem isAdjacent_symmetric (line_1 line_2 : LineSegment.t) (delta : Z) :
  isAdjacent line_1 line_2 delta = isAdjacent line_2 line_1 delta
  /\ isAdjacent (LineSegment.swapStartEnd line_1) line_2 delta
     = isAdjacent line_1 line_2 delta
  /\ (0 <= delta -> isAdjacent line_1 line_1 delta = true).
Proof.
  split; [apply isAdjacent_sym|]. split.
  - unfold isAdjacent, isAdjacentToStart, isAdjacentToEnd. seg_simpl.
    destruct line_1; seg_simpl.
    repeat match goal with
           | |- context [isAdjacentPoint ?a ?b ?c ?d ?e] =>
               generalize (isAdjacentPoint a b c d e); intro
           end.
    repeat match goal with b : bool |- _ => destruct b end; reflexivity.
  - intros Hdelta. unfold isAdjacent, isAdjacentToStart.
    replace (isAdjacentPoint (LineSegment.x_start line_1)
               (LineSegment.y_start line_1) (LineSegment.x_start line_1)
               (LineSegment.y_start line_1) delta) with true;
      [reflexivity|].
    symmetry. apply isAdjacentPoint_iff. lia.
Qed.

Lemma isAdjacent_symmetric_witness :
  isAdjacent (LineSegment.mk 3 3 9 3 false) (LineSegment.mk 3 3 9 3 false) 0
  = true.
Proof.
  apply (proj2 (proj2 (isAdjacent_symmetric (LineSegment.mk 3 3 9 3 false)
                         (LineSegment.mk 3 3 9 3 false) 0))).
  lia.
Defined.

Lemma isAdjacentPoint_chebyshev_witness :
  isAdjacentPoint 2 0 4 0 (-1) = false.
Proof.
  apply (proj2 (proj2 (isAdjacentPoint_chebyshev 2 0 4 0 (-1)))). lia.
Defined.

(* ------------------------------------------------------------------ *)
(** ** The Structure container *)

Lemma set_nth_nth (s : Structure.t) (k : nat) (v d : loc) :
  (k < List.length s)%nat -> nth k (Structure.set_nth s k v) d = v.
Proof.
  revert k. induction s as [|l s IH]; intros [|k] Hk; cbn in *;
    try lia; auto. apply IH. lia.
Qed.

Lemma set_nth_nth_other (s : Structure.t) (k k' : nat) (v d : loc) :
  k' <> k -> nth k' (Structure.set_nth s k v) d = nth k' s d.
Proof.
  revert k k'. induction s as [|l s IH]; intros [|k] [|k'] Hne; cbn;
    try reflexivity; try contradiction. apply IH. lia.
Qed.

(** The position that a Python index addresses in a list of [n] items. *)
Definition position (n key : Z) : Z := if key <? 0 then n + key else key.

(** X12.  Indexing a structure.  For an index in [[-len, len)],
    [structure[key] = value] succeeds, keeps the length, makes
    [structure[key]] return [value] and leaves every other position as it
    was; a negative index counts from the end.  For an index outside that
    range both [structure[key]] and the assignment raise [IndexError]. *)
Theorem Structure_setitem_getitem (s : Structure.t) (key : Z) (value : loc) :
  (- Structure.len s <= key < Structure.len s ->
   exists s',
     Structure.setitem s key value = Ok s'
     /\ Structure.len s' = Structure.len s
     /\ Structure.getitem s' key = Ok value
     /\ Structure.getitem s key
        = Structure.getitem s (position (Structure.len s) key)
     /\ forall key',
         0 <= key' < Structure.len s ->
         key' <> position (Structure.len s) key ->
         Structure.getitem s' key' = Structure.getitem s key')
  /\ (key < - Structure.len s \/ Structure.len s <= key ->
      Structure.getitem s key = Raise IndexError
      /\ Structure.setitem s key value = Raise IndexError).
Proof.
  assert (Hidx : - Structure.len s <= key < Structure.len s ->
                 axis_index (Structure.len s) key
                 = Some (position (Structure.len s) key)
                 /\ 0 <= position (Structure.len s) key < Structure.len s).
  { intros Hkey. unfold axis_index, position.
    destruct (0 <=? key) eqn:E1, (key <? Structure.len s) eqn:E2,
      (- Structure.len s <=? key) eqn:E3, (key <? 0) eqn:E4;
      zbool; cbn [andb]; try lia; (split; [reflexivity | lia]). }
  split.
  - intros Hkey. destruct (Hidx Hkey) as [Hax Hpos].
    set (k := position (Structure.len s) key) in *.
    assert (Hlen : Structure.len (Structure.set_nth s (Z.to_nat k) value)
                   = Structure.len s).
    { unfold Structure.len. now rewrite Structure_set_nth_length. }
    exists (Structure.set_nth s (Z.to_nat k) value).
    unfold Structure.setitem, Structure.getitem. rewrite Hlen, Hax.
    split; [reflexivity|]. split; [reflexivity|].
    split; [f_equal; apply set_nth_nth; unfold Structure.len in *; lia|].
    split; [now rewrite axis_index_in_range by lia|].
    intros key' Hkey' Hne. rewrite axis_index_in_range by lia.
    f_equal. apply set_nth_nth_other. lia.
  - intros Hout. unfold Structure.getitem, Structure.setitem.
    assert (Hax : axis_index (Structure.len s) key = None).
    { unfold axis_index.
      destruct (0 <=? key) eqn:E1, (key <? Structure.len s) eqn:E2,
        (- Structure.len s <=? key) eqn:E3, (key <? 0) eqn:E4;
        zbool; cbn [andb]; try lia; reflexivity. }
    now rewrite Hax.
Qed.

Lemma Structure_setitem_getitem_witness :
  exists s',
    Structure.setitem [10; 20; 30]%nat (-1) 7%nat = Ok s'
    /\ Structure.getitem s' 2 = Ok 7%nat
    /\ Structure.getitem s' 0 = Ok 10%nat.
Proof.
  destruct (proj1 (Structure_setitem_getitem [10; 20; 30]%nat (-1) 7%nat))
    as (s' & Hset & _ & _ & _ & Hother); [cbn; lia|].
  exists s'. split; [exact Hset|].
  cbv in Hset. injection Hset as <-. split; reflexivity.
Defined.

Lemma Structure_remove_In (s : Structure.t) (line : loc) :
  In line s ->
  exists s',
    Structure.remove s line = Ok s'
    /\ S (List.length s') = List.length s
    /\ (forall x, In x s' -> In x s)
    /\ (forall x, x <> line -> In x s -> In x s')
    /\ S (count_occ Nat.eq_dec s' line) = count_occ Nat.eq_dec s line.
Proof.
  induction s as [|l s IH]; intros Hin; [destruct Hin|].
  cbn [Structure.remove]. destruct (Nat.eqb l line) eqn:E.
  - apply Nat.eqb_eq in E. subst l. exists s.
    split; [reflexivity|]. split; [reflexivity|].
    split; [intros x Hx; now right|].
    split; [intros x Hne [Heq | Hx]; [congruence | exact Hx]|].
    cbn [count_occ]. destruct (Nat.eq_dec line line); [reflexivity|].
    contradiction.
  - apply Nat.eqb_neq in E. destruct Hin as [Heq | Hin]; [contradiction|].
    destruct (IH Hin) as (s' & -> & Hlen & Hsub & Hsup & Hcount).
    exists (l :: s'). cbn [bind].
    split; [reflexivity|]. split; [cbn; lia|].
    split; [intros x [-> | Hx]; [now left | right; auto]|].
    split; [intros x Hne [-> | Hx]; [now left | right; auto]|].
    cbn [count_occ]. destruct (Nat.eq_dec l line); [contradiction|].
    exact Hcount.
Qed.

(** [list.remove] splits the list at the first occurrence. *)
Lemma Structure_remove_first (s : Structure.t) (line : loc) :
  In line s ->
  exists before after,
    s = before ++ line :: after
    /\ ~ In line before
    /\ Structure.remove s line = Ok (before ++ after).
Proof.
  induction s as [|l s IH]; intros Hin; [destruct Hin|].
  cbn [Structure.remove]. destruct (Nat.eqb l line) eqn:E.
  - apply Nat.eqb_eq in E. subst l. exists [], s.
    split; [reflexivity|]. split; [intros []|reflexivity].
  - apply Nat.eqb_neq in E. destruct Hin as [Heq | Hin]; [contradiction|].
    destruct (IH Hin) as (before & after & -> & Hnot & ->).
    exists (l :: before), after. cbn [bind app].
    split; [reflexivity|]. split; [|reflexivity].
    intros [Heq | Hb]; [congruence | contradiction].
Qed.

(** X13.  [Structure.remove(line)] drops the first occurrence of the object
    and only that: the structure is cut at the first position that holds
    [line], and what stands before and after it is returned in the same
    order; so the length and the number of occurrences of [line] go down by
    one and every other member stays.  On an object that is not a member it
    raises the [ValueError] of [list.remove].  Removing an object that was
    just appended to a structure without it gives the structure back. *)
Theorem Structure_remove_spec (s : Structure.t) (line : loc) :
  (In line s ->
   exists s' before after,
     Structure.remove s line = Ok s'
     /\ s = before ++ line :: after
     /\ ~ In line before
     /\ s' = before ++ after
     /\ S (List.length s') = List.length s
     /\ S (count_occ Nat.eq_dec s' line) = count_occ Nat.eq_dec s line
     /\ forall x, x <> line -> (In x s' <-> In x s))
  /\ (~ In line s ->
      Structure.remove s line
      = Raise (ValueError "list.remove(x): x not in list")
      /\ Structure.contains (Structure.append s line) line = true
      /\ Structure.remove (Structure.append s line) line = Ok s).
Proof.
  split.
  - intros Hin.
    destruct (Structure_remove_In s line Hin)
      as (s' & Hrun & Hlen & Hsub & Hsup & Hcount).
    destruct (Structure_remove_first s line Hin)
      as (before & after & Hs & Hnot & Hrun').
    exists s', before, after.
    split; [exact Hrun|]. split; [exact Hs|]. split; [exact Hnot|].
    split; [congruence|]. split; [exact Hlen|]. split; [exact Hcount|].
    intros x Hx. split; [apply Hsub | now apply Hsup].
  - intros Hnot. split; [|split].
    + induction s as [|l s IH]; [reflexivity|].
      cbn [Structure.remove].
      destruct (Nat.eqb l line) eqn:E.
      * apply Nat.eqb_eq in E. subst. exfalso. apply Hnot. now left.
      * rewrite IH; [reflexivity|]. intros Hin. apply Hnot. now right.
    + unfold Structure.contains, Structure.append.
      apply existsb_eqb_In. apply in_or_app. right. now left.
    + unfold Structure.append. induction s as [|l s IH].
      * cbn. now rewrite Nat.eqb_refl.
      * cbn [app Structure.remove].
        destruct (Nat.eqb l line) eqn:E.
        -- apply Nat.eqb_eq in E. subst. exfalso. apply Hnot. now left.
        -- rewrite IH; [reflexivity|]. intros Hin. apply Hnot. now right.
Qed.

(** The first of the two occurrences of 4 is the one dropped. *)
Lemma Structure_remove_spec_witness :
  Structure.remove [4; 8; 4]%nat 4%nat = Ok [8; 4]%nat
  /\ Structure.remove [4; 8]%nat 5%nat
     = Raise (ValueError "list.remove(x): x not in list").
Proof.
  split.
  - destruct (proj1 (Structure_remove_spec [4; 8; 4]%nat 4%nat))
      as (s' & before & after & Hrun & _); [now left|].
    rewrite Hrun. cbv in Hrun. symmetry. exact Hrun.
  - apply (proj2 (Structure_remove_spec [4; 8]%nat 5%nat)).
    intros [H | [H | []]]; discriminate.
Defined.

(* ------------------------------------------------------------------ *)
(** ** Angles between segments *)

Section Angles.

Open Scope R_scope.

Lemma py_round5_m1 : py_round5 (-1) = -1.
Proof.
  unfold py_round5. destruct (Rle_dec 0 (-1)) as [H | _]; [lra|].
  rewrite <- (Int_part_spec (- -1 * 100000 + / 2) 100000) by lra. lra.
Qed.

(** Direction vectors that point opposite ways: the angle is 180. *)
Lemma computeAngle_opposite_direction (line_1 line_2 : LineSegment.t) :
  let a_1 := (LineSegment.x_start line_1 - LineSegment.x_end line_1)%Z in
  let a_2 := (LineSegment.y_start line_1 - LineSegment.y_end line_1)%Z in
  let b_1 := (LineSegment.x_start line_2 - LineSegment.x_end line_2)%Z in
  let b_2 := (LineSegment.y_start line_2 - LineSegment.y_end line_2)%Z in
  (a_1 * b_2 = a_2 * b_1)%Z -> (a_1 * b_1 + a_2 * b_2 < 0)%Z ->
  computeAngle line_1 line_2 = Ok 180.
Proof.
  intros a_1 a_2 b_1 b_2 Hcross Hdot. unfold computeAngle.
  fold a_1 a_2 b_1 b_2.
  replace (0 =? a_1 * b_1 + a_2 * b_2)%Z with false
    by (symmetry; apply Z.eqb_neq; lia).
  destruct (@cosine_range a_1 a_2 b_1 b_2) as [Hpos _]; [lia|].
  destruct (Req_dec_T _ 0) as [H0 | _]; [lra|].
  assert (Hnorm : sqrt (IZR (a_1 ^ 2 + a_2 ^ 2))
                  * sqrt (IZR (b_1 ^ 2 + b_2 ^ 2))
                  = - IZR (a_1 * b_1 + a_2 * b_2)).
  { rewrite <- sqrt_mult by (apply IZR_le; nia).
    rewrite <- mult_IZR, <- opp_IZR.
    replace ((a_1 ^ 2 + a_2 ^ 2) * (b_1 ^ 2 + b_2 ^ 2))%Z
      with ((- (a_1 * b_1 + a_2 * b_2)) * (- (a_1 * b_1 + a_2 * b_2))
            + (a_1 * b_2 - a_2 * b_1) * (a_1 * b_2 - a_2 * b_1))%Z by ring.
    replace (a_1 * b_2 - a_2 * b_1)%Z with 0%Z by lia.
    rewrite Z.mul_0_l, Z.add_0_r.
    rewrite mult_IZR. apply sqrt_square. apply IZR_le. lia. }
  rewrite Hnorm.
  assert (Hneg : IZR (a_1 * b_1 + a_2 * b_2) < 0) by (apply IZR_lt; lia).
  replace (IZR (a_1 * b_1 + a_2 * b_2) / - IZR (a_1 * b_1 + a_2 * b_2))
    with (-1) by (field; lra).
  rewrite py_round5_m1. unfold math_acos.
  replace (Rle_bool (-1) (-1)) with true
    by (symmetry; apply Rle_bool_true; lra).
  replace (Rle_bool (-1) 1) with true by (symmetry; apply Rle_bool_true; lra).
  cbn [andb bind].
  assert (Hacos : acos (-1) = PI).
  { replace (-1) with (Ropp 1) by lra. rewrite acos_opp, acos_1. lra. }
  rewrite Hacos. unfold degrees. f_equal.
  pose proof PI_RGT_0. field. lra.
Qed.

(** X14.  [computeAngle] always returns an angle, between 0 and 180
    degrees; it is 90 when one of the segments is a point; it does not
    depend on the order of the two segments, and it does not change when
    both segments are reversed. *)
Theorem computeAngle_symmetric (line_1 line_2 : LineSegment.t) :
  (exists angle,
      computeAngle line_1 line_2 = Ok angle /\ 0 <= angle <= 180)
  /\ computeAngle line_1 line_2 = computeAngle line_2 line_1
  /\ computeAngle (LineSegment.swapStartEnd line_1)
       (LineSegment.swapStartEnd line_2)
     = computeAngle line_1 line_2
  /\ (LineSegment.isPoint line_1 = true \/ LineSegment.isPoint line_2 = true ->
      computeAngle line_1 line_2 = Ok 90).
Proof.
  split; [apply computeAngle_total|]. split; [|split].
  - unfold computeAngle. cbv zeta.
    set (a_1 := (LineSegment.x_start line_1 - LineSegment.x_end line_1)%Z).
    set (a_2 := (LineSegment.y_start line_1 - LineSegment.y_end line_1)%Z).
    set (b_1 := (LineSegment.x_start line_2 - LineSegment.x_end line_2)%Z).
    set (b_2 := (LineSegment.y_start line_2 - LineSegment.y_end line_2)%Z).
    replace (b_1 * a_1 + b_2 * a_2)%Z with (a_1 * b_1 + a_2 * b_2)%Z by ring.
    rewrite (Rmult_comm (sqrt (IZR (b_1 ^ 2 + b_2 ^ 2)))). reflexivity.
  - unfold computeAngle. cbv zeta. destruct line_1, line_2. seg_simpl.
    replace ((x_end - x_start) * (x_end0 - x_start0)
             + (y_end - y_start) * (y_end0 - y_start0))%Z
      with ((x_start - x_end) * (x_start0 - x_end0)
            + (y_start - y_end) * (y_start0 - y_end0))%Z by ring.
    replace ((x_end - x_start) ^ 2 + (y_end - y_start) ^ 2)%Z
      with ((x_start - x_end) ^ 2 + (y_start - y_end) ^ 2)%Z by ring.
    replace ((x_end0 - x_start0) ^ 2 + (y_end0 - y_start0) ^ 2)%Z
      with ((x_start0 - x_end0) ^ 2 + (y_start0 - y_end0) ^ 2)%Z by ring.
    reflexivity.
  - intros Hpoint. apply computeAngle_perpendicular.
    unfold LineSegment.isPoint in Hpoint.
    destruct Hpoint as [Hp | Hp]; apply andb_true_iff in Hp;
      destruct Hp as [Hx Hy]; apply Z.eqb_eq in Hx, Hy; nia.
Qed.

Lemma computeAngle_symmetric_witness :
  computeAngle (LineSegment.mk 3 3 3 3 false) (LineSegment.mk 0 0 5 2 false)
  = Ok 90.
Proof.
  apply (proj2 (proj2 (proj2 (computeAngle_symmetric
           (LineSegment.mk 3 3 3 3 false) (LineSegment.mk 0 0 5 2 false))))).
  left. reflexivity.
Defined.

(** X15.  The slope test compares directions, not lines.  A segment that
    is not a point has equal slope with itself for every
    [angle_epsilon >= 0], and has not equal slope with its own reversal
    (start and end swapped, an angle of 180 degrees) for every
    [angle_epsilon < 180]. *)
Theorem haveEqualSlope_direction (line : LineSegment.t) (angle_epsilon : R) :
  LineSegment.isPoint line = false ->
  (0 <= angle_epsilon ->
   haveEqualSlope line line (Some angle_epsilon) = Ok true)
  /\ (angle_epsilon < 180 ->
      computeAngle line (LineSegment.swapStartEnd line) = Ok 180
      /\ haveEqualSlope line (LineSegment.swapStartEnd line)
           (Some angle_epsilon) = Ok false).
Proof.
  intros Hline.
  assert (Hvec : (LineSegment.x_start line - LineSegment.x_end line <> 0
                  \/ LineSegment.y_start line - LineSegment.y_end line <> 0)%Z).
  { unfold LineSegment.isPoint in Hline. apply andb_false_iff in Hline.
    destruct Hline as [H | H]; apply Z.eqb_neq in H; lia. }
  split.
  - intros Heps. apply haveEqualSlope_same_direction; [|exact Heps].
    apply computeAngle_same_direction; [ring|].
    cbv zeta.
    set (u := (LineSegment.x_start line - LineSegment.x_end line)%Z) in *.
    set (v := (LineSegment.y_start line - LineSegment.y_end line)%Z) in *.
    clearbody u v. destruct Hvec; nia.
  - intros Heps.
    assert (Hangle : computeAngle line (LineSegment.swapStartEnd line)
                     = Ok 180).
    { apply computeAngle_opposite_direction; destruct line; seg_simpl;
        [ring|].
      set (u := (x_start - x_end)%Z) in *.
      set (v := (y_start - y_end)%Z) in *.
      replace (x_end - x_start)%Z with (- u)%Z by (unfold u; ring).
      replace (y_end - y_start)%Z with (- v)%Z by (unfold v; ring).
      clearbody u v. destruct Hvec; nia. }
    split; [exact Hangle|].
    unfold haveEqualSlope. rewrite Hangle. cbn [bind]. f_equal.
    apply andb_false_iff. right.
    destruct (Rle_bool 180 angle_epsilon) eqn:E; [|reflexivity].
    apply Rle_bool_true in E. lra.
Qed.

Lemma haveEqualSlope_direction_witness :
  haveEqualSlope (LineSegment.mk 0 0 6 0 false) (LineSegment.mk 6 0 0 0 false)
    (Some 5)
  = Ok false.
Proof.
  apply (proj2 (@haveEqualSlope_direction (LineSegment.mk 0 0 6 0 false) 5
                  eq_refl)).
  lra.
Defined.

End Angles.

(* ------------------------------------------------------------------ *)
(** ** What a merge changes *)

Lemma update_same (h : heap) (l : loc) (s : LineSegment.t) :
  update h l s l = s.
Proof. unfold update. now rewrite Nat.eqb_refl. Qed.

Lemma update_other (h : heap) (l l' : loc) (s : LineSegment.t) :
  l' <> l -> update h l s l' = h l'.
Proof.
  intros Hne. unfold update. apply Nat.eqb_neq in Hne. now rewrite Hne.
Qed.

Section MergeChanges.

Variable angle_epsilon : option R.
Variable delta : Z.

(** X16.  A successful [combineLines] returns one of its two operands,
    mutated: its end has become the end of the other operand, its start and
    its flag are what they were, and no other object of the store has
    changed.  It only succeeds on operands that are adjacent, and, when
    neither is a point, that pass the slope test. *)
Theorem combineLines_merged (h h' : heap) (line_1 line_2 combinedLine : loc) :
  combineLines angle_epsilon delta h line_1 line_2
  = Ok (h', Some combinedLine) ->
  (exists other,
      (combinedLine = line_1 /\ other = line_2
       \/ combinedLine = line_2 /\ other = line_1)
      /\ h' combinedLine
         = LineSegment.setEndCoordinate (h combinedLine)
             (LineSegment.x_end (h other)) (LineSegment.y_end (h other)))
  /\ (forall l, l <> combinedLine -> h' l = h l)
  /\ isAdjacent (h line_1) (h line_2) delta = true
  /\ (LineSegment.isPoint (h line_1) = false ->
      LineSegment.isPoint (h line_2) = false ->
      haveEqualSlope (h line_1) (h line_2) angle_epsilon = Ok true).
Proof.
  intros Hrun.
  assert (Hstore :
    (exists other,
        (combinedLine = line_1 /\ other = line_2
         \/ combinedLine = line_2 /\ other = line_1)
        /\ h' combinedLine
           = LineSegment.setEndCoordinate (h combinedLine)
               (LineSegment.x_end (h other)) (LineSegment.y_end (h other)))
    /\ (forall l, l <> combinedLine -> h' l = h l)).
  { destruct (combineLines_cases _ _ _ _ _ Hrun)
      as [[Hr _] | [[Hr ->] | [Hr ->]]]; try discriminate;
      injection Hr as ->.
    - split; [exists line_2; split; [now left | apply update_same]|].
      intros l Hne. now apply update_other.
    - split; [exists line_1; split; [now right | apply update_same]|].
      intros l Hne. now apply update_other. }
  destruct Hstore as [Hmerged Hframe].
  split; [exact Hmerged|]. split; [exact Hframe|].
  unfold combineLines in Hrun. bind_inv Hrun.
  assert (Hadj : isAdjacent (h line_1) (h line_2) delta = true
                 /\ a = false).
  { destruct a; [discriminate|]. split; [|reflexivity].
    repeat match type of Hrun with
           | (if ?c then _ else _) = _ => destruct c eqn:?
           end; try discriminate;
      match goal with
      | H : isAdjacentToStart _ _ _ = true |- _ =>
          first [ unfold isAdjacent; rewrite H; reflexivity
                | rewrite isAdjacent_sym; unfold isAdjacent; rewrite H;
                  reflexivity ]
      | H : isAdjacentToEnd _ _ _ = true |- _ =>
          first [ unfold isAdjacent; rewrite H; apply orb_true_r
                | rewrite isAdjacent_sym; unfold isAdjacent; rewrite H;
                  apply orb_true_r ]
      end. }
  destruct Hadj as [Hadj ->]. split; [exact Hadj|].
  intros Hp1 Hp2. rewrite Hp1, Hp2 in Hrun0. cbn [negb andb] in Hrun0.
  bind_inv Hrun0. injection Hrun0 as Hneg. apply negb_false_iff in Hneg.
  now subst.
Qed.

(** X17.  [angle_epsilon] is consulted only when neither operand is a
    point.  Without it, [combineLines] raises the [ValueError] on two
    segments that are not points, before either is touched; when one
    operand is a point the call returns and its result does not depend on
    [angle_epsilon] at all. *)
Theorem combineLines_angle_epsilon (h : heap) (line_1 line_2 : loc) :
  (LineSegment.isPoint (h line_1) = false ->
   LineSegment.isPoint (h line_2) = false ->
   combineLines None delta h line_1 line_2
   = Raise (ValueError "angle_epsilon not set"))
  /\ (LineSegment.isPoint (h line_1) = true
      \/ LineSegment.isPoint (h line_2) = true ->
      (exists r, combineLines None delta h line_1 line_2 = Ok r)
      /\ combineLines angle_epsilon delta h line_1 line_2
         = combineLines None delta h line_1 line_2).
Proof.
  split.
  - intros Hp1 Hp2. unfold combineLines. rewrite Hp1, Hp2. reflexivity.
  - intros Hpoint. unfold combineLines.
    replace (negb (LineSegment.isPoint (h line_1))
             && negb (LineSegment.isPoint (h line_2))) with false
      by (destruct Hpoint as [-> | ->]; cbn [negb andb];
          rewrite ?andb_false_r; reflexivity).
    cbn [bind]. split; [|reflexivity].
    repeat case_test; eauto.
Qed.

End MergeChanges.

(** The point (2,0) next to the start of (3,0)-(8,0), no [angle_epsilon]:
    the point is extended to (8,0). *)
Lemma combineLines_merged_witness :
  let h := fst (alloc [LineSegment.mk 2 0 2 0 false;
                       LineSegment.mk 3 0 8 0 false]) in
  exists h',
    combineLines None 1 h 0%nat 1%nat = Ok (h', Some 0%nat)
    /\ h' 0%nat = LineSegment.mk 2 0 8 0 false
    /\ h' 1%nat = LineSegment.mk 3 0 8 0 false.
Proof.
  intro h.
  assert (Hrun : exists h', combineLines None 1 h 0%nat 1%nat
                            = Ok (h', Some 0%nat))
    by (eexists; reflexivity).
  destruct Hrun as [h' Hrun]. exists h'. split; [exact Hrun|].
  destruct (@combineLines_merged None 1 h h' 0%nat 1%nat 0%nat Hrun)
    as ((other & [[_ ->] | [Hc _]] & Hmerged) & Hframe & _);
    [|discriminate Hc].
  split; [rewrite Hmerged; reflexivity|].
  rewrite Hframe by discriminate. reflexivity.
Defined.

Lemma combineLines_angle_epsilon_witness :
  let h := fst (alloc [LineSegment.mk 0 0 4 0 false;
                       LineSegment.mk 5 0 9 0 false]) in
  combineLines None 1 h 0%nat 1%nat
  = Raise (ValueError "angle_epsilon not set").
Proof.
  intro h.
  apply (proj1 (@combineLines_angle_epsilon None 1 h 0%nat 1%nat));
    reflexivity.
Defined.

Lemma Structure_getitem_In (s : Structure.t) (key : Z) (line : loc) :
  Structure.getitem s key = Ok line -> In line s.
Proof.
  unfold Structure.getitem, axis_index. intros Hget.
  destruct ((0 <=? key) && (key <? Structure.len s)) eqn:E1.
  - injection Hget as <-. zbool. apply nth_In. unfold Structure.len in *. lia.
  - destruct ((- Structure.len s <=? key) && (key <? 0)) eqn:E2;
      [|discriminate].
    injection Hget as <-. zbool. apply nth_In. unfold Structure.len in *.
    lia.
Qed.

Lemma set_nth_In (s : Structure.t) (k : nat) (v x : loc) :
  In x (Structure.set_nth s k v) -> x = v \/ In x s.
Proof.
  revert k. induction s as [|l s IH]; intros [|k] Hin; cbn in *; auto.
  - destruct Hin as [<- | Hin]; auto.
  - destruct Hin as [<- | Hin]; auto. destruct (IH _ Hin); auto.
Qed.

Lemma Structure_remove_incl (s s' : Structure.t) (line : loc) :
  Structure.remove s line = Ok s' -> incl s' s.
Proof.
  revert s'. induction s as [|l s IH]; intros s' Hrun;
    cbn [Structure.remove] in Hrun; [discriminate|].
  destruct (Nat.eqb l line).
  - injection Hrun as <-. intros x Hx. now right.
  - bind_inv Hrun. injection Hrun as <-.
    intros x [<- | Hx]; [now left | right; eapply IH; eauto].
Qed.

(** The store [h'] differs from [h] in end coordinates only. *)
Definition ends_only (h h' : heap) : Prop :=
  forall l,
    LineSegment.x_start (h' l) = LineSegment.x_start (h l)
    /\ LineSegment.y_start (h' l) = LineSegment.y_start (h l)
    /\ LineSegment._vertical (h' l) = LineSegment._vertical (h l).

(** The store [h'] agrees with [h] outside the structure [s]. *)
Definition same_outside (s : Structure.t) (h h' : heap) : Prop :=
  forall l, ~ In l s -> h' l = h l.

Lemma ends_only_refl (h : heap) : ends_only h h.
Proof. intros l. auto. Qed.

Lemma ends_only_trans (h1 h2 h3 : heap) :
  ends_only h1 h2 -> ends_only h2 h3 -> ends_only h1 h3.
Proof.
  intros H12 H23 l. destruct (H12 l) as (? & ? & ?).
  destruct (H23 l) as (? & ? & ?). repeat split; congruence.
Qed.

Section MergeResult.

Variable angle_epsilon : option R.
Variable delta : Z.

Lemma combineLines_ends_only (h h' : heap) (line_1 line_2 : loc)
      (r : option loc) :
  combineLines angle_epsilon delta h line_1 line_2 = Ok (h', r) ->
  ends_only h h'
  /\ (forall l, l <> line_1 -> l <> line_2 -> h' l = h l)
  /\ match r with
     | None => h' = h
     | Some c => c = line_1 \/ c = line_2
     end.
Proof.
  intros Hrun.
  destruct (combineLines_cases _ _ _ _ _ Hrun)
    as [[-> ->] | [[-> ->] | [-> ->]]].
  - split; [apply ends_only_refl|]. split; auto.
  - split; [|split; [|now left]].
    + intros l. destruct (Nat.eq_dec l line_1) as [-> | Hne].
      * rewrite update_same. destruct (h line_1). cbn. auto.
      * rewrite update_other by assumption. auto.
    + intros l Hne _. now apply update_other.
  - split; [|split; [|now right]].
    + intros l. destruct (Nat.eq_dec l line_2) as [-> | Hne].
      * rewrite update_same. destruct (h line_2). cbn. auto.
      * rewrite update_other by assumption. auto.
    + intros l _ Hne. now apply update_other.
Qed.

Lemma combineLinesWithEqualSlope_for_changes (s : Structure.t) (i : Z)
      (line_1 : loc) (js : list Z) :
  In line_1 s ->
  forall h h' r,
    combineLinesWithEqualSlope_for angle_epsilon delta h s i line_1 js
    = Ok (h', r) ->
    ends_only h h' /\ same_outside s h h'
    /\ match r with
       | None => True
       | Some s' => incl s' s /\ S (List.length s') = List.length s
       end.
Proof.
  intros Hl1. induction js as [|j rest IH]; intros h h' r Hrun.
  - injection Hrun as <- <-. split; [apply ends_only_refl|].
    split; [intros l _; reflexivity | exact I].
  - pose proof Hrun as Hlen.
    cbn [combineLinesWithEqualSlope_for] in Hrun.
    bind_inv Hrun. pose proof (Structure_getitem_In _ _ Hrun0) as Hl2.
    bind_inv Hrun. destruct a0 as [h1 [c|]].
    + bind_inv Hrun. bind_inv Hrun. injection Hrun as <- <-.
      destruct (combineLines_ends_only _ _ _ Hrun1) as (Hends & Hframe & Hc).
      split; [exact Hends|]. split.
      * intros l Hl. apply Hframe; intros ->; contradiction.
      * split; [|eapply combineLinesWithEqualSlope_for_result; eauto].
        intros x Hx. apply (Structure_remove_incl _ _ Hrun3) in Hx.
        unfold Structure.setitem in Hrun2.
        destruct (axis_index (Structure.len s) i); [|discriminate].
        injection Hrun2 as <-. apply set_nth_In in Hx.
        destruct Hx as [-> | Hx]; [|exact Hx].
        destruct Hc as [-> | ->]; assumption.
    + destruct (combineLines_ends_only _ _ _ Hrun1) as (_ & _ & ->).
      eapply IH; eauto.
Qed.

Lemma combineLinesWithEqualSlope_Rec_changes (fuel : nat) :
  forall (i : Z) (s s' : Structure.t) (h h' : heap),
    combineLinesWithEqualSlope_Rec angle_epsilon delta fuel i s h
    = Ok (h', s') ->
    ends_only h h' /\ same_outside s h h'
    /\ incl s' s /\ (List.length s' <= List.length s)%nat.
Proof.
  induction fuel as [|fuel IH]; intros i s s' h h' Hrun;
    cbn [combineLinesWithEqualSlope_Rec] in Hrun; [discriminate|].
  destruct (Structure.len s >? i).
  - bind_inv Hrun. pose proof (Structure_getitem_In _ _ Hrun0) as Hl1.
    bind_inv Hrun. destruct a0 as [h1 [s1|]].
    + apply combineLinesWithEqualSlope_for_changes in Hrun1; [|exact Hl1].
      destruct Hrun1 as (Hends & Hframe & Hincl & Hlen).
      apply IH in Hrun. destruct Hrun as (Hends' & Hframe' & Hincl' & Hlen').
      split; [eapply ends_only_trans; eauto|].
      split; [|split; [intros x Hx; auto | lia]].
      intros l Hl. rewrite Hframe' by (intros Hin; apply Hl; auto).
      now apply Hframe.
    + apply combineLinesWithEqualSlope_for_changes in Hrun1; [|exact Hl1].
      destruct Hrun1 as (Hends & Hframe & _).
      apply IH in Hrun. destruct Hrun as (Hends' & Hframe' & Hincl' & Hlen').
      split; [eapply ends_only_trans; eauto|].
      split; [|split; assumption].
      intros l Hl. rewrite Hframe' by assumption. now apply Hframe.
  - injection Hrun as <- <-. split; [apply ends_only_refl|].
    split; [intros l _; reflexivity|]. split; [apply incl_refl | lia].
Qed.

(** X18.  What [combineLinesWithEqualSlope] does to its input, whenever it
    returns.  It returns as many structures as it received, in the same
    order; each is made of objects of the structure it comes from and is
    not longer; the only coordinates that change are end coordinates, and
    only of objects that belong to one of the structures. *)
Theorem combineLinesWithEqualSlope_result (structures out : list Structure.t)
        (h h' : heap) :
  combineLinesWithEqualSlope angle_epsilon delta structures h = Ok (h', out) ->
  Forall2 (fun s s' => incl s' s /\ (List.length s' <= List.length s)%nat)
          structures out
  /\ ends_only h h'
  /\ (forall l, (forall s, In s structures -> ~ In l s) -> h' l = h l).
Proof.
  unfold combineLinesWithEqualSlope.
  assert (Hgen : forall structures acc h h' out,
    for_each structures (combineLinesWithEqualSlope_body angle_epsilon delta)
      (h, acc) = Ok (h', out) ->
    exists out',
      out = acc ++ out'
      /\ Forall2 (fun s s' => incl s' s
                              /\ (List.length s' <= List.length s)%nat)
                 structures out'
      /\ ends_only h h'
      /\ (forall l, (forall s, In s structures -> ~ In l s) -> h' l = h l)).
  { clear. induction structures as [|s rest IH]; intros acc h h' out Hrun;
      cbn [for_each] in Hrun.
    - injection Hrun as <- <-. exists []. rewrite app_nil_r.
      split; [reflexivity|]. split; [constructor|].
      split; [apply ends_only_refl | reflexivity].
    - bind_inv Hrun. unfold combineLinesWithEqualSlope_body in Hrun0.
      bind_inv Hrun0. destruct a0 as [h1 s1]. injection Hrun0 as <-.
      apply combineLinesWithEqualSlope_Rec_changes in Hrun1.
      destruct Hrun1 as (Hends & Hframe & Hincl & Hlen).
      apply IH in Hrun. destruct Hrun as (out' & -> & Hall & Hends' & Hframe').
      exists (s1 :: out'). rewrite <- app_assoc.
      split; [reflexivity|]. split; [constructor; auto|].
      split; [eapply ends_only_trans; eauto|].
      intros l Hl. rewrite Hframe' by (intros s0 Hs0; apply Hl; now right).
      apply Hframe. apply Hl. now left. }
  intros Hrun. apply Hgen in Hrun. destruct Hrun as (out' & -> & H).
  exact H.
Qed.

End MergeResult.

(** Two structures: the point (2,0) and the segment (3,0)-(8,0) are merged,
    the segment (0,9)-(4,9) of the other structure is not touched. *)
Lemma combineLinesWithEqualSlope_result_witness :
  let h := fst (alloc [LineSegment.mk 2 0 2 0 false;
                       LineSegment.mk 3 0 8 0 false;
                       LineSegment.mk 0 9 4 9 false]) in
  exists h' out,
    combineLinesWithEqualSlope None 1 [[0; 1]; [2]]%nat h = Ok (h', out)
    /\ List.length out = 2%nat
    /\ LineSegment.x_start (h' 0%nat) = 2.
Proof.
  intro h.
  assert (Hrun : exists r,
             combineLinesWithEqualSlope None 1 [[0; 1]; [2]]%nat h = Ok r)
    by (eexists; vm_compute; reflexivity).
  destruct Hrun as ([h' out] & Hrun). exists h', out.
  split; [exact Hrun|].
  destruct (@combineLinesWithEqualSlope_result None 1 _ out h h' Hrun)
    as (Hall & Hends & _).
  split.
  - apply Forall2_length in Hall. symmetry. exact Hall.
  - destruct (Hends 0%nat) as (Hx & _). rewrite Hx. reflexivity.
Defined.

(* ================================================================== *)
(** ** The structures of [groupAdjacentLines] are the connected
       components of the adjacency relation *)

(** Every neighbour of [a] among [lines] is in [v]. *)
Definition closed (h : heap) (lines : list loc) (delta : Z)
           (v : list loc) (a : loc) : Prop :=
  forall b, In b lines -> isAdjacent (h a) (h b) delta = true -> In b v.

(** Every member of [s] but the first is adjacent to a member that was
    appended before it. *)
Definition linked (h : heap) (delta : Z) (s : list loc) : Prop :=
  forall s1 e s2,
    s = s1 ++ e :: s2 -> s1 <> [] ->
    exists p, In p s1 /\ isAdjacent (h p) (h e) delta = true.

Lemma closed_mono (h : heap) (lines : list loc) (delta : Z)
      (v v' : list loc) (a : loc) :
  incl v v' -> closed h lines delta v a -> closed h lines delta v' a.
Proof. intros Hincl Hc b Hb Hadj. apply Hincl. now apply Hc. Qed.

Lemma linked_singleton (h : heap) (delta : Z) (l : loc) :
  linked h delta [l].
Proof.
  intros s1 e s2 Heq Hne. destruct s1 as [|x s1]; [congruence|].
  destruct s1; discriminate.
Qed.

Lemma linked_snoc (h : heap) (delta : Z) (s : list loc) (p e : loc) :
  linked h delta s -> In p s -> isAdjacent (h p) (h e) delta = true ->
  linked h delta (s ++ [e]).
Proof.
  intros Hs Hp Hadj s1 e' s2 Heq Hne.
  destruct s2 as [|x s2 _] using rev_ind.
  - apply app_inj_tail in Heq. destruct Heq as [<- <-]. now exists p.
  - rewrite app_comm_cons, app_assoc in Heq.
    apply app_inj_tail in Heq. destruct Heq as [Heq _].
    now apply (Hs s1 e' s2).
Qed.

Section GroupingComponents.

Variable h : heap.
Variable lines : list loc.
Variable delta : Z.

(** A call of [collectAdjacentLines] on a member [currentLine] of the
    structure leaves no neighbour of [currentLine], and none of the
    segments it appends, outside [visitedLines]; each segment it appends is
    adjacent to a segment already in the structure. *)
Lemma collectAdjacentLines_component (fuel : nat) :
  forall (currentLine : loc) (structure visitedLines : list loc),
    NoDup visitedLines ->
    (remaining lines visitedLines < fuel)%nat ->
    incl structure visitedLines ->
    In currentLine structure ->
    linked h delta structure ->
    exists ext,
      collectAdjacentLines h lines delta fuel currentLine
        (structure, visitedLines)
      = Ok (structure ++ ext, visitedLines ++ ext)
      /\ NoDup (visitedLines ++ ext)
      /\ incl ext lines
      /\ linked h delta (structure ++ ext)
      /\ closed h lines delta (visitedLines ++ ext) currentLine
      /\ (forall e, In e ext ->
                    closed h lines delta (visitedLines ++ ext) e).
Proof.
  induction fuel as [|fuel IH]; intros cur s v Hnd Hfuel Hsv Hcur Hlink;
    [lia|].
  cbn [collectAdjacentLines].
  assert (Hloop : forall todo, incl todo lines ->
    forall s v, NoDup v -> (remaining lines v <= fuel)%nat ->
    incl s v -> In cur s -> linked h delta s ->
    exists ext,
      for_each todo
        (fun line st =>
           let '(structure, visitedLines) := st in
           if Structure.contains structure line
              || existsb (Nat.eqb line) visitedLines
           then Ok st
           else if isAdjacent (h cur) (h line) delta then
             collectAdjacentLines h lines delta fuel line
               (Structure.append structure line, visitedLines ++ [line])
           else Ok st)
        (s, v)
      = Ok (s ++ ext, v ++ ext)
      /\ NoDup (v ++ ext) /\ incl ext lines
      /\ linked h delta (s ++ ext)
      /\ (forall b, In b todo -> isAdjacent (h cur) (h b) delta = true ->
                    In b (v ++ ext))
      /\ (forall e, In e ext -> closed h lines delta (v ++ ext) e)).
  { clear s v Hnd Hfuel Hsv Hcur Hlink.
    induction todo as [|line rest IHrest];
      intros Htodo s v Hnd Hfuel Hsv Hcur Hlink.
    - exists []. rewrite !app_nil_r.
      split; [reflexivity|]. split; [assumption|].
      split; [intros x []|]. split; [assumption|].
      split; [intros b []| intros e []].
    - assert (Hline : In line lines) by (apply Htodo; now left).
      assert (Hrest : incl rest lines)
        by (intros x Hx; apply Htodo; now right).
      cbn [for_each].
      destruct (Structure.contains s line || existsb (Nat.eqb line) v)
        eqn:Eseen.
      { cbn [bind].
        destruct (IHrest Hrest s v Hnd Hfuel Hsv Hcur Hlink)
          as (ext & Hrun & Hnd' & Hincl' & Hlink' & Hcl & Hcle).
        exists ext. split; [exact Hrun|]. split; [exact Hnd'|].
        split; [exact Hincl'|]. split; [exact Hlink'|].
        split; [|exact Hcle].
        intros b [<- | Hb] Hadj; [|now apply Hcl].
        apply in_or_app. left. apply orb_true_iff in Eseen.
        destruct Eseen as [E | E]; apply existsb_eqb_In in E; auto. }
      apply orb_false_iff in Eseen. destruct Eseen as [_ Eseen].
      apply existsb_eqb_not_In in Eseen.
      destruct (isAdjacent (h cur) (h line) delta) eqn:Eadj.
      2:{ cbn [bind].
          destruct (IHrest Hrest s v Hnd Hfuel Hsv Hcur Hlink)
            as (ext & Hrun & Hnd' & Hincl' & Hlink' & Hcl & Hcle).
          exists ext. split; [exact Hrun|]. split; [exact Hnd'|].
          split; [exact Hincl'|]. split; [exact Hlink'|].
          split; [|exact Hcle].
          intros b [<- | Hb] Hadj; [congruence | now apply Hcl]. }
      destruct (IH line (Structure.append s line) (v ++ [line]))
        as (ext1 & Hrun1 & Hnd1 & Hincl1 & Hlink1 & Hcl1 & Hcle1).
      { now apply NoDup_snoc. }
      { pose proof (@remaining_append lines v line Hline Eseen). lia. }
      { unfold Structure.append. intros x Hx. apply in_app_or in Hx.
        apply in_or_app. destruct Hx; auto. }
      { unfold Structure.append. apply in_or_app. right. now left. }
      { unfold Structure.append. now apply linked_snoc with (p := cur). }
      destruct (IHrest Hrest (Structure.append s line ++ ext1)
                  ((v ++ [line]) ++ ext1))
        as (ext2 & Hrun2 & Hnd2 & Hincl2 & Hlink2 & Hcl2 & Hcle2);
        [exact Hnd1 | | | | exact Hlink1 |].
      { assert (Hmono : incl v ((v ++ [line]) ++ ext1)).
        { intros x Hx. apply in_or_app. left. apply in_or_app. now left. }
        pose proof (@remaining_mono lines _ _ Hmono). lia. }
      { unfold Structure.append. intros x Hx.
        apply in_app_or in Hx. apply in_or_app.
        destruct Hx as [Hx | Hx]; [left | now right].
        apply in_app_or in Hx. apply in_or_app. destruct Hx; auto. }
      { unfold Structure.append. apply in_or_app. left.
        apply in_or_app. now left. }
      exists ([line] ++ ext1 ++ ext2).
      unfold Structure.append in *.
      rewrite Hrun1. cbn [bind]. rewrite Hrun2.
      rewrite <- !app_assoc in *. split; [reflexivity|].
      split; [assumption|].
      split.
      { intros x Hx. apply in_app_or in Hx.
        destruct Hx as [[<- | []] | Hx]; [assumption|].
        apply in_app_or in Hx. destruct Hx; auto. }
      split; [assumption|].
      assert (Hsub : incl (v ++ [line] ++ ext1) (v ++ [line] ++ ext1 ++ ext2)).
      { intros x Hx. rewrite !app_assoc. apply in_or_app. left.
        now rewrite <- !app_assoc. }
      split.
      { intros b [<- | Hb] Hadj; [|now apply Hcl2].
        apply in_or_app. right. now left. }
      intros e He. apply in_app_or in He.
      destruct He as [[<- | []] | He].
      { eapply closed_mono; [exact Hsub | exact Hcl1]. }
      apply in_app_or in He. destruct He as [He | He].
      { eapply closed_mono; [exact Hsub | now apply Hcle1]. }
      now apply Hcle2. }
  assert (Hfuel' : (remaining lines v <= fuel)%nat) by lia.
  destruct (Hloop lines (incl_refl lines) s v Hnd Hfuel' Hsv Hcur Hlink) as
    (ext & Hrun & Hnd' & Hincl' & Hlink' & Hcl & Hcle).
  exists ext. split; [exact Hrun|]. split; [exact Hnd'|].
  split; [exact Hincl'|]. split; [exact Hlink'|]. split; [|exact Hcle].
  intros b Hb Hadj. now apply Hcl.
Qed.

(** What the outer loop keeps: a grouped segment shares its structure with
    each of its neighbours, and every structure is non-empty and linked. *)
Definition components (structures : list Structure.t) : Prop :=
  (forall s a b, In s structures -> In a s -> In b lines ->
                 isAdjacent (h a) (h b) delta = true -> In b s)
  /\ (forall s, In s structures -> s <> [] /\ linked h delta s).

Lemma groupAdjacentLines_loop_components (todo : list loc) :
  incl todo lines ->
  forall (structures : list Structure.t),
    NoDup (List.concat structures) ->
    incl (List.concat structures) lines ->
    components structures ->
    forall out v,
      for_each todo (groupAdjacentLines_body h lines delta)
        (structures, List.concat structures) = Ok (out, v) ->
      components out.
Proof.
  induction todo as [|line_1 rest IH];
    intros Htodo structures Hnd Hincl Hcomp out v Hrun.
  - cbn [for_each] in Hrun. now injection Hrun as <- _.
  - assert (Hline : In line_1 lines) by (apply Htodo; now left).
    assert (Hrest : incl rest lines)
      by (intros x Hx; apply Htodo; now right).
    cbn [for_each] in Hrun. unfold groupAdjacentLines_body at 1 in Hrun.
    destruct (existsb (Nat.eqb line_1) (List.concat structures)) eqn:Eseen.
    + cbn [bind] in Hrun. now apply (IH Hrest structures Hnd Hincl Hcomp out v).
    + apply existsb_eqb_not_In in Eseen.
      destruct (@collectAdjacentLines_component (S (List.length lines)) line_1
                  (Structure.append Structure.init line_1)
                  (List.concat structures ++ [line_1]))
        as (ext & Hrun1 & Hnd1 & Hincl1 & Hlink1 & Hcl1 & Hcle1).
      { now apply NoDup_snoc. }
      { pose proof
          (remaining_le_length lines (List.concat structures ++ [line_1])).
        lia. }
      { intros x [<- | []]. apply in_or_app. right. now left. }
      { now left. }
      { apply linked_singleton. }
      rewrite Hrun1 in Hrun. cbn [bind] in Hrun.
      set (new := Structure.append Structure.init line_1 ++ ext) in *.
      assert (Hconcat :
        List.concat (structures ++ [new])
        = (List.concat structures ++ [line_1]) ++ ext).
      { rewrite concat_app. cbn. rewrite app_nil_r.
        now rewrite <- app_assoc. }
      rewrite <- Hconcat in Hrun.
      refine (IH Hrest (structures ++ [new]) _ _ _ out v Hrun).
      { now rewrite Hconcat. }
      { rewrite Hconcat. intros x Hx. apply in_app_or in Hx.
        destruct Hx as [Hx | Hx]; [|now apply Hincl1].
        apply in_app_or in Hx. destruct Hx as [Hx | [<- | []]]; auto. }
      destruct Hcomp as [Hsame Hshape]. split.
      * intros s a b Hs Ha Hb Hadj. apply in_app_or in Hs.
        destruct Hs as [Hs | [<- | []]]; [now apply (Hsame s a b)|].
        assert (Hbv : In b ((List.concat structures ++ [line_1]) ++ ext)).
        { unfold new, Structure.append, Structure.init in Ha.
          cbn [app] in Ha. destruct Ha as [<- | Ha].
          - now apply Hcl1.
          - now apply (Hcle1 a Ha). }
        rewrite <- app_assoc in Hbv. apply in_app_or in Hbv.
        destruct Hbv as [Hbv | Hbv]; [exfalso | exact Hbv].
        assert (Hal : In a lines).
        { unfold new, Structure.append, Structure.init in Ha.
          cbn [app] in Ha. destruct Ha as [<- | Ha]; auto. }
        rewrite isAdjacent_sym in Hadj.
        apply in_concat in Hbv. destruct Hbv as (s' & Hs' & Hbs').
        pose proof (Hsame s' b a Hs' Hbs' Hal Hadj) as Has'.
        assert (Hac : In a (List.concat structures))
          by (apply in_concat; eauto).
        rewrite <- app_assoc in Hnd1.
        revert Hnd1 Hac Ha. clear.
        unfold new, Structure.append, Structure.init. cbn [app].
        intros Hnd Hac Ha.
        induction (List.concat structures) as [|x l IHl];
          [destruct Hac|].
        cbn [app] in Hnd. inversion Hnd as [|? ? Hx Hl]; subst.
        destruct Hac as [-> | Hac]; [|now apply IHl].
        apply Hx. apply in_or_app. now right.
      * intros s Hs. apply in_app_or in Hs.
        destruct Hs as [Hs | [<- | []]]; [now apply Hshape|].
        split; [|exact Hlink1]. unfold new, Structure.append. cbn. discriminate.
Qed.

Lemma groupAdjacentLines_components (structures : list Structure.t) :
  groupAdjacentLines h lines delta = Ok structures ->
  components structures /\ incl (List.concat structures) lines.
Proof.
  unfold groupAdjacentLines. intros Hrun.
  destruct (@groupAdjacentLines_loop h lines delta lines (incl_refl lines) [])
    as (out & Hloop & _ & Hincl & _); [constructor | intros x [] |].
  cbn [List.concat] in Hloop. rewrite Hloop in Hrun. cbn [bind] in Hrun.
  injection Hrun as <-. split; [|exact Hincl].
  apply (@groupAdjacentLines_loop_components lines (incl_refl lines) [])
    with (v := List.concat out).
  - constructor.
  - intros x [].
  - split; [intros s a b [] | intros s []].
  - exact Hloop.
Qed.

(** X19.  A structure returned by [groupAdjacentLines] is closed under
    adjacency: an input segment adjacent to a member of the structure is a
    member of that same structure. *)
Theorem groupAdjacentLines_closed (structures : list Structure.t)
        (s : Structure.t) (a b : loc) :
  groupAdjacentLines h lines delta = Ok structures ->
  In s structures -> In a s -> In b lines ->
  isAdjacent (h a) (h b) delta = true ->
  In b s.
Proof.
  intros Hrun Hs Ha Hb Hadj.
  apply groupAdjacentLines_components in Hrun.
  destruct Hrun as [[Hsame _] _]. now apply (Hsame s a b).
Qed.

(** X20.  No structure returned by [groupAdjacentLines] is empty, and
    every member of a structure but its first is adjacent to a member that
    stands before it in the structure. *)
Theorem groupAdjacentLines_linked (structures : list Structure.t)
        (s : Structure.t) :
  groupAdjacentLines h lines delta = Ok structures ->
  In s structures ->
  s <> []
  /\ forall s1 e s2,
       s = s1 ++ e :: s2 -> s1 <> [] ->
       exists p, In p s1 /\ isAdjacent (h p) (h e) delta = true.
Proof.
  intros Hrun Hs. apply groupAdjacentLines_components in Hrun.
  destruct Hrun as [[_ Hshape] _]. now apply Hshape.
Qed.

(** Two input segments are connected when a chain of adjacent input
    segments leads from one to the other. *)
Definition connected : loc -> loc -> Prop :=
  clos_refl_sym_trans loc
    (fun x y => In x lines /\ In y lines
                /\ isAdjacent (h x) (h y) delta = true).

Lemma linked_connected (s : list loc) (first : loc) (tail : list loc) :
  s = first :: tail -> incl s lines -> linked h delta s ->
  forall n s1 e s2,
    (List.length s1 <= n)%nat -> s = s1 ++ e :: s2 -> connected first e.
Proof.
  intros Hs Hincl Hlink. induction n as [|n IH]; intros s1 e s2 Hlen Heq.
  - destruct s1; [|cbn in Hlen; lia]. cbn [app] in Heq.
    rewrite Hs in Heq. injection Heq as -> _. apply rst_refl.
  - destruct s1 as [|x s1].
    { cbn [app] in Heq. rewrite Hs in Heq. injection Heq as -> _.
      apply rst_refl. }
    destruct (Hlink (x :: s1) e s2 Heq) as (p & Hp & Hadj); [discriminate|].
    apply in_split in Hp. destruct Hp as (t1 & t2 & Hsplit).
    apply rst_trans with (y := p).
    + apply (IH t1 p (t2 ++ e :: s2)).
      * assert (Hl : List.length (x :: s1)
                     = (List.length t1 + S (List.length t2))%nat).
        { rewrite Hsplit, length_app. reflexivity. }
        lia.
      * rewrite Heq, Hsplit, <- app_assoc. reflexivity.
    + apply rst_step. split; [|split; [|exact Hadj]].
      * apply Hincl. rewrite Heq, Hsplit. apply in_or_app. left.
        apply in_or_app. right. now left.
      * apply Hincl. rewrite Heq. apply in_or_app. right. now left.
Qed.

(** X21.  The structures are the connected components of the adjacency
    relation: a segment is in the structure of [a] exactly when a chain of
    adjacent input segments connects it with [a]. *)
Theorem groupAdjacentLines_connected_components
        (structures : list Structure.t) (s : Structure.t) (a b : loc) :
  groupAdjacentLines h lines delta = Ok structures ->
  In s structures -> In a s ->
  (In b s <-> connected a b).
Proof.
  intros Hrun Hs Ha. apply groupAdjacentLines_components in Hrun.
  destruct Hrun as [[Hsame Hshape] Hincl]. split.
  - intros Hb. destruct (Hshape s Hs) as [Hne Hlink].
    destruct s as [|first tail] eqn:Es; [congruence|]. rewrite <- Es in *.
    assert (Hsl : incl s lines).
    { intros x Hx. apply Hincl. apply in_concat. eauto. }
    assert (Hall : forall e, In e s -> connected first e).
    { intros e He. apply in_split in He. destruct He as (s1 & s2 & Heq).
      now apply (@linked_connected s first tail Es Hsl Hlink
                   (List.length s1) s1 e s2). }
    apply rst_trans with (y := first);
      [apply rst_sym|]; now apply Hall.
  - intros Hconn. revert Ha.
    assert (Hiff : In a s <-> In b s); [|now apply Hiff].
    clear Hshape Hincl. induction Hconn as [x y (Hx & Hy & Hadj) | x
                                            | x y _ IH | x y z _ IH1 _ IH2].
    + split; intros Hin.
      * now apply (Hsame s x y).
      * rewrite isAdjacent_sym in Hadj. now apply (Hsame s y x).
    + reflexivity.
    + symmetry. exact IH.
    + rewrite IH1. exact IH2.
Qed.

End GroupingComponents.

(** In the fork example, [delta = 2] links the point 2 to the line 0 and the
    run 1 to the point: run and line share a structure though they are not
    adjacent. *)
Lemma groupAdjacentLines_closed_witness :
  groupAdjacentLines fork_heap [0; 1; 2]%nat 2 = Ok [[0; 2; 1]]%nat
  /\ In 1%nat [0; 2; 1]%nat.
Proof.
  assert (Hrun : groupAdjacentLines fork_heap [0; 1; 2]%nat 2
                 = Ok [[0; 2; 1]]%nat) by (vm_compute; reflexivity).
  split; [exact Hrun|].
  apply (@groupAdjacentLines_closed fork_heap [0; 1; 2]%nat 2
           [[0; 2; 1]]%nat [0; 2; 1]%nat 2%nat 1%nat Hrun).
  - now left.
  - right. now left.
  - right. now left.
  - vm_compute. reflexivity.
Defined.

Lemma groupAdjacentLines_linked_witness :
  exists p, In p [0; 2]%nat
            /\ isAdjacent (fork_heap p) (fork_heap 1%nat) 2 = true.
Proof.
  assert (Hrun : groupAdjacentLines fork_heap [0; 1; 2]%nat 2
                 = Ok [[0; 2; 1]]%nat) by (vm_compute; reflexivity).
  destruct (@groupAdjacentLines_linked fork_heap [0; 1; 2]%nat 2
              [[0; 2; 1]]%nat [0; 2; 1]%nat Hrun) as [_ Hlink];
    [now left|].
  apply (Hlink [0; 2]%nat 1%nat []); [reflexivity | discriminate].
Defined.

Lemma groupAdjacentLines_connected_components_witness :
  isAdjacent (fork_heap 0%nat) (fork_heap 1%nat) 2 = false
  /\ connected fork_heap [0; 1; 2]%nat 2 0%nat 1%nat.
Proof.
  split; [vm_compute; reflexivity|].
  assert (Hrun : groupAdjacentLines fork_heap [0; 1; 2]%nat 2
                 = Ok [[0; 2; 1]]%nat) by (vm_compute; reflexivity).
  apply (@groupAdjacentLines_connected_components fork_heap [0; 1; 2]%nat 2
           [[0; 2; 1]]%nat [0; 2; 1]%nat 0%nat 1%nat Hrun).
  - now left.
  - now left.
  - right. right. now left.
Defined.

(* ================================================================== *)
(** ** Tracing stays on the image *)

(** Column [x], row [y] is a line pixel of the image. *)
Definition line_pixel (img : image) (isLineColor : Z -> bool) (x y : Z)
  : Prop :=
  in_bounds img x y /\ isLineColor (item img y x) = true.

(** Both endpoints of the segment are line pixels of the image. *)
Definition on_line (img : image) (isLineColor : Z -> bool)
           (seg : LineSegment.t) : Prop :=
  line_pixel img isLineColor (LineSegment.x_start seg) (LineSegment.y_start seg)
  /\ line_pixel img isLineColor (LineSegment.x_end seg) (LineSegment.y_end seg).

Lemma for_each_invariant {A S : Type} (P : S -> Prop) (xs : list A)
      (body : A -> S -> res S) :
  (forall x s, In x xs -> P s -> exists s', body x s = Ok s' /\ P s') ->
  forall s, P s -> exists s', for_each xs body s = Ok s' /\ P s'.
Proof.
  induction xs as [|x xs IH]; intros Hbody s Hs; cbn [for_each].
  - now exists s.
  - destruct (Hbody x s) as (s1 & -> & Hs1); [now left | assumption|].
    cbn [bind]. apply IH; [|assumption].
    intros y s0 Hy. apply Hbody. now right.
Qed.

Section TracingSafe.

Variable img : image.
Variable isLineColor : Z -> bool.

Lemma findHorizontalPositiveSegment_line (x y : Z) :
  line_pixel img isLineColor x y ->
  exists x_end,
    findHorizontalPositiveSegment img x y isLineColor = Ok (x_end, y)
    /\ x <= x_end /\ line_pixel img isLineColor x_end y.
Proof.
  intros [[Hx Hy] Hc]. unfold findHorizontalPositiveSegment.
  destruct (@findHorizontalPositiveSegment_while_spec img isLineColor y Hy
              (Z.to_nat (shape1 img - x)) x)
    as (l' & -> & Hle & Hup & Hrun & Hstop); [lia | lia |].
  cbn [bind]. exists (l' - 1). split; [reflexivity|].
  assert (Hlt : x < l').
  { destruct (Z.eq_dec l' x) as [-> | Hne]; [|lia].
    rewrite Hstop in Hc by lia. discriminate. }
  split; [lia|]. split; [split; lia|]. apply Hrun. lia.
Qed.

Lemma findHorizontalNegativeSegment_line (x y : Z) :
  line_pixel img isLineColor x y ->
  exists x_end,
    findHorizontalNegativeSegment img x y isLineColor = Ok (x_end, y)
    /\ x_end <= x /\ line_pixel img isLineColor x_end y.
Proof.
  intros [[Hx Hy] Hc]. unfold findHorizontalNegativeSegment.
  destruct (@findHorizontalNegativeSegment_while_spec img isLineColor y Hy
              (Z.to_nat (x + 1)) x)
    as (l' & -> & Hle & Hlow & Hrun & Hstop); [lia | lia |].
  cbn [bind]. exists (l' + 1). split; [reflexivity|].
  assert (Hlt : l' < x).
  { destruct (Z.eq_dec l' x) as [-> | Hne]; [|lia].
    rewrite Hstop in Hc by lia. discriminate. }
  split; [lia|]. split; [split; lia|]. apply Hrun. lia.
Qed.

Lemma findVerticalSegment_line (x y : Z) :
  line_pixel img isLineColor x y ->
  exists y_end,
    findVerticalSegment img x y isLineColor = Ok (x, y_end)
    /\ y <= y_end /\ line_pixel img isLineColor x y_end.
Proof.
  intros [[Hx Hy] Hc]. unfold findVerticalSegment.
  destruct (@findVerticalSegment_while_spec img isLineColor x Hx
              (Z.to_nat (shape0 img - y)) y)
    as (l' & -> & Hle & Hup & Hrun & Hstop); [lia | lia |].
  cbn [bind]. exists (l' - 1). split; [reflexivity|].
  assert (Hlt : y < l').
  { destruct (Z.eq_dec l' y) as [-> | Hne]; [|lia].
    rewrite Hstop in Hc by lia. discriminate. }
  split; [lia|]. split; [split; lia|]. apply Hrun. lia.
Qed.

(** What a handler keeps about its locals between two iterations. *)
Definition sound (o : octant) (st : locals) : Prop :=
  same_shape (visited_matrix st) img
  /\ on_line img isLineColor (lineSegment st)
  /\ match o with
     | Fourth => LineSegment._vertical (lineSegment st) = false
     | Seventh => True
     | FifthAndSixth => LineSegment._vertical (lineSegment st) = true
     end.

(** What an iteration needs of the locals it starts from: the run end
    left by the iteration before is the end of the segment, and before the
    first iteration of a shallow handler the probe of the handler
    succeeds. *)
Definition ready (o : octant) (st : locals) : Prop :=
  let seg := lineSegment st in
  match o with
  | Fourth =>
      match run_end st with
      | None => run_probe LeftDown seg img isLineColor = Ok true
      | Some (x_end, _) => x_end = LineSegment.x_start seg
      end
  | Seventh =>
      match run_end st with
      | None => run_probe RightDown seg img isLineColor = Ok true
      | Some (x_end, _) => x_end = LineSegment.x_end seg
      end
  | FifthAndSixth =>
      x_temp st = LineSegment.x_end seg
      /\ match run_end st with
         | None => False
         | Some (_, y_end) => y_end = LineSegment.y_end seg
         end
  end.

Lemma extension_body_sound (o : octant) (length : Z) (st : locals) :
  1 <= length -> sound o st -> ready o st ->
  exists st',
    extension_body img isLineColor o length (2 * length) st = Ok st'
    /\ sound o st'
    /\ (moreSeg st' = true -> ready o st').
Proof.
  intros Hlen (Hshape & (Hstart & Hend) & Hflag) Hready.
  destruct st as [seg vm xt found more].
  cbn [visited_matrix lineSegment] in Hshape, Hstart, Hend, Hflag.
  unfold ready in Hready. cbn [lineSegment run_end x_temp] in Hready.
  destruct o; cbn [extension_body];
    unfold handleFourthOctant_body, handleSeventhOctant_body,
      handleFifthAndSixthOctant_body;
    cbn [lineSegment run_end moreSeg visited_matrix x_temp].
  - (* Fourth *)
    change (LineSegment.isNextPixelLeftDown seg img isLineColor)
      with (run_probe LeftDown seg img isLineColor).
    destruct (run_probe_total LeftDown seg img isLineColor) as ([|] & Hp).
    + rewrite Hp. cbn [bind].
      apply run_probe_true in Hp. cbn [probed_pixel] in Hp.
      rewrite Hflag in Hp. cbn [fst snd] in Hp.
      destruct (@findHorizontalNegativeSegment_line
                  (LineSegment.x_start seg - 1) (LineSegment.y_start seg + 1))
        as (x_end & -> & Hle & Hpix); [exact Hp|].
      cbn [bind].
      match goal with
      | |- context [if ?c then _ else _] => destruct c eqn:Ewin
      end.
      * destruct (@setRowVisited_in_bounds vm img
                    (LineSegment.y_start seg + 1)
                    (LineSegment.x_start seg - 1) x_end Hshape)
          as (vm' & -> & Hshape'); [apply Hp | apply Hpix|].
        cbn [bind]. eexists. split; [reflexivity|].
        split; [|intros _; reflexivity].
        split; [exact Hshape'|]. split; [|exact Hflag].
        split; [exact Hpix | exact Hend].
      * eexists. split; [reflexivity|].
        split; [|intros; discriminate].
        split; [exact Hshape|]. split; [split; assumption | exact Hflag].
    + rewrite Hp. cbn [bind].
      destruct found as [[x_end y_end]|]; [|congruence]. subst x_end.
      match goal with
      | |- context [if ?c then _ else _] => destruct c eqn:Ewin
      end; [zbool; lia|].
      eexists. split; [reflexivity|].
      split; [|intros; discriminate].
      split; [exact Hshape|]. split; [split; assumption | exact Hflag].
  - (* Seventh *)
    change (LineSegment.isNextPixelRightDown seg img isLineColor)
      with (run_probe RightDown seg img isLineColor).
    destruct (run_probe_total RightDown seg img isLineColor) as ([|] & Hp).
    + rewrite Hp. cbn [bind].
      apply run_probe_true in Hp. cbn [probed_pixel fst snd] in Hp.
      destruct (@findHorizontalPositiveSegment_line
                  (LineSegment.x_end seg + 1) (LineSegment.y_end seg + 1))
        as (x_end & -> & Hle & Hpix); [exact Hp|].
      cbn [bind].
      match goal with
      | |- context [if ?c then _ else _] => destruct c eqn:Ewin
      end.
      * destruct (@setRowVisited_in_bounds vm img
                    (LineSegment.y_end seg + 1)
                    (LineSegment.x_end seg + 1) x_end Hshape)
          as (vm' & -> & Hshape'); [apply Hp | apply Hpix|].
        cbn [bind]. eexists. split; [reflexivity|].
        split; [|intros _; reflexivity].
        split; [exact Hshape'|]. split; [|exact I].
        split; [exact Hstart | exact Hpix].
      * eexists. split; [reflexivity|].
        split; [|intros; discriminate].
        split; [exact Hshape|]. split; [split; assumption | exact I].
    + rewrite Hp. cbn [bind].
      destruct found as [[x_end y_end]|]; [|congruence]. subst x_end.
      match goal with
      | |- context [if ?c then _ else _] => destruct c eqn:Ewin
      end; [zbool; lia|].
      eexists. split; [reflexivity|].
      split; [|intros; discriminate].
      split; [exact Hshape|]. split; [split; assumption | exact I].
  - (* FifthAndSixth *)
    destruct Hready as [Hxt Hfound]. subst xt.
    destruct found as [[x_end0 y_end0]|]; [|contradiction]. subst y_end0.
    change (LineSegment.isNextPixelLeftDown seg img isLineColor)
      with (run_probe LeftDown seg img isLineColor).
    change (LineSegment.isNextPixelRightDown seg img isLineColor)
      with (run_probe RightDown seg img isLineColor).
    assert (Hstep : forall x,
      line_pixel img isLineColor x (LineSegment.y_end seg + 1) ->
      exists st',
        ('(x_temp', found, more0) <-
           (xy <- findVerticalSegment img x (LineSegment.y_end seg + 1)
                    isLineColor ;;
            Ok (x, Some xy, more)) ;;
         match found with
         | None => Raise UnboundLocalError
         | Some (x_end, y_end) =>
             let lengthY := (y_end - (LineSegment.y_end seg + 1)) + 1 in
             if (lengthY >=? length) && (lengthY <=? 2 * length) then
               vm' <- VisitedMatrix.setColumnVisited vm x_temp'
                        (LineSegment.y_end seg + 1) y_end ;;
               Ok (mk_locals (LineSegment.setEndCoordinate seg x_end y_end)
                             vm' x_temp' found more0)
             else Ok (mk_locals seg vm x_temp' found false)
         end) = Ok st'
        /\ sound FifthAndSixth st'
        /\ (moreSeg st' = true -> ready FifthAndSixth st')).
    { intros x Hpx.
      destruct (@findVerticalSegment_line x (LineSegment.y_end seg + 1) Hpx)
        as (y_end & -> & Hle & Hpix).
      cbn [bind].
      match goal with
      | |- context [if ?c then _ else _] => destruct c eqn:Ewin
      end.
      - destruct (@setColumnVisited_in_bounds vm img x
                    (LineSegment.y_end seg + 1) y_end Hshape)
          as (vm' & -> & Hshape'); [apply Hpx | apply Hpix|].
        cbn [bind]. eexists. split; [reflexivity|].
        split; [|intros _; split; reflexivity].
        split; [exact Hshape'|]. split; [|exact Hflag].
        split; [exact Hstart | exact Hpix].
      - eexists. split; [reflexivity|].
        split; [|intros; discriminate].
        split; [exact Hshape|]. split; [split; assumption | exact Hflag]. }
    destruct (run_probe_total LeftDown seg img isLineColor) as ([|] & Hl).
    + rewrite Hl. cbn [bind].
      apply run_probe_true in Hl. cbn [probed_pixel] in Hl.
      rewrite Hflag in Hl. cbn [fst snd] in Hl.
      apply (Hstep (LineSegment.x_end seg - 1)). exact Hl.
    + rewrite Hl. cbn [bind].
      destruct (run_probe_total RightDown seg img isLineColor) as ([|] & Hr).
      * rewrite Hr. cbn [bind].
        apply run_probe_true in Hr. cbn [probed_pixel fst snd] in Hr.
        apply (Hstep (LineSegment.x_end seg + 1)). exact Hr.
      * rewrite Hr. cbn [bind].
        match goal with
        | |- context [if ?c then _ else _] => destruct c eqn:Ewin
        end; [zbool; lia|].
        eexists. split; [reflexivity|].
        split; [|intros; discriminate].
        split; [exact Hshape|]. split; [split; assumption | exact Hflag].
Qed.

Lemma while_moreSeg_sound (o : octant) (length : Z) (fuel : nat) :
  1 <= length ->
  forall st,
    sound o st -> (moreSeg st = true -> ready o st) ->
    while_moreSeg fuel (extension_body img isLineColor o length (2 * length))
      st = OutOfFuel
    \/ exists st',
         while_moreSeg fuel
           (extension_body img isLineColor o length (2 * length)) st = Ok st'
         /\ sound o st'.
Proof.
  intros Hlen. induction fuel as [|fuel IH]; intros st Hsound Hready;
    cbn [while_moreSeg]; destruct (moreSeg st) eqn:Hmore;
    try (right; now exists st); [now left|].
  destruct (extension_body_sound Hlen Hsound (Hready eq_refl))
    as (st1 & -> & Hsound1 & Hready1).
  cbn [bind]. now apply IH.
Qed.

Lemma handler_loop_sound (o : octant) (length : Z) (st : locals) :
  1 <= length -> sound o st -> ready o st ->
  exists st',
    while_moreSeg (extension_fuel img)
      (extension_body img isLineColor o length (2 * length)) st = Ok st'
    /\ sound o st'.
Proof.
  intros Hlen Hsound Hready.
  destruct (@while_moreSeg_sound o length (extension_fuel img) Hlen st Hsound)
    as [Hout | Hok]; [auto | | exact Hok].
  exfalso. revert Hout. now apply while_moreSeg_extension_fuel.
Qed.

Lemma handleSeventhOctant_sound (seg : LineSegment.t) (vm : VisitedMatrix.t) :
  same_shape vm img -> on_line img isLineColor seg ->
  LineSegment.isNextPixelRightDown seg img isLineColor = Ok true ->
  exists seg' vm',
    handleSeventhOctant img isLineColor seg vm = Ok (seg', vm')
    /\ on_line img isLineColor seg' /\ same_shape vm' img.
Proof.
  intros Hshape Hon Hprobe. unfold handleSeventhOctant.
  destruct (@handler_loop_sound Seventh (LineSegment.getXLength seg)
              (mk_locals seg vm 0 None true))
    as (st' & Hrun & Hshape' & Hon' & _).
  - apply (reference_length_pos Seventh).
  - split; [exact Hshape|]. split; [exact Hon | exact I].
  - exact Hprobe.
  - cbn [extension_body] in Hrun. rewrite Hrun. cbn [bind].
    eexists _, _. split; [reflexivity|]. now split.
Qed.

Lemma handleFourthOctant_sound (seg : LineSegment.t) (vm : VisitedMatrix.t) :
  same_shape vm img -> on_line img isLineColor seg ->
  LineSegment._vertical seg = false ->
  LineSegment.isNextPixelLeftDown seg img isLineColor = Ok true ->
  exists seg' vm',
    handleFourthOctant img isLineColor seg vm = Ok (seg', vm')
    /\ on_line img isLineColor seg' /\ same_shape vm' img.
Proof.
  intros Hshape Hon Hflag Hprobe. unfold handleFourthOctant.
  destruct (@handler_loop_sound Fourth (LineSegment.getXLength seg)
              (mk_locals seg vm 0 None true))
    as (st' & Hrun & Hshape' & Hon' & _).
  - apply (reference_length_pos Fourth).
  - split; [exact Hshape|]. split; [exact Hon | exact Hflag].
  - exact Hprobe.
  - cbn [extension_body] in Hrun. rewrite Hrun. cbn [bind].
    eexists _, _. split; [reflexivity|]. now split.
Qed.

Lemma handleFourthAndSeventhOctant_sound (seg : LineSegment.t)
      (vm : VisitedMatrix.t) :
  same_shape vm img ->
  line_pixel img isLineColor (LineSegment.x_start seg)
             (LineSegment.y_start seg) ->
  LineSegment._vertical seg = false ->
  exists seg' vm',
    handleFourthAndSeventhOctant img isLineColor seg vm = Ok (seg', vm')
    /\ on_line img isLineColor seg' /\ same_shape vm' img.
Proof.
  intros Hshape Hseed Hflag. unfold handleFourthAndSeventhOctant.
  destruct (findHorizontalPositiveSegment_line Hseed)
    as (x_end & -> & Hle & Hpix).
  cbn [bind].
  set (seg1 := LineSegment.setEndCoordinate seg x_end (LineSegment.y_start seg)).
  assert (Hon : on_line img isLineColor seg1) by (split; assumption).
  destruct (@setRowVisited_in_bounds vm img (LineSegment.y_start seg)
              (LineSegment.x_start seg1) x_end Hshape)
    as (vm1 & -> & Hshape1); [apply Hseed | apply Hpix|].
  cbn [bind].
  change (LineSegment.isNextPixelRightDown seg1 img isLineColor)
    with (run_probe RightDown seg1 img isLineColor).
  change (LineSegment.isNextPixelLeftDown seg1 img isLineColor)
    with (run_probe LeftDown seg1 img isLineColor).
  destruct (run_probe_total RightDown seg1 img isLineColor) as ([|] & Hr);
    rewrite Hr; cbn [bind].
  - now apply handleSeventhOctant_sound.
  - destruct (run_probe_total LeftDown seg1 img isLineColor) as ([|] & Hl);
      rewrite Hl; cbn [bind].
    + now apply handleFourthOctant_sound.
    + eexists _, _. split; [reflexivity|]. now split.
Qed.

Lemma handleFifthAndSixthOctant_sound (seg : LineSegment.t)
      (vm : VisitedMatrix.t) :
  same_shape vm img ->
  line_pixel img isLineColor (LineSegment.x_start seg)
             (LineSegment.y_start seg) ->
  LineSegment._vertical seg = true ->
  exists seg' vm',
    handleFifthAndSixthOctant img isLineColor seg vm = Ok (seg', vm')
    /\ on_line img isLineColor seg' /\ same_shape vm' img.
Proof.
  intros Hshape Hseed Hflag.
  unfold handleFifthAndSixthOctant, handleFifthAndSixthOctant_init.
  destruct (findVerticalSegment_line Hseed) as (y_end & -> & Hle & Hpix).
  cbn [bind].
  set (seg1 := LineSegment.setEndCoordinate seg (LineSegment.x_start seg)
                 y_end).
  destruct (@setColumnVisited_in_bounds vm img (LineSegment.x_start seg1)
              (LineSegment.y_start seg1) y_end Hshape)
    as (vm1 & -> & Hshape1); [apply Hseed | apply Hpix|].
  cbn [bind lineSegment].
  destruct (@handler_loop_sound FifthAndSixth (LineSegment.getYLength seg1)
              (mk_locals seg1 vm1 (LineSegment.x_start seg1)
                 (Some (LineSegment.x_start seg, y_end)) true))
    as (st' & Hrun & Hshape' & Hon' & _).
  - apply (reference_length_pos FifthAndSixth).
  - split; [exact Hshape1|]. split; [split; assumption | exact Hflag].
  - split; reflexivity.
  - cbn [extension_body] in Hrun. rewrite Hrun. cbn [bind].
    eexists _, _. split; [reflexivity|]. now split.
Qed.

(** The scan keeps the tracker in the shape of the image and every
    segment it has appended on line pixels. *)
Definition scan_inv (acc : list LineSegment.t * VisitedMatrix.t) : Prop :=
  Forall (on_line img isLineColor) (fst acc) /\ same_shape (snd acc) img.

Lemma findLines_pixel_sound (i j : Z)
      (acc : list LineSegment.t * VisitedMatrix.t) :
  in_bounds img j i -> scan_inv acc ->
  exists acc', findLines_pixel img isLineColor i j acc = Ok acc'
               /\ scan_inv acc'.
Proof.
  intros Hin Hinv. destruct acc as [lines vm].
  destruct Hinv as [Hlines Hshape]. cbn [fst snd] in Hlines, Hshape.
  unfold findLines_pixel.
  rewrite getitem_in_range by apply Hin. cbn [bind].
  destruct (isLineColor (item img i j)) eqn:Hc;
    [|eexists; split; [reflexivity | now split]].
  rewrite isVisited_in_tracker
    by (unfold in_tracker; destruct Hshape as [H0 H1]; rewrite H0, H1;
        exact Hin).
  cbn [bind].
  destruct (marked vm j i); cbn [negb];
    [eexists; split; [reflexivity | now split]|].
  set (seg := LineSegment.mk j i j i false).
  change (LineSegment.isNextPixelBelow seg img isLineColor)
    with (run_probe Below seg img isLineColor).
  assert (Hseed : line_pixel img isLineColor j i) by (now split).
  destruct (run_probe_total Below seg img isLineColor) as ([|] & ->);
    cbn [bind].
  - destruct (@handleFifthAndSixthOctant_sound (LineSegment.setVertical seg)
                vm Hshape Hseed eq_refl)
      as (seg' & vm' & -> & Hon & Hshape').
    cbn [bind]. eexists. split; [reflexivity|]. split; [|exact Hshape'].
    cbn [fst]. apply Forall_app. split; [exact Hlines | now constructor].
  - destruct (@handleFourthAndSeventhOctant_sound seg vm Hshape Hseed eq_refl)
      as (seg' & vm' & -> & Hon & Hshape').
    cbn [bind]. eexists. split; [reflexivity|]. split; [|exact Hshape'].
    cbn [fst]. apply Forall_app. split; [exact Hlines | now constructor].
Qed.

(** X22.  Tracing never raises: on every image and for every predicate
    [_findLines] returns a list of segments, and both endpoints of every
    segment are line pixels of the image.  [findLines] returns their
    coordinate rows. *)
Theorem findLines_on_line :
  exists lines,
    _findLines img isLineColor = Ok lines
    /\ findLines img isLineColor
       = Ok (transformLineSegmentsIntoNumpyArray lines)
    /\ Forall (on_line img isLineColor) lines.
Proof.
  assert (Hscan : exists lines, _findLines img isLineColor = Ok lines
                                /\ Forall (on_line img isLineColor) lines).
  { unfold _findLines.
    destruct (@for_each_invariant _ _ scan_inv (range 0 (shape0 img))
                (fun i acc =>
                   for_each (range 0 (shape1 img))
                     (fun j acc => findLines_pixel img isLineColor i j acc)
                     acc))
      with (s := (@nil LineSegment.t, VisitedMatrix.init img))
      as ([lines vm] & -> & Hlines & _).
    - intros i acc Hi Hacc. apply for_each_invariant; [|exact Hacc].
      intros j acc' Hj Hacc'. apply findLines_pixel_sound; [|exact Hacc'].
      apply in_range_iff in Hi. apply in_range_iff in Hj. split; lia.
    - split; [constructor | split; reflexivity].
    - cbn [bind]. now exists lines. }
  destruct Hscan as (lines & Hrun & Hlines). exists lines.
  split; [exact Hrun|]. split; [|exact Hlines].
  unfold findLines. rewrite Hrun. reflexivity.
Qed.

End TracingSafe.

(* ================================================================== *)
(** ** Merging returns *)

Section MergeReturns.

Variable angle_epsilon : R.
Variable delta : Z.

Lemma combineLines_returns (h : heap) (line_1 line_2 : loc) :
  exists r, combineLines (Some angle_epsilon) delta h line_1 line_2 = Ok r.
Proof.
  unfold combineLines.
  destruct (negb (LineSegment.isPoint (h line_1))
            && negb (LineSegment.isPoint (h line_2))).
  - unfold haveEqualSlope.
    destruct (computeAngle_total (h line_1) (h line_2)) as (a & -> & _).
    cbn [bind]. repeat case_test; eexists; reflexivity.
  - cbn [bind]. repeat case_test; eexists; reflexivity.
Qed.

Lemma set_nth_keeps (s : Structure.t) (k k' : nat) (v line : loc) :
  k' <> k -> nth_error s k' = Some line ->
  In line (Structure.set_nth s k v).
Proof.
  intros Hne Hnth.
  assert (Hlt : (k' < List.length s)%nat)
    by (apply nth_error_Some; congruence).
  rewrite <- (nth_error_nth s k' 0%nat Hnth).
  rewrite <- (@set_nth_nth_other s k k' v 0%nat Hne).
  apply nth_In. now rewrite Structure_set_nth_length.
Qed.

Lemma combineLinesWithEqualSlope_for_returns (structure : Structure.t)
      (i : Z) (line_1 : loc) (js : list Z) :
  0 <= i < Structure.len structure ->
  (forall j, In j js -> 0 <= j < Structure.len structure /\ j <> i) ->
  forall h,
    exists r,
      combineLinesWithEqualSlope_for (Some angle_epsilon) delta h structure i
        line_1 js = Ok r.
Proof.
  intros Hi. induction js as [|j rest IH]; intros Hjs h;
    cbn [combineLinesWithEqualSlope_for]; [eexists; reflexivity|].
  destruct (Hjs j) as [Hj Hne]; [now left|].
  destruct (Structure_getitem_in_range structure Hj) as (line_2 & -> & Hnth).
  cbn [bind].
  destruct (combineLines_returns h line_1 line_2) as ([h' [c|]] & ->);
    cbn [bind].
  - unfold Structure.setitem. rewrite axis_index_in_range by exact Hi.
    cbn [bind].
    destruct (@Structure_remove_In
                (Structure.set_nth structure (Z.to_nat i) c) line_2)
      as (s' & -> & _).
    { apply set_nth_keeps with (k' := Z.to_nat j); [lia | exact Hnth]. }
    cbn [bind]. eexists. reflexivity.
  - apply IH. intros j' Hj'. apply Hjs. now right.
Qed.

Lemma combineLinesWithEqualSlope_Rec_returns (fuel : nat) :
  forall (i : Z) (structure : Structure.t) (h : heap),
    0 <= i ->
    combineLinesWithEqualSlope_Rec (Some angle_epsilon) delta fuel i
      structure h = OutOfFuel
    \/ exists r,
         combineLinesWithEqualSlope_Rec (Some angle_epsilon) delta fuel i
           structure h = Ok r.
Proof.
  induction fuel as [|fuel IH]; intros i structure h Hi;
    cbn [combineLinesWithEqualSlope_Rec]; [now left|].
  destruct (Structure.len structure >? i) eqn:Elen;
    [|right; eexists; reflexivity].
  zbool.
  destruct (@Structure_getitem_in_range structure i) as (line_1 & -> & _);
    [lia|].
  cbn [bind].
  destruct (@combineLinesWithEqualSlope_for_returns structure i line_1
              (range (i + 1) (Structure.len structure)))
    with (h := h) as ([h' [structure'|]] & ->); [lia | |  | ].
  - intros j Hj. apply in_range_iff in Hj. lia.
  - cbn [bind]. now apply IH.
  - cbn [bind]. apply IH. lia.
Qed.

(** X23.  With an [angle_epsilon], merging never raises:
    [combineLinesWithEqualSlope] returns a store and a list of structures
    for every list of structures and every store. *)
Theorem combineLinesWithEqualSlope_returns (structures : list Structure.t)
        (h : heap) :
  exists h' out,
    combineLinesWithEqualSlope (Some angle_epsilon) delta structures h
    = Ok (h', out).
Proof.
  unfold combineLinesWithEqualSlope.
  destruct (@for_each_invariant _ _ (fun _ => True) structures
              (combineLinesWithEqualSlope_body (Some angle_epsilon) delta))
    with (s := (h, @nil Structure.t)) as ([h' out] & Hrun & _).
  - intros structure [h0 processed] _ _.
    unfold combineLinesWithEqualSlope_body.
    destruct (@combineLinesWithEqualSlope_Rec_returns (merge_fuel structure)
                0 structure h0) as [Hout | ([h1 s1] & ->)]; [lia | |].
    + exfalso. revert Hout. apply combineLinesWithEqualSlope_Rec_fuel.
      * unfold Structure.len. lia.
      * unfold merge_fuel, Structure.len. lia.
    + cbn [bind]. eexists. split; [reflexivity | exact I].
  - exact I.
  - now exists h', out.
Qed.

End MergeReturns.

(* ================================================================== *)
(** ** Lengths and slope of a segment *)

Open Scope R_scope.

(** X24.  The lengths of a segment count pixels: they do not depend on
    which endpoint is the start, [swapStartEnd] applied twice gives the
    segment back, a segment is a point exactly when both of its lengths are
    1, and [getLineLength] is at least the square root of 2, which is the
    length of a point. *)
Theorem LineSegment_lengths (seg : LineSegment.t) :
  LineSegment.swapStartEnd (LineSegment.swapStartEnd seg) = seg
  /\ LineSegment.getXLength (LineSegment.swapStartEnd seg)
     = LineSegment.getXLength seg
  /\ LineSegment.getYLength (LineSegment.swapStartEnd seg)
     = LineSegment.getYLength seg
  /\ LineSegment.getLineLength (LineSegment.swapStartEnd seg)
     = LineSegment.getLineLength seg
  /\ (LineSegment.isPoint seg = true
      <-> (LineSegment.getXLength seg = 1 /\ LineSegment.getYLength seg = 1)%Z)
  /\ sqrt 2 <= LineSegment.getLineLength seg
  /\ (LineSegment.getLineLength seg = sqrt 2
      <-> LineSegment.isPoint seg = true).
Proof.
  assert (Hx : LineSegment.getXLength (LineSegment.swapStartEnd seg)
               = LineSegment.getXLength seg).
  { unfold LineSegment.getXLength. destruct seg. cbn. lia. }
  assert (Hy : LineSegment.getYLength (LineSegment.swapStartEnd seg)
               = LineSegment.getYLength seg).
  { unfold LineSegment.getYLength. destruct seg. cbn. lia. }
  assert (Hpoint : LineSegment.isPoint seg = true
                   <-> (LineSegment.getXLength seg = 1
                        /\ LineSegment.getYLength seg = 1)%Z).
  { unfold LineSegment.isPoint, LineSegment.getXLength,
      LineSegment.getYLength.
    rewrite andb_true_iff, !Z.eqb_eq. lia. }
  assert (Hxpos : (1 <= LineSegment.getXLength seg)%Z)
    by (unfold LineSegment.getXLength; lia).
  assert (Hypos : (1 <= LineSegment.getYLength seg)%Z)
    by (unfold LineSegment.getYLength; lia).
  assert (Hsq : (2 <= LineSegment.getXLength seg ^ 2
                      + LineSegment.getYLength seg ^ 2)%Z) by nia.
  split; [destruct seg; reflexivity|].
  split; [exact Hx|]. split; [exact Hy|].
  split; [unfold LineSegment.getLineLength; now rewrite Hx, Hy|].
  split; [exact Hpoint|].
  unfold LineSegment.getLineLength. split.
  - apply sqrt_le_1_alt. apply IZR_le in Hsq. exact Hsq.
  - rewrite Hpoint. split.
    + intros Heq. apply sqrt_inj in Heq; [|apply IZR_le; lia | lra].
      apply eq_IZR in Heq. nia.
    + intros [-> ->]. reflexivity.
Qed.

Lemma IZR_0_eq (z : Z) : 0 = IZR z <-> z = 0%Z.
Proof.
  split; [|now intros ->].
  intros H. symmetry in H. now apply eq_IZR in H.
Qed.

(** X25.  [computeSlope] returns [None] exactly for the segments whose two
    endpoints share a column (points and vertical segments), 0 exactly for
    the horizontal segments that are no points, and the same value for a
    segment and for the segment with start and end swapped. *)
Theorem computeSlope_spec (seg : LineSegment.t) :
  (computeSlope seg = None
   <-> LineSegment.x_start seg = LineSegment.x_end seg)
  /\ (computeSlope seg = Some 0
      <-> (LineSegment.y_start seg = LineSegment.y_end seg
           /\ LineSegment.x_start seg <> LineSegment.x_end seg))
  /\ computeSlope (LineSegment.swapStartEnd seg) = computeSlope seg.
Proof.
  destruct seg as [xs ys xe ye v].
  unfold computeSlope, LineSegment.isPoint. seg_simpl.
  split; [|split].
  - destruct ((0 =? xe - xs)%Z && (0 =? ye - ys)%Z) eqn:Ep.
    + zbool. split; [lia | reflexivity].
    + destruct (Req_dec_T 0 (IZR (ye - ys))) as [Hy | Hy].
      * apply IZR_0_eq in Hy. split; [discriminate|].
        intros ->. apply andb_false_iff in Ep.
        destruct Ep as [Ep | Ep]; apply Z.eqb_neq in Ep; lia.
      * destruct (Req_dec_T 0 (IZR (xe - xs))) as [Hx | Hx].
        -- apply IZR_0_eq in Hx. split; [lia | reflexivity].
        -- split; [discriminate|]. intros ->. exfalso. apply Hx.
           apply IZR_0_eq. lia.
  - destruct ((0 =? xe - xs)%Z && (0 =? ye - ys)%Z) eqn:Ep.
    + zbool. split; [discriminate | lia].
    + destruct (Req_dec_T 0 (IZR (ye - ys))) as [Hy | Hy].
      * apply IZR_0_eq in Hy. split; [|reflexivity].
        intros _. apply andb_false_iff in Ep.
        destruct Ep as [Ep | Ep]; apply Z.eqb_neq in Ep; lia.
      * assert (Hyz : (ye - ys <> 0)%Z)
          by (intros E; apply Hy; now apply IZR_0_eq).
        destruct (Req_dec_T 0 (IZR (xe - xs))) as [Hx | Hx].
        -- split; [discriminate | lia].
        -- split; [|lia]. intros [= Hq]. exfalso.
           apply Hy. symmetry.
           apply Rmult_eq_reg_r with (r := / IZR (xe - xs));
             [|apply Rinv_neq_0_compat; auto].
           unfold Rdiv in Hq. rewrite Hq. ring.
  - replace ((0 =? xs - xe)%Z && (0 =? ys - ye)%Z)
      with ((0 =? xe - xs)%Z && (0 =? ye - ys)%Z).
    2:{ destruct (0 =? xe - xs)%Z eqn:E1, (0 =? ye - ys)%Z eqn:E2,
          (0 =? xs - xe)%Z eqn:E3, (0 =? ys - ye)%Z eqn:E4;
          zbool; cbn [andb]; try reflexivity; lia. }
    destruct ((0 =? xe - xs)%Z && (0 =? ye - ys)%Z); [reflexivity|].
    replace (ys - ye)%Z with (- (ye - ys))%Z by lia.
    replace (xs - xe)%Z with (- (xe - xs))%Z by lia.
    rewrite !opp_IZR.
    destruct (Req_dec_T 0 (IZR (ye - ys))) as [Hy | Hy],
             (Req_dec_T 0 (- IZR (ye - ys))) as [Hy' | Hy'];
      try reflexivity; try (exfalso; lra).
    destruct (Req_dec_T 0 (IZR (xe - xs))) as [Hx | Hx],
             (Req_dec_T 0 (- IZR (xe - xs))) as [Hx' | Hx'];
      try reflexivity; try (exfalso; lra).
    f_equal. field. lra.
Qed.

(** Segments with the same slope have parallel direction vectors. *)
Lemma computeSlope_parallel (line_1 line_2 : LineSegment.t) :
  LineSegment.isPoint line_1 = false ->
  LineSegment.isPoint line_2 = false ->
  computeSlope line_1 = computeSlope line_2 ->
  ((LineSegment.x_start line_1 - LineSegment.x_end line_1)
   * (LineSegment.y_start line_2 - LineSegment.y_end line_2)
   = (LineSegment.y_start line_1 - LineSegment.y_end line_1)
     * (LineSegment.x_start line_2 - LineSegment.x_end line_2))%Z.
Proof.
  intros H1 H2. unfold computeSlope. rewrite H1, H2.
  destruct line_1 as [xs1 ys1 xe1 ye1 v1], line_2 as [xs2 ys2 xe2 ye2 v2].
  seg_simpl.
  destruct (Req_dec_T 0 (IZR (ye1 - ys1))) as [Hy1 | Hy1],
           (Req_dec_T 0 (IZR (ye2 - ys2))) as [Hy2 | Hy2];
    try destruct (Req_dec_T 0 (IZR (xe1 - xs1))) as [Hx1 | Hx1];
    try destruct (Req_dec_T 0 (IZR (xe2 - xs2))) as [Hx2 | Hx2];
    try (apply IZR_0_eq in Hy1); try (apply IZR_0_eq in Hy2);
    try (apply IZR_0_eq in Hx1); try (apply IZR_0_eq in Hx2);
    intros Heq; try discriminate; try nia.
  - (* 0 = dy2 / dx2 *)
    injection Heq as Heq. exfalso. apply Hy2.
    apply Rmult_eq_reg_r with (r := / IZR (xe2 - xs2));
      [|apply Rinv_neq_0_compat; auto].
    unfold Rdiv in Heq. rewrite <- Heq. ring.
  - (* dy1 / dx1 = 0 *)
    injection Heq as Heq. exfalso. apply Hy1.
    apply Rmult_eq_reg_r with (r := / IZR (xe1 - xs1));
      [|apply Rinv_neq_0_compat; auto].
    unfold Rdiv in Heq. rewrite Heq. ring.
  - (* dy1 / dx1 = dy2 / dx2 *)
    injection Heq as Heq.
    assert (Hcross : IZR (ye1 - ys1) * IZR (xe2 - xs2)
                     = IZR (ye2 - ys2) * IZR (xe1 - xs1)).
    { apply Rmult_eq_reg_r with (r := / IZR (xe1 - xs1) * / IZR (xe2 - xs2)).
      - unfold Rdiv in Heq.
        transitivity (IZR (ye1 - ys1) * / IZR (xe1 - xs1));
          [field; split; auto|].
        rewrite Heq. field. split; auto.
      - apply Rmult_integral_contrapositive.
        split; apply Rinv_neq_0_compat; auto. }
    rewrite <- !mult_IZR in Hcross. apply eq_IZR in Hcross. lia.
Qed.

(** X26.  Two segments, no points, to which [computeSlope] gives the same
    slope are at an angle of 0 or of 180 degrees for [computeAngle]. *)
Theorem computeSlope_equal_angle (line_1 line_2 : LineSegment.t) :
  LineSegment.isPoint line_1 = false ->
  LineSegment.isPoint line_2 = false ->
  computeSlope line_1 = computeSlope line_2 ->
  computeAngle line_1 line_2 = Ok 0 \/ computeAngle line_1 line_2 = Ok 180.
Proof.
  intros H1 H2 Hslope.
  pose proof (computeSlope_parallel line_1 line_2 H1 H2 Hslope) as Hcross.
  set (a_1 := (LineSegment.x_start line_1 - LineSegment.x_end line_1)%Z) in *.
  set (a_2 := (LineSegment.y_start line_1 - LineSegment.y_end line_1)%Z) in *.
  set (b_1 := (LineSegment.x_start line_2 - LineSegment.x_end line_2)%Z) in *.
  set (b_2 := (LineSegment.y_start line_2 - LineSegment.y_end line_2)%Z) in *.
  assert (Ha : (a_1 <> 0 \/ a_2 <> 0)%Z).
  { unfold LineSegment.isPoint in H1. apply andb_false_iff in H1.
    destruct H1 as [H | H]; apply Z.eqb_neq in H; unfold a_1, a_2; lia. }
  assert (Hb : (b_1 <> 0 \/ b_2 <> 0)%Z).
  { unfold LineSegment.isPoint in H2. apply andb_false_iff in H2.
    destruct H2 as [H | H]; apply Z.eqb_neq in H; unfold b_1, b_2; lia. }
  assert (Hdot : (a_1 * b_1 + a_2 * b_2 <> 0)%Z).
  { intros Hdot.
    assert (Hprod : ((a_1 * a_1 + a_2 * a_2) * (b_1 * b_1 + b_2 * b_2) = 0)%Z).
    { replace ((a_1 * a_1 + a_2 * a_2) * (b_1 * b_1 + b_2 * b_2))%Z
        with ((a_1 * b_1 + a_2 * b_2) * (a_1 * b_1 + a_2 * b_2)
              + (a_1 * b_2 - a_2 * b_1) * (a_1 * b_2 - a_2 * b_1))%Z by ring.
      rewrite Hdot, Hcross. ring. }
    clearbody a_1 a_2 b_1 b_2.
    apply Z.mul_eq_0 in Hprod. destruct Hprod; nia. }
  destruct (Z.lt_total 0 (a_1 * b_1 + a_2 * b_2)) as [Hpos | [H0 | Hneg]].
  - left. now apply computeAngle_same_direction.
  - congruence.
  - right. now apply computeAngle_opposite_direction.
Qed.

(** The segments (0,0)-(2,1) and (5,5)-(1,3) have slope 1/2 and opposite
    directions. *)
Lemma computeSlope_equal_angle_witness :
  computeAngle (LineSegment.mk 0 0 2 1 false) (LineSegment.mk 5 5 1 3 false)
  = Ok 0
  \/ computeAngle (LineSegment.mk 0 0 2 1 false)
       (LineSegment.mk 5 5 1 3 false)
     = Ok 180.
Proof.
  apply computeSlope_equal_angle; [reflexivity | reflexivity |].
  unfold computeSlope. cbn [LineSegment.isPoint LineSegment.x_start
    LineSegment.y_start LineSegment.x_end LineSegment.y_end Z.eqb Z.sub
    Z.add Z.opp Z.pos_sub Pos.pred_double andb Z.succ_double Z.pred_double
    Z.double].
  repeat match goal with
         | |- context [Req_dec_T ?a ?b] =>
             destruct (Req_dec_T a b); try (exfalso; lra)
         end.
  f_equal. lra.
Defined.

Close Scope R_scope.

(* ================================================================== *)
(** ** Tracing a single straight run *)

Lemma range_from_app (n k : nat) :
  forall lo,
    range_from lo (n + k) = range_from lo n ++ range_from (lo + Z.of_nat n) k.
Proof.
  induction n as [|n IH]; intros lo.
  - cbn [Nat.add range_from app]. now rewrite Z.add_0_r.
  - cbn [Nat.add range_from app]. rewrite IH. do 3 f_equal. lia.
Qed.

Lemma range_split (lo m hi : Z) :
  lo <= m < hi -> range lo hi = range lo m ++ m :: range (m + 1) hi.
Proof.
  intros Hm. unfold range.
  replace (Z.to_nat (hi - lo))
    with (Z.to_nat (m - lo) + S (Z.to_nat (hi - (m + 1))))%nat by lia.
  rewrite range_from_app. cbn [range_from].
  replace (lo + Z.of_nat (Z.to_nat (m - lo))) with m by lia. reflexivity.
Qed.

Lemma for_each_fixed {A S : Type} (xs : list A) (body : A -> S -> res S)
      (s : S) :
  (forall x, In x xs -> body x s = Ok s) -> for_each xs body s = Ok s.
Proof.
  induction xs as [|x xs IH]; intros Hbody; cbn [for_each]; [reflexivity|].
  rewrite Hbody by now left. cbn [bind]. apply IH.
  intros y Hy. apply Hbody. now right.
Qed.

Lemma in_tracker_same_shape (vm : VisitedMatrix.t) (img : image) (x y : Z) :
  same_shape vm img -> in_bounds img x y -> in_tracker vm x y.
Proof. intros [H0 H1] Hin. unfold in_tracker. now rewrite H0, H1. Qed.

Lemma init_same_shape (img : image) : same_shape (VisitedMatrix.init img) img.
Proof. split; reflexivity. Qed.

Lemma init_unmarked (img : image) (x y : Z) :
  marked (VisitedMatrix.init img) x y = false.
Proof. reflexivity. Qed.

(** The cells that [setRowVisited] and [setColumnVisited] mark when the two
    ends are given in order. *)
Lemma setRowVisited_ordered (vm : VisitedMatrix.t) (img : image)
      (y x1 x2 : Z) :
  same_shape vm img -> in_bounds img x1 y -> in_bounds img x2 y -> x1 <= x2 ->
  exists vm',
    VisitedMatrix.setRowVisited vm y x1 x2 = Ok vm'
    /\ same_shape vm' img
    /\ forall x' y',
        marked vm' x' y'
        = ((y' =? y) && (x1 <=? x') && (x' <=? x2)) || marked vm x' y'.
Proof.
  intros Hshape H1 H2 Hle.
  pose proof (in_tracker_same_shape Hshape H1) as [Hx1 Hy].
  pose proof (in_tracker_same_shape Hshape H2) as [Hx2 _].
  unfold VisitedMatrix.setRowVisited.
  replace (VisitedMatrix.isValidIndice vm x1 y) with true
    by (symmetry; apply isValidIndice_spec; lia).
  replace (VisitedMatrix.isValidIndice vm x2 y) with true
    by (symmetry; apply isValidIndice_spec; lia).
  cbn [andb negb].
  replace (x1 >? x2) with false by (symmetry; rewrite Z.gtb_ltb;
                                    apply Z.ltb_ge; lia).
  destruct (@for_each_setVisited_cells (fun i => (i, y))
              (range x1 (x2 + 1)) vm) as (vm' & Hrun & [E0 E1] & Hm).
  { intros i Hi. apply in_range_iff in Hi. split; cbn; lia. }
  cbn [fst snd] in Hrun. exists vm'. split; [exact Hrun|].
  split; [destruct Hshape; split; congruence|].
  intros x' y'. rewrite Hm. f_equal. cbn [fst snd].
  apply eq_true_iff_eq. rewrite existsb_range, !andb_true_iff. split.
  - intros (i & Hi & Hp). zbool. subst.
    repeat split; try (apply Z.leb_le; lia). apply Z.eqb_refl.
  - intros [[Ey Hlo'] Hhi']. zbool. exists x'. split; [lia|].
    rewrite Z.eqb_refl. cbn. now apply Z.eqb_eq.
Qed.

Lemma setColumnVisited_ordered (vm : VisitedMatrix.t) (img : image)
      (x y1 y2 : Z) :
  same_shape vm img -> in_bounds img x y1 -> in_bounds img x y2 -> y1 <= y2 ->
  exists vm',
    VisitedMatrix.setColumnVisited vm x y1 y2 = Ok vm'
    /\ same_shape vm' img
    /\ forall x' y',
        marked vm' x' y'
        = ((x' =? x) && (y1 <=? y') && (y' <=? y2)) || marked vm x' y'.
Proof.
  intros Hshape H1 H2 Hle.
  pose proof (in_tracker_same_shape Hshape H1) as [Hx Hy1].
  pose proof (in_tracker_same_shape Hshape H2) as [_ Hy2].
  unfold VisitedMatrix.setColumnVisited.
  replace (VisitedMatrix.isValidIndice vm x y1) with true
    by (symmetry; apply isValidIndice_spec; lia).
  replace (VisitedMatrix.isValidIndice vm x y2) with true
    by (symmetry; apply isValidIndice_spec; lia).
  cbn [andb negb].
  replace (y1 >? y2) with false by (symmetry; rewrite Z.gtb_ltb;
                                    apply Z.ltb_ge; lia).
  destruct (@for_each_setVisited_cells (fun i => (x, i))
              (range y1 (y2 + 1)) vm) as (vm' & Hrun & [E0 E1] & Hm).
  { intros i Hi. apply in_range_iff in Hi. split; cbn; lia. }
  cbn [fst snd] in Hrun. exists vm'. split; [exact Hrun|].
  split; [destruct Hshape; split; congruence|].
  intros x' y'. rewrite Hm. f_equal. cbn [fst snd].
  apply eq_true_iff_eq. rewrite existsb_range, !andb_true_iff. split.
  - intros (i & Hi & Hp). zbool. subst.
    repeat split; try (apply Z.leb_le; lia). apply Z.eqb_refl.
  - intros [[Ex Hlo'] Hhi']. zbool. exists y'. split; [lia|].
    rewrite Z.eqb_refl. apply andb_true_iff. split; [now apply Z.eqb_eq|].
    reflexivity.
Qed.

Section SingleRun.

Variable img : image.
Variable isLineColor : Z -> bool.

(** A probe answers [False] when the pixel it tests is no line pixel of
    the image. *)
Lemma run_probe_off_line (p : probe) (seg : LineSegment.t) :
  ~ line_pixel img isLineColor (fst (probed_pixel p seg))
      (snd (probed_pixel p seg)) ->
  run_probe p seg img isLineColor = Ok false.
Proof.
  intros Hoff. rewrite run_probe_eq.
  destruct (probed_pixel p seg) as [x y]. cbn [fst snd] in Hoff.
  destruct (LineSegment.isValidIndice img x y) eqn:E; [|reflexivity].
  apply LineSegment_isValidIndice_spec in E.
  destruct (isLineColor (item img y x)) eqn:Hc; [|reflexivity].
  exfalso. apply Hoff. now split.
Qed.

(** The scan passes over a pixel that is no line pixel or is marked. *)
Lemma findLines_pixel_skip (i j : Z) (lines : list LineSegment.t)
      (vm : VisitedMatrix.t) :
  same_shape vm img -> in_bounds img j i ->
  (isLineColor (item img i j) = true -> marked vm j i = true) ->
  findLines_pixel img isLineColor i j (lines, vm) = Ok (lines, vm).
Proof.
  intros Hshape Hin Hmark. unfold findLines_pixel.
  rewrite getitem_in_range by apply Hin. cbn [bind].
  destruct (isLineColor (item img i j)); [|reflexivity].
  rewrite isVisited_in_tracker by (eapply in_tracker_same_shape; eauto).
  cbn [bind]. now rewrite Hmark.
Qed.

Lemma scan_columns_skip (i lo hi : Z) (lines : list LineSegment.t)
      (vm : VisitedMatrix.t) :
  same_shape vm img -> 0 <= i < shape0 img -> 0 <= lo -> hi <= shape1 img ->
  (forall j, lo <= j < hi ->
             isLineColor (item img i j) = true -> marked vm j i = true) ->
  for_each (range lo hi)
    (fun j acc => findLines_pixel img isLineColor i j acc) (lines, vm)
  = Ok (lines, vm).
Proof.
  intros Hshape Hi Hlo Hhi Hmark. apply for_each_fixed.
  intros j Hj. apply in_range_iff in Hj.
  apply findLines_pixel_skip; [assumption | split; lia | apply Hmark; lia].
Qed.

Lemma scan_rows_skip (lo hi : Z) (lines : list LineSegment.t)
      (vm : VisitedMatrix.t) :
  same_shape vm img -> 0 <= lo -> hi <= shape0 img ->
  (forall i j, lo <= i < hi -> 0 <= j < shape1 img ->
               isLineColor (item img i j) = true -> marked vm j i = true) ->
  for_each (range lo hi)
    (fun i acc =>
       for_each (range 0 (shape1 img))
         (fun j acc => findLines_pixel img isLineColor i j acc) acc)
    (lines, vm)
  = Ok (lines, vm).
Proof.
  intros Hshape Hlo Hhi Hmark. apply for_each_fixed.
  intros i Hi. apply in_range_iff in Hi.
  apply scan_columns_skip; try assumption; try lia.
  intros j Hj. apply Hmark; lia.
Qed.

(** The scan of an image whose line pixels all come at or after the seed
    [(c, r)] in scan order, and are all marked once the seed is traced:
    the segment traced from the seed is the only one. *)
Lemma scan_single_seed (c r : Z) (seg : LineSegment.t)
      (vm1 : VisitedMatrix.t) :
  in_bounds img c r ->
  (forall x y, line_pixel img isLineColor x y -> r < y \/ (y = r /\ c <= x)) ->
  findLines_pixel img isLineColor r c ([], VisitedMatrix.init img)
  = Ok ([seg], vm1) ->
  same_shape vm1 img ->
  (forall x y, line_pixel img isLineColor x y -> marked vm1 x y = true) ->
  _findLines img isLineColor = Ok [seg].
Proof.
  intros [Hc Hr] Hearly Hseed Hshape Hmarks. unfold _findLines.
  rewrite (@range_split 0 r (shape0 img)) by lia.
  rewrite for_each_app.
  rewrite scan_rows_skip; try lia; [|apply init_same_shape|].
  2:{ intros i j Hi Hj Hcol. exfalso.
      destruct (Hearly j i) as [H | [H _]]; [split; [split; lia | exact Hcol]
                                            | lia | lia]. }
  assert (Hrow : for_each (range 0 (shape1 img))
                    (fun j acc => findLines_pixel img isLineColor r j acc)
                    ([], VisitedMatrix.init img)
                  = Ok ([seg], vm1)).
  { rewrite (@range_split 0 c (shape1 img)) by lia.
    rewrite for_each_app.
    rewrite scan_columns_skip; try lia; [|apply init_same_shape|].
    2:{ intros j Hj Hcol. exfalso.
        destruct (Hearly j r) as [H | [_ H]];
          [split; [split; lia | exact Hcol] | lia | lia]. }
    cbn [bind for_each]. rewrite Hseed. cbn [bind].
    apply scan_columns_skip; try lia; try assumption.
    intros j Hj Hcol. apply Hmarks. split; [split; lia | exact Hcol]. }
  cbn [bind for_each]. rewrite Hrow. cbn [bind].
  rewrite scan_rows_skip; try lia; try assumption; [reflexivity|].
  intros i j Hi Hj Hcol. apply Hmarks. split; [split; lia | exact Hcol].
Qed.

(** X27.  An image whose line pixels are exactly the pixels of one
    horizontal run, from column [a] to column [b] of row [r], is traced
    into that one segment; a single line pixel is traced into a point. *)
Theorem findLines_horizontal_run (r a b : Z) :
  0 <= r < shape0 img -> 0 <= a <= b -> b < shape1 img ->
  (forall x y, in_bounds img x y ->
               (isLineColor (item img y x) = true <-> y = r /\ a <= x <= b)) ->
  _findLines img isLineColor = Ok [LineSegment.mk a r b r false]
  /\ findLines img isLineColor = Ok [[a; r; b; r]].
Proof.
  intros Hr Hab Hb Himg.
  assert (Hline : forall x y, line_pixel img isLineColor x y
                              <-> (y = r /\ a <= x <= b)).
  { intros x y. split.
    - intros [Hin Hc]. now apply Himg.
    - intros [-> Hx]. assert (Hin : in_bounds img x r) by (split; lia).
      split; [exact Hin|]. now apply Himg. }
  assert (Hrun : _findLines img isLineColor = Ok [LineSegment.mk a r b r false]).
  { destruct (@setRowVisited_ordered (VisitedMatrix.init img) img r a b)
      as (vm1 & Hset & Hshape1 & Hm1);
      [apply init_same_shape | split; lia | split; lia | lia |].
    apply scan_single_seed with (c := a) (r := r) (vm1 := vm1).
    - split; lia.
    - intros x y Hp. apply Hline in Hp. lia.
    - unfold findLines_pixel.
      rewrite getitem_in_range by lia. cbn [bind].
      replace (isLineColor (item img r a)) with true
        by (symmetry; apply Himg; [split; lia | lia]).
      rewrite isVisited_in_tracker
        by (apply in_tracker_same_shape with (img := img);
            [apply init_same_shape | split; lia]).
      rewrite init_unmarked. cbn [bind negb].
      set (seg := LineSegment.mk a r a r false).
      change (LineSegment.isNextPixelBelow seg img isLineColor)
        with (run_probe Below seg img isLineColor).
      rewrite run_probe_off_line
        by (subst seg; cbn [probed_pixel]; seg_simpl; cbn [fst snd];
            rewrite Hline; lia).
      cbn [bind]. unfold handleFourthAndSeventhOctant.
      assert (Hfind : findHorizontalPositiveSegment img
                        (LineSegment.x_start seg) (LineSegment.y_start seg)
                        isLineColor = Ok (b, r)).
      { subst seg. seg_simpl. unfold findHorizontalPositiveSegment.
        destruct (@findHorizontalPositiveSegment_while_spec img isLineColor r
                    Hr (Z.to_nat (shape1 img - a)) a)
          as (l' & -> & Hle & Hup & Hon & Hstop); [lia | lia |].
        cbn [bind].
        assert (Hl' : l' = b + 1).
        { destruct (Z.lt_trichotomy l' (b + 1)) as [Hlt | [Heq | Hgt]];
            [exfalso | exact Heq | exfalso].
          - assert (Hc : isLineColor (item img r l') = true)
              by (apply Himg; [split; lia | lia]).
            rewrite Hstop in Hc by lia. discriminate.
          - assert (Hc : isLineColor (item img r (b + 1)) = true)
              by (apply Hon; lia).
            apply Himg in Hc; [lia | split; lia]. }
        subst l'. do 2 f_equal. lia. }
      rewrite Hfind. cbn [bind].
      subst seg. unfold LineSegment.setEndCoordinate. seg_simpl.
      rewrite Hset. cbn [bind].
      set (seg1 := LineSegment.mk a r b r false).
      change (LineSegment.isNextPixelRightDown seg1 img isLineColor)
        with (run_probe RightDown seg1 img isLineColor).
      change (LineSegment.isNextPixelLeftDown seg1 img isLineColor)
        with (run_probe LeftDown seg1 img isLineColor).
      rewrite run_probe_off_line
        by (subst seg1; cbn [probed_pixel]; seg_simpl; cbn [fst snd];
            rewrite Hline; lia).
      cbn [bind].
      rewrite run_probe_off_line
        by (subst seg1; cbn [probed_pixel]; seg_simpl; cbn [fst snd];
            rewrite Hline; lia).
      cbn [bind]. reflexivity.
    - exact Hshape1.
    - intros x y Hp. apply Hline in Hp. destruct Hp as [-> Hx].
      rewrite Hm1. apply orb_true_iff. left.
      rewrite !andb_true_iff. repeat split;
        [apply Z.eqb_refl | apply Z.leb_le; lia | apply Z.leb_le; lia]. }
  split; [exact Hrun|]. unfold findLines. rewrite Hrun. reflexivity.
Qed.

(** X28.  An image whose line pixels are exactly the pixels of one
    vertical run of two pixels or more, from row [a] to row [b] of column
    [c], is traced into that one segment, flagged vertical. *)
Theorem findLines_vertical_run (c a b : Z) :
  0 <= c < shape1 img -> 0 <= a < b -> b < shape0 img ->
  (forall x y, in_bounds img x y ->
               (isLineColor (item img y x) = true <-> x = c /\ a <= y <= b)) ->
  _findLines img isLineColor = Ok [LineSegment.mk c a c b true]
  /\ findLines img isLineColor = Ok [[c; a; c; b]].
Proof.
  intros Hc Hab Hb Himg.
  assert (Hline : forall x y, line_pixel img isLineColor x y
                              <-> (x = c /\ a <= y <= b)).
  { intros x y. split.
    - intros [Hin Hcol]. now apply Himg.
    - intros [-> Hy]. assert (Hin : in_bounds img c y) by (split; lia).
      split; [exact Hin|]. now apply Himg. }
  assert (Hrun : _findLines img isLineColor = Ok [LineSegment.mk c a c b true]).
  { destruct (@setColumnVisited_ordered (VisitedMatrix.init img) img c a b)
      as (vm1 & Hset & Hshape1 & Hm1);
      [apply init_same_shape | split; lia | split; lia | lia |].
    apply scan_single_seed with (c := c) (r := a) (vm1 := vm1).
    - split; lia.
    - intros x y Hp. apply Hline in Hp. lia.
    - unfold findLines_pixel.
      rewrite getitem_in_range by lia. cbn [bind].
      replace (isLineColor (item img a c)) with true
        by (symmetry; apply Himg; [split; lia | lia]).
      rewrite isVisited_in_tracker
        by (apply in_tracker_same_shape with (img := img);
            [apply init_same_shape | split; lia]).
      rewrite init_unmarked. cbn [bind negb].
      set (seg := LineSegment.mk c a c a false).
      change (LineSegment.isNextPixelBelow seg img isLineColor)
        with (run_probe Below seg img isLineColor).
      assert (Hbelow : run_probe Below seg img isLineColor = Ok true).
      { rewrite run_probe_eq. subst seg. cbn [probed_pixel]. seg_simpl.
        replace (LineSegment.isValidIndice img c (a + 1)) with true
          by (symmetry; apply LineSegment_isValidIndice_spec; split; lia).
        f_equal. apply Himg; [split; lia | lia]. }
      rewrite Hbelow. cbn [bind].
      unfold handleFifthAndSixthOctant, handleFifthAndSixthOctant_init.
      subst seg. seg_simpl.
      assert (Hfind : findVerticalSegment img c a isLineColor = Ok (c, b)).
      { unfold findVerticalSegment.
        destruct (@findVerticalSegment_while_spec img isLineColor c
                    Hc (Z.to_nat (shape0 img - a)) a)
          as (l' & -> & Hle & Hup & Hon & Hstop); [lia | lia |].
        cbn [bind].
        assert (Hl' : l' = b + 1).
        { destruct (Z.lt_trichotomy l' (b + 1)) as [Hlt | [Heq | Hgt]];
            [exfalso | exact Heq | exfalso].
          - assert (Hcol : isLineColor (item img l' c) = true)
              by (apply Himg; [split; lia | lia]).
            rewrite Hstop in Hcol by lia. discriminate.
          - assert (Hcol : isLineColor (item img (b + 1) c) = true)
              by (apply Hon; lia).
            apply Himg in Hcol; [lia | split; lia]. }
        subst l'. do 2 f_equal. lia. }
      rewrite Hfind. cbn [bind].
      unfold LineSegment.setEndCoordinate. seg_simpl. rewrite Hset.
      cbn [bind lineSegment].
      set (seg1 := LineSegment.mk c a c b true).
      unfold extension_fuel. rewrite while_moreSeg_S. cbn [moreSeg].
      unfold handleFifthAndSixthOctant_body at 1.
      cbn [lineSegment run_end moreSeg visited_matrix x_temp].
      change (LineSegment.isNextPixelRightDown seg1 img isLineColor)
        with (run_probe RightDown seg1 img isLineColor).
      change (LineSegment.isNextPixelLeftDown seg1 img isLineColor)
        with (run_probe LeftDown seg1 img isLineColor).
      rewrite run_probe_off_line
        by (subst seg1; cbn [probed_pixel]; seg_simpl; cbn [fst snd];
            rewrite Hline; lia).
      cbn [bind].
      rewrite run_probe_off_line
        by (subst seg1; cbn [probed_pixel]; seg_simpl; cbn [fst snd];
            rewrite Hline; lia).
      cbn [bind].
      match goal with
      | |- context [if ?c then _ else _] =>
          replace c with false
            by (symmetry; apply andb_false_iff; left; rewrite Z.geb_leb;
                apply Z.leb_gt; subst seg1; unfold LineSegment.getYLength;
                seg_simpl; lia)
      end.
      cbn [bind]. rewrite while_moreSeg_stopped by reflexivity.
      cbn [bind lineSegment visited_matrix]. reflexivity.
    - exact Hshape1.
    - intros x y Hp. apply Hline in Hp. destruct Hp as [-> Hy].
      rewrite Hm1. apply orb_true_iff. left.
      rewrite !andb_true_iff. repeat split;
        [apply Z.eqb_refl | apply Z.leb_le; lia | apply Z.leb_le; lia]. }
  split; [exact Hrun|]. unfold findLines. rewrite Hrun. reflexivity.
Qed.

End SingleRun.

(** A 3 x 5 image with the run (1,1)-(3,1). *)
Lemma findLines_horizontal_run_witness :
  findLines (array_of_rows [[0; 0; 0; 0; 0]; [0; 1; 1; 1; 0]; [0; 0; 0; 0; 0]])
            (Z.eqb 1)
  = Ok [[1; 1; 3; 1]].
Proof.
  apply (@findLines_horizontal_run
           (array_of_rows [[0; 0; 0; 0; 0]; [0; 1; 1; 1; 0]; [0; 0; 0; 0; 0]])
           (Z.eqb 1) 1 1 3); [cbn; lia | lia | cbn; lia |].
  intros x y [Hx Hy]. cbn in Hx, Hy.
  assert (Hcases : (y = 0 \/ y = 1 \/ y = 2)
                   /\ (x = 0 \/ x = 1 \/ x = 2 \/ x = 3 \/ x = 4)) by lia.
  destruct Hcases as [[-> | [-> | ->]] [-> | [-> | [-> | [-> | ->]]]]];
    cbn; split; intros H; try discriminate; try reflexivity; lia.
Defined.

(** A 4 x 3 image with the run (1,0)-(1,2). *)
Lemma findLines_vertical_run_witness :
  findLines (array_of_rows [[0; 1; 0]; [0; 1; 0]; [0; 1; 0]; [0; 0; 0]])
            (Z.eqb 1)
  = Ok [[1; 0; 1; 2]].
Proof.
  apply (@findLines_vertical_run
           (array_of_rows [[0; 1; 0]; [0; 1; 0]; [0; 1; 0]; [0; 0; 0]])
           (Z.eqb 1) 1 0 2); [cbn; lia | lia | cbn; lia |].
  intros x y [Hx Hy]. cbn in Hx, Hy.
  assert (Hcases : (y = 0 \/ y = 1 \/ y = 2 \/ y = 3)
                   /\ (x = 0 \/ x = 1 \/ x = 2)) by lia.
  destruct Hcases as [[-> | [-> | [-> | ->]]] [-> | [-> | ->]]];
    cbn; split; intros H; try discriminate; try reflexivity; lia.
Defined.

(* ================================================================== *)
(** ** Tracing a staircase of equal runs *)

Section Staircase.

Variable img : image.
Variable isLineColor : Z -> bool.

(** The run finder stops at the last pixel of the run it starts in. *)
Lemma findHorizontalPositiveSegment_exact (x y e : Z) :
  0 <= y < shape0 img -> 0 <= x <= e -> e < shape1 img ->
  (forall c, x <= c <= e -> isLineColor (item img y c) = true) ->
  (e + 1 < shape1 img -> isLineColor (item img y (e + 1)) = false) ->
  findHorizontalPositiveSegment img x y isLineColor = Ok (e, y).
Proof.
  intros Hy Hx He Hon Hoff. unfold findHorizontalPositiveSegment.
  destruct (@findHorizontalPositiveSegment_while_spec img isLineColor y
              Hy (Z.to_nat (shape1 img - x)) x)
    as (l' & -> & Hle & Hup & Hrun & Hstop); [lia | lia |].
  cbn [bind].
  assert (Hl' : l' = e + 1).
  { destruct (Z.lt_trichotomy l' (e + 1)) as [Hlt | [Heq | Hgt]];
      [exfalso | exact Heq | exfalso].
    - assert (Hc : isLineColor (item img y l') = true) by (apply Hon; lia).
      rewrite Hstop in Hc by lia. discriminate.
    - assert (Hc : isLineColor (item img y (e + 1)) = true)
        by (apply Hrun; lia).
      rewrite Hoff in Hc by lia. discriminate. }
  subst l'. do 2 f_equal. lia.
Qed.

Variables x0 y0 k n : Z.

Hypothesis Hk : 1 <= k.
Hypothesis Hn : 2 <= n.
Hypothesis Hx0 : 0 <= x0.
Hypothesis Hy0 : 0 <= y0.
Hypothesis Hwidth : x0 + n * k <= shape1 img.
Hypothesis Hheight : y0 + n <= shape0 img.

(** The line pixels are the [n] runs of [k] pixels: run [m] is in row
    [y0 + m] and starts in column [x0 + k * m]. *)
Hypothesis Himg :
  forall x y, in_bounds img x y ->
    (isLineColor (item img y x) = true
     <-> y0 <= y < y0 + n
         /\ x0 + k * (y - y0) <= x < x0 + k * (y - y0 + 1)).

(** The segment after [m] runs. *)
Definition stair (m : Z) : LineSegment.t :=
  LineSegment.mk x0 y0 (x0 + k * m - 1) (y0 + m - 1) false.

Lemma stair_width (m : Z) : 0 <= m <= n -> x0 + k * m <= shape1 img.
Proof. intros Hm. nia. Qed.

Lemma stair_line (x y : Z) :
  line_pixel img isLineColor x y
  <-> y0 <= y < y0 + n /\ x0 + k * (y - y0) <= x < x0 + k * (y - y0 + 1).
Proof.
  split.
  - intros [Hin Hc]. now apply Himg.
  - intros [Hy Hx].
    assert (Hin : in_bounds img x y).
    { pose proof (@stair_width (y - y0 + 1)). split; nia. }
    split; [exact Hin|]. now apply Himg.
Qed.

Lemma stair_run (m : Z) :
  0 <= m < n ->
  findHorizontalPositiveSegment img (x0 + k * m) (y0 + m) isLineColor
  = Ok (x0 + k * (m + 1) - 1, y0 + m).
Proof.
  intros Hm. pose proof (@stair_width (m + 1)) as Hw.
  apply findHorizontalPositiveSegment_exact; try nia.
  - intros c Hc. apply stair_line. split; [lia|].
    replace (y0 + m - y0) with m by lia. lia.
  - intros Hin.
    destruct (isLineColor (item img (y0 + m) (x0 + k * (m + 1) - 1 + 1)))
      eqn:Hc; [|reflexivity].
    exfalso. apply Himg in Hc; [|split; lia].
    replace (y0 + m - y0) with m in Hc by lia. lia.
Qed.

(** The loop of [handleSeventhOctant] from the state after [m] runs. *)
Lemma stair_loop (rem : nat) :
  forall (m : Z) (vm : VisitedMatrix.t) (xt : Z) (found : option (Z * Z))
         (fuel : nat),
    1 <= m -> m + Z.of_nat rem = n -> (rem < fuel)%nat ->
    same_shape vm img ->
    match found with
    | None => (1 <= rem)%nat
    | Some (x_end, _) => x_end = x0 + k * m - 1
    end ->
    (forall x y, line_pixel img isLineColor x y -> y < y0 + m ->
                 marked vm x y = true) ->
    exists st',
      while_moreSeg fuel (handleSeventhOctant_body img isLineColor k (2 * k))
        (mk_locals (stair m) vm xt found true) = Ok st'
      /\ lineSegment st' = stair n
      /\ same_shape (visited_matrix st') img
      /\ (forall x y, line_pixel img isLineColor x y ->
                      marked (visited_matrix st') x y = true).
Proof.
  induction rem as [|rem IH]; intros m vm xt found fuel Hm Hrem Hfuel Hshape
                                     Hfound Hmarks;
    (destruct fuel as [|fuel]; [lia|]);
    rewrite while_moreSeg_S; cbn [moreSeg];
    unfold handleSeventhOctant_body at 1;
    cbn [lineSegment run_end moreSeg visited_matrix x_temp];
    change (LineSegment.isNextPixelRightDown (stair m) img isLineColor)
      with (run_probe RightDown (stair m) img isLineColor).
  - (* the last run has been appended *)
    assert (Hmn : m = n) by lia. subst m.
    rewrite run_probe_off_line
      by (unfold stair; cbn [probed_pixel]; seg_simpl; cbn [fst snd];
          rewrite stair_line; lia).
    cbn [bind]. destruct found as [[x_end y_end]|]; [|lia]. subst x_end.
    match goal with
    | |- context [if ?c then _ else _] =>
        replace c with false
          by (symmetry; apply andb_false_iff; left; rewrite Z.geb_leb;
              apply Z.leb_gt; unfold stair; seg_simpl; lia)
    end.
    cbn [bind]. rewrite while_moreSeg_stopped by reflexivity.
    eexists. split; [reflexivity|]. cbn [lineSegment visited_matrix].
    split; [reflexivity|]. split; [exact Hshape|].
    intros x y Hp. apply Hmarks; [exact Hp|].
    apply stair_line in Hp. lia.
  - (* one more run *)
    assert (Hmn : 1 <= m < n) by lia.
    pose proof (@stair_width (m + 1)) as Hw.
    assert (Hprobe : run_probe RightDown (stair m) img isLineColor = Ok true).
    { rewrite run_probe_eq. unfold stair. cbn [probed_pixel]. seg_simpl.
      replace (LineSegment.isValidIndice img (x0 + k * m - 1 + 1)
                 (y0 + m - 1 + 1)) with true
        by (symmetry; apply LineSegment_isValidIndice_spec; split; nia).
      f_equal. apply Himg; [split; nia|].
      replace (y0 + m - 1 + 1 - y0) with m by lia. lia. }
    rewrite Hprobe. cbn [bind].
    assert (Hxe : LineSegment.x_end (stair m) + 1 = x0 + k * m)
      by (unfold stair; seg_simpl; lia).
    assert (Hye : LineSegment.y_end (stair m) + 1 = y0 + m)
      by (unfold stair; seg_simpl; lia).
    rewrite !Hxe, !Hye. rewrite stair_run by lia. cbn [bind].
    match goal with
    | |- context [if ?c then _ else _] =>
        replace c with true
          by (symmetry; apply andb_true_iff; split;
              [rewrite Z.geb_leb|]; apply Z.leb_le; lia)
    end.
    destruct (@setRowVisited_ordered vm img (y0 + m) (x0 + k * m)
                (x0 + k * (m + 1) - 1))
      as (vm2 & -> & Hshape2 & Hm2);
      [exact Hshape | split; nia | split; nia | lia |].
    cbn [bind].
    replace (LineSegment.setEndCoordinate (stair m) (x0 + k * (m + 1) - 1)
               (y0 + m))
      with (stair (m + 1))
      by (unfold stair, LineSegment.setEndCoordinate; seg_simpl;
          f_equal; lia).
    apply IH; try lia; try assumption.
    intros x y Hp Hy. rewrite Hm2.
    destruct (Z.eq_dec y (y0 + m)) as [-> | Hne].
    + apply stair_line in Hp.
      replace (y0 + m - y0) with m in Hp by lia.
      apply orb_true_iff. left. rewrite !andb_true_iff.
      repeat split; [apply Z.eqb_refl | apply Z.leb_le; lia
                     | apply Z.leb_le; lia].
    + apply orb_true_iff. right. apply Hmarks; [exact Hp | lia].
Qed.

(** X29.  An image whose line pixels are exactly a staircase of [n >= 2]
    runs of [k] pixels, each run one row below and right after the run
    before it, is traced into the one segment that leads from the first
    pixel of the first run to the last pixel of the last run. *)
Theorem findLines_staircase :
  _findLines img isLineColor
  = Ok [LineSegment.mk x0 y0 (x0 + n * k - 1) (y0 + n - 1) false]
  /\ findLines img isLineColor
     = Ok [[x0; y0; x0 + n * k - 1; y0 + n - 1]].
Proof.
  assert (Hrun : _findLines img isLineColor = Ok [stair n]).
  { pose proof (@stair_width 1) as Hw1.
    destruct (@setRowVisited_ordered (VisitedMatrix.init img) img y0 x0
                (x0 + k - 1))
      as (vm1 & Hset & Hshape1 & Hm1);
      [apply init_same_shape | split; lia | split; lia | lia |].
    destruct (@stair_loop (Z.to_nat (n - 1)) 1 vm1 0 None
                (extension_fuel img))
      as (st' & Hloop & Hseg & Hshape' & Hmarks');
      [lia | lia | unfold extension_fuel; lia | exact Hshape1 | lia | |].
    { intros x y Hp Hy. rewrite Hm1. apply stair_line in Hp.
      assert (Hy' : y = y0) by lia. subst y.
      replace (y0 - y0) with 0 in Hp by lia.
      apply orb_true_iff. left. rewrite !andb_true_iff.
      repeat split; [apply Z.eqb_refl | apply Z.leb_le; lia
                     | apply Z.leb_le; lia]. }
    apply scan_single_seed with (c := x0) (r := y0)
                                (vm1 := visited_matrix st').
    - split; lia.
    - intros x y Hp. apply stair_line in Hp.
      destruct (Z.eq_dec y y0) as [-> | Hne]; [|lia].
      replace (y0 - y0) with 0 in Hp by lia. lia.
    - unfold findLines_pixel.
      rewrite getitem_in_range by lia. cbn [bind].
      replace (isLineColor (item img y0 x0)) with true
        by (symmetry; apply Himg; [split; lia|];
            replace (y0 - y0) with 0 by lia; lia).
      rewrite isVisited_in_tracker
        by (apply in_tracker_same_shape with (img := img);
            [apply init_same_shape | split; lia]).
      rewrite init_unmarked. cbn [bind negb].
      set (seg := LineSegment.mk x0 y0 x0 y0 false).
      change (LineSegment.isNextPixelBelow seg img isLineColor)
        with (run_probe Below seg img isLineColor).
      rewrite run_probe_off_line
        by (subst seg; cbn [probed_pixel]; seg_simpl; cbn [fst snd];
            rewrite stair_line; replace (y0 + 1 - y0) with 1 by lia; lia).
      cbn [bind]. unfold handleFourthAndSeventhOctant.
      subst seg. seg_simpl.
      pose proof (@stair_run 0) as Hfind.
      replace (x0 + k * 0) with x0 in Hfind by lia.
      replace (y0 + 0) with y0 in Hfind by lia.
      replace (x0 + k * (0 + 1) - 1) with (x0 + k - 1) in Hfind by lia.
      rewrite Hfind by lia. cbn [bind].
      unfold LineSegment.setEndCoordinate. seg_simpl.
      rewrite Hset. cbn [bind].
      replace (LineSegment.mk x0 y0 (x0 + k - 1) y0 false) with (stair 1)
        by (unfold stair; f_equal; lia).
      change (LineSegment.isNextPixelRightDown (stair 1) img isLineColor)
        with (run_probe RightDown (stair 1) img isLineColor).
      assert (Hprobe : run_probe RightDown (stair 1) img isLineColor
                       = Ok true).
      { pose proof (@stair_width 2) as Hw2.
        rewrite run_probe_eq. unfold stair. cbn [probed_pixel]. seg_simpl.
        replace (LineSegment.isValidIndice img (x0 + k * 1 - 1 + 1)
                   (y0 + 1 - 1 + 1)) with true
          by (symmetry; apply LineSegment_isValidIndice_spec; split; lia).
        f_equal. apply Himg; [split; lia|].
        replace (y0 + 1 - 1 + 1 - y0) with 1 by lia. lia. }
      rewrite Hprobe. cbn [bind]. unfold handleSeventhOctant.
      replace (LineSegment.getXLength (stair 1)) with k
        by (unfold LineSegment.getXLength, stair; seg_simpl; lia).
      rewrite Hloop. cbn [bind]. rewrite Hseg. reflexivity.
    - exact Hshape'.
    - exact Hmarks'. }
  replace (x0 + n * k - 1) with (x0 + k * n - 1) by lia.
  split; [exact Hrun|]. unfold findLines. rewrite Hrun. reflexivity.
Qed.

End Staircase.

(** The diagonal of a 3 x 3 image: three runs of one pixel. *)
Lemma findLines_staircase_witness :
  findLines (array_of_rows [[1; 0; 0]; [0; 1; 0]; [0; 0; 1]]) (Z.eqb 1)
  = Ok [[0; 0; 2; 2]].
Proof.
  apply (@findLines_staircase
           (array_of_rows [[1; 0; 0]; [0; 1; 0]; [0; 0; 1]])
           (Z.eqb 1) 0 0 1 3); try lia; try (cbn; lia).
  intros x y [Hx Hy]. cbn in Hx, Hy.
  assert (Hcases : (y = 0 \/ y = 1 \/ y = 2) /\ (x = 0 \/ x = 1 \/ x = 2))
    by lia.
  destruct Hcases as [[-> | [-> | ->]] [-> | [-> | ->]]];
    cbn; split; intros H; try discriminate; try reflexivity; lia.
Defined.

(* ================================================================== *)
(** ** Tracing a staircase that descends to the left *)

(** [setRowVisited] swaps its two columns when they come in descending
    order. *)
Lemma setRowVisited_swap (vm : VisitedMatrix.t) (y x1 x2 : Z) :
  x2 <= x1 ->
  VisitedMatrix.setRowVisited vm y x1 x2
  = VisitedMatrix.setRowVisited vm y x2 x1.
Proof.
  intros Hle. unfold VisitedMatrix.setRowVisited.
  rewrite (andb_comm (VisitedMatrix.isValidIndice vm x1 y)).
  destruct (negb _); [reflexivity|].
  destruct (x1 >? x2) eqn:E1, (x2 >? x1) eqn:E2; zbool; try reflexivity;
    try lia.
  replace x2 with x1 by lia. reflexivity.
Qed.

Section StaircaseLeft.

Variable img : image.
Variable isLineColor : Z -> bool.

(** The run finder stops at the first pixel of the run it starts in. *)
Lemma findHorizontalNegativeSegment_exact (x y e : Z) :
  0 <= y < shape0 img -> 0 <= e <= x -> x < shape1 img ->
  (forall c, e <= c <= x -> isLineColor (item img y c) = true) ->
  (0 <= e - 1 -> isLineColor (item img y (e - 1)) = false) ->
  findHorizontalNegativeSegment img x y isLineColor = Ok (e, y).
Proof.
  intros Hy He Hx Hon Hoff. unfold findHorizontalNegativeSegment.
  destruct (@findHorizontalNegativeSegment_while_spec img isLineColor y
              Hy (Z.to_nat (x + 1)) x)
    as (l' & -> & Hle & Hlow & Hrun & Hstop); [lia | lia |].
  cbn [bind].
  assert (Hl' : l' = e - 1).
  { destruct (Z.lt_trichotomy l' (e - 1)) as [Hlt | [Heq | Hgt]];
      [exfalso | exact Heq | exfalso].
    - assert (Hc : isLineColor (item img y (e - 1)) = true)
        by (apply Hrun; lia).
      rewrite Hoff in Hc by lia. discriminate.
    - assert (Hc : isLineColor (item img y l') = true) by (apply Hon; lia).
      rewrite Hstop in Hc by lia. discriminate. }
  subst l'. do 2 f_equal. lia.
Qed.

Variables x0 y0 k n : Z.

Hypothesis Hk : 1 <= k.
Hypothesis Hn : 2 <= n.
Hypothesis Hleft : 0 <= x0 - k * (n - 1).
Hypothesis Hy0 : 0 <= y0.
Hypothesis Hwidth : x0 + k <= shape1 img.
Hypothesis Hheight : y0 + n <= shape0 img.

(** The line pixels are the [n] runs of [k] pixels: run [m] is in row
    [y0 + m] and starts in column [x0 - k * m]. *)
Hypothesis Himg :
  forall x y, in_bounds img x y ->
    (isLineColor (item img y x) = true
     <-> y0 <= y < y0 + n
         /\ x0 - k * (y - y0) <= x < x0 - k * (y - y0) + k).

(** The segment after [m] runs: its start is the first pixel of the
    lowest run, its end the last pixel of the first run. *)
Definition stair_left (m : Z) : LineSegment.t :=
  LineSegment.mk (x0 - k * (m - 1)) (y0 + m - 1) (x0 + k - 1) y0 false.

Lemma stair_left_column (m : Z) : 0 <= m < n -> 0 <= x0 - k * m <= x0.
Proof. intros Hm. nia. Qed.

Lemma stair_left_line (x y : Z) :
  line_pixel img isLineColor x y
  <-> y0 <= y < y0 + n /\ x0 - k * (y - y0) <= x < x0 - k * (y - y0) + k.
Proof.
  split.
  - intros [Hin Hc]. now apply Himg.
  - intros [Hy Hx].
    assert (Hin : in_bounds img x y).
    { pose proof (@stair_left_column (y - y0)). split; nia. }
    split; [exact Hin|]. now apply Himg.
Qed.

Lemma stair_left_run (m : Z) :
  0 <= m < n ->
  findHorizontalNegativeSegment img (x0 - k * m + k - 1) (y0 + m) isLineColor
  = Ok (x0 - k * m, y0 + m).
Proof.
  intros Hm. pose proof (stair_left_column Hm) as Hcol.
  apply findHorizontalNegativeSegment_exact; try lia.
  - intros c Hc. apply stair_left_line. split; [lia|].
    replace (y0 + m - y0) with m by lia. lia.
  - intros Hin.
    destruct (isLineColor (item img (y0 + m) (x0 - k * m - 1)))
      eqn:Hc; [|reflexivity].
    exfalso. apply Himg in Hc; [|split; lia].
    replace (y0 + m - y0) with m in Hc by lia. lia.
Qed.

(** The loop of [handleFourthOctant] from the state after [m] runs. *)
Lemma stair_left_loop (rem : nat) :
  forall (m : Z) (vm : VisitedMatrix.t) (xt : Z) (found : option (Z * Z))
         (fuel : nat),
    1 <= m -> m + Z.of_nat rem = n -> (rem < fuel)%nat ->
    same_shape vm img ->
    match found with
    | None => (1 <= rem)%nat
    | Some (x_end, _) => x_end = x0 - k * (m - 1)
    end ->
    (forall x y, line_pixel img isLineColor x y -> y < y0 + m ->
                 marked vm x y = true) ->
    exists st',
      while_moreSeg fuel (handleFourthOctant_body img isLineColor k (2 * k))
        (mk_locals (stair_left m) vm xt found true) = Ok st'
      /\ lineSegment st' = stair_left n
      /\ same_shape (visited_matrix st') img
      /\ (forall x y, line_pixel img isLineColor x y ->
                      marked (visited_matrix st') x y = true).
Proof.
  induction rem as [|rem IH]; intros m vm xt found fuel Hm Hrem Hfuel Hshape
                                     Hfound Hmarks;
    (destruct fuel as [|fuel]; [lia|]);
    rewrite while_moreSeg_S; cbn [moreSeg];
    unfold handleFourthOctant_body at 1;
    cbn [lineSegment run_end moreSeg visited_matrix x_temp];
    change (LineSegment.isNextPixelLeftDown (stair_left m) img isLineColor)
      with (run_probe LeftDown (stair_left m) img isLineColor);
    assert (Hxs : LineSegment.x_start (stair_left m) - 1
                  = x0 - k * m + k - 1)
      by (unfold stair_left; seg_simpl; lia);
    assert (Hys : LineSegment.y_start (stair_left m) + 1 = y0 + m)
      by (unfold stair_left; seg_simpl; lia).
  - (* the last run has been appended *)
    assert (Hmn : m = n) by lia. subst m.
    rewrite run_probe_off_line
      by (cbn [probed_pixel]; change (LineSegment._vertical (stair_left n))
                                with false;
          cbn [fst snd]; rewrite Hxs, Hys, stair_left_line; lia).
    cbn [bind]. destruct found as [[x_end y_end]|]; [|lia]. subst x_end.
    rewrite Hxs.
    match goal with
    | |- context [if ?c then _ else _] =>
        replace c with false
          by (symmetry; apply andb_false_iff; left; rewrite Z.geb_leb;
              apply Z.leb_gt; lia)
    end.
    cbn [bind]. rewrite while_moreSeg_stopped by reflexivity.
    eexists. split; [reflexivity|]. cbn [lineSegment visited_matrix].
    split; [reflexivity|]. split; [exact Hshape|].
    intros x y Hp. apply Hmarks; [exact Hp|].
    apply stair_left_line in Hp. lia.
  - (* one more run *)
    assert (Hmn : 1 <= m < n) by lia.
    pose proof (@stair_left_column m) as Hcol.
    assert (Hprobe : run_probe LeftDown (stair_left m) img isLineColor
                     = Ok true).
    { rewrite run_probe_eq. cbn [probed_pixel].
      change (LineSegment._vertical (stair_left m)) with false.
      cbn iota. rewrite Hxs, Hys.
      replace (LineSegment.isValidIndice img (x0 - k * m + k - 1) (y0 + m))
        with true
        by (symmetry; apply LineSegment_isValidIndice_spec; split; lia).
      f_equal. apply Himg; [split; lia|].
      replace (y0 + m - y0) with m by lia. lia. }
    rewrite Hprobe. cbn [bind]. rewrite !Hxs, !Hys.
    rewrite stair_left_run by lia. cbn [bind].
    match goal with
    | |- context [if ?c then _ else _] =>
        replace c with true
          by (symmetry; apply andb_true_iff; split;
              [rewrite Z.geb_leb|]; apply Z.leb_le; lia)
    end.
    rewrite setRowVisited_swap by lia.
    destruct (@setRowVisited_ordered vm img (y0 + m) (x0 - k * m)
                (x0 - k * m + k - 1))
      as (vm2 & -> & Hshape2 & Hm2);
      [exact Hshape | split; lia | split; lia | lia |].
    cbn [bind].
    replace (LineSegment.setStartCoordinate (stair_left m) (x0 - k * m)
               (y0 + m))
      with (stair_left (m + 1))
      by (unfold stair_left, LineSegment.setStartCoordinate; seg_simpl;
          f_equal; lia).
    apply IH; try lia; try assumption.
    intros x y Hp Hy. rewrite Hm2.
    destruct (Z.eq_dec y (y0 + m)) as [-> | Hne].
    + apply stair_left_line in Hp.
      replace (y0 + m - y0) with m in Hp by lia.
      apply orb_true_iff. left. rewrite !andb_true_iff.
      repeat split; [apply Z.eqb_refl | apply Z.leb_le; lia
                     | apply Z.leb_le; lia].
    + apply orb_true_iff. right. apply Hmarks; [exact Hp | lia].
Qed.

(** X30.  An image whose line pixels are exactly a staircase of [n >= 2]
    runs of [k] pixels, each run one row below and right before the run
    above it, is traced into one segment.  Its start is the first pixel of
    the lowest run and its end is the last pixel of the first run: the
    segment is reported from bottom left to top right. *)
Theorem findLines_staircase_left :
  _findLines img isLineColor
  = Ok [LineSegment.mk (x0 - k * (n - 1)) (y0 + n - 1) (x0 + k - 1) y0 false]
  /\ findLines img isLineColor
     = Ok [[x0 - k * (n - 1); y0 + n - 1; x0 + k - 1; y0]].
Proof.
  assert (Hrun : _findLines img isLineColor = Ok [stair_left n]).
  { pose proof (@stair_left_column 0) as Hc0.
    pose proof (@stair_left_column 1) as Hc1.
    destruct (@setRowVisited_ordered (VisitedMatrix.init img) img y0 x0
                (x0 + k - 1))
      as (vm1 & Hset & Hshape1 & Hm1);
      [apply init_same_shape | split; lia | split; lia | lia |].
    destruct (@stair_left_loop (Z.to_nat (n - 1)) 1 vm1 0 None
                (extension_fuel img))
      as (st' & Hloop & Hseg & Hshape' & Hmarks');
      [lia | lia | unfold extension_fuel; lia | exact Hshape1 | lia | |].
    { intros x y Hp Hy. rewrite Hm1. apply stair_left_line in Hp.
      assert (Hy' : y = y0) by lia. subst y.
      replace (y0 - y0) with 0 in Hp by lia.
      apply orb_true_iff. left. rewrite !andb_true_iff.
      repeat split; [apply Z.eqb_refl | apply Z.leb_le; lia
                     | apply Z.leb_le; lia]. }
    apply scan_single_seed with (c := x0) (r := y0)
                                (vm1 := visited_matrix st').
    - split; lia.
    - intros x y Hp. apply stair_left_line in Hp.
      destruct (Z.eq_dec y y0) as [-> | Hne]; [|lia].
      replace (y0 - y0) with 0 in Hp by lia. lia.
    - unfold findLines_pixel.
      rewrite getitem_in_range by lia. cbn [bind].
      replace (isLineColor (item img y0 x0)) with true
        by (symmetry; apply Himg; [split; lia|];
            replace (y0 - y0) with 0 by lia; lia).
      rewrite isVisited_in_tracker
        by (apply in_tracker_same_shape with (img := img);
            [apply init_same_shape | split; lia]).
      rewrite init_unmarked. cbn [bind negb].
      set (seg := LineSegment.mk x0 y0 x0 y0 false).
      change (LineSegment.isNextPixelBelow seg img isLineColor)
        with (run_probe Below seg img isLineColor).
      rewrite run_probe_off_line
        by (subst seg; cbn [probed_pixel]; seg_simpl; cbn [fst snd];
            rewrite stair_left_line; replace (y0 + 1 - y0) with 1 by lia;
            lia).
      cbn [bind]. unfold handleFourthAndSeventhOctant.
      subst seg. seg_simpl.
      assert (Hfind : findHorizontalPositiveSegment img x0 y0 isLineColor
                      = Ok (x0 + k - 1, y0)).
      { apply findHorizontalPositiveSegment_exact; try lia.
        - intros c Hc. apply Himg; [split; lia|].
          replace (y0 - y0) with 0 by lia. lia.
        - intros Hin.
          destruct (isLineColor (item img y0 (x0 + k - 1 + 1))) eqn:Hc;
            [|reflexivity].
          exfalso. apply Himg in Hc; [|split; lia].
          replace (y0 - y0) with 0 in Hc by lia. lia. }
      rewrite Hfind. cbn [bind].
      unfold LineSegment.setEndCoordinate. seg_simpl.
      rewrite Hset. cbn [bind].
      replace (LineSegment.mk x0 y0 (x0 + k - 1) y0 false)
        with (stair_left 1)
        by (unfold stair_left; f_equal; lia).
      change (LineSegment.isNextPixelRightDown (stair_left 1) img isLineColor)
        with (run_probe RightDown (stair_left 1) img isLineColor).
      change (LineSegment.isNextPixelLeftDown (stair_left 1) img isLineColor)
        with (run_probe LeftDown (stair_left 1) img isLineColor).
      rewrite run_probe_off_line
        by (unfold stair_left; cbn [probed_pixel]; seg_simpl; cbn [fst snd];
            rewrite stair_left_line; replace (y0 + 1 - y0) with 1 by lia;
            lia).
      cbn [bind].
      assert (Hprobe : run_probe LeftDown (stair_left 1) img isLineColor
                       = Ok true).
      { rewrite run_probe_eq. unfold stair_left. cbn [probed_pixel].
        seg_simpl.
        replace (LineSegment.isValidIndice img (x0 - k * (1 - 1) - 1)
                   (y0 + 1 - 1 + 1)) with true
          by (symmetry; apply LineSegment_isValidIndice_spec; split; lia).
        f_equal. apply Himg; [split; lia|].
        replace (y0 + 1 - 1 + 1 - y0) with 1 by lia. lia. }
      rewrite Hprobe. cbn [bind]. unfold handleFourthOctant.
      replace (LineSegment.getXLength (stair_left 1)) with k
        by (unfold LineSegment.getXLength, stair_left; seg_simpl; lia).
      rewrite Hloop. cbn [bind]. rewrite Hseg. reflexivity.
    - exact Hshape'.
    - exact Hmarks'. }
  split; [exact Hrun|]. unfold findLines. rewrite Hrun. reflexivity.
Qed.

End StaircaseLeft.

(** The anti-diagonal of a 3 x 3 image: three runs of one pixel, reported
    from (0,2) to (2,0). *)
Lemma findLines_staircase_left_witness :
  findLines (array_of_rows [[0; 0; 1]; [0; 1; 0]; [1; 0; 0]]) (Z.eqb 1)
  = Ok [[0; 2; 2; 0]].
Proof.
  apply (@findLines_staircase_left
           (array_of_rows [[0; 0; 1]; [0; 1; 0]; [1; 0; 0]])
           (Z.eqb 1) 2 0 1 3); try lia; try (cbn; lia).
  intros x y [Hx Hy]. cbn in Hx, Hy.
  assert (Hcases : (y = 0 \/ y = 1 \/ y = 2) /\ (x = 0 \/ x = 1 \/ x = 2))
    by lia.
  destruct Hcases as [[-> | [-> | ->]] [-> | [-> | ->]]];
    cbn; split; intros H; try discriminate; try reflexivity; lia.
Defined.

(* ================================================================== *)
(** ** The acceptance window of the handlers *)

Section Window.

Variable img : image.
Variable isLineColor : Z -> bool.














End Window.


(* ================================================================== *)
(** ** The slope test is a test of direction *)

Open Scope R_scope.

Lemma py_round5_sign (r : R) :
  (0 <= r -> 0 <= py_round5 r) /\ (r <= 0 -> py_round5 r <= 0).
Proof.
  assert (Hpos : forall x, 0 <= x ->
            0 <= IZR (Int_part (x * 100000 + / 2)) / 100000).
  { intros x Hx.
    destruct (base_Int_part (x * 100000 + / 2)) as [Hlo Hhi].
    assert (H0 : (0 <= Int_part (x * 100000 + / 2))%Z).
    { apply Z.lt_succ_r, lt_IZR. rewrite succ_IZR. lra. }
    apply IZR_le in H0. lra. }
  unfold py_round5. destruct (Rle_dec 0 r) as [H | H]; split; intros Hr.
  - now apply Hpos.
  - assert (r = 0) by lra. subst r.
    replace (0 * 100000 + / 2) with (/ 2) by lra.
    rewrite <- (Int_part_spec (/ 2) 0) by lra. lra.
  - lra.
  - specialize (Hpos (- r)). lra.
Qed.

Lemma acos_sign (x : R) :
  -1 <= x <= 1 ->
  (0 <= x -> acos x <= PI / 2) /\ (x <= 0 -> PI / 2 <= acos x).
Proof.
  intros Hx. pose proof (acos_bound x) as Hb. pose proof PI_RGT_0 as Hpi.
  pose proof (cos_acos x Hx) as Hcos. split; intros Hs.
  - destruct (Rle_dec (acos x) (PI / 2)) as [H | H]; [exact H|].
    assert (Hneg : cos (acos x) < 0) by (apply cos_lt_0; lra). lra.
  - destruct (Rle_dec (PI / 2) (acos x)) as [H | H]; [exact H|].
    assert (Hgt : 0 < cos (acos x)) by (apply cos_gt_0; lra). lra.
Qed.

(** C6.  [computeAngle] returns the angle between the two direction
    vectors, start minus end: 90 when their dot product is 0, otherwise the
    arccosine, in degrees, of the cosine rounded to five decimals; it is 0
    for parallel vectors that point the same way and 180 for parallel
    vectors that point opposite ways.  With an [angle_epsilon],
    [haveEqualSlope] returns [True] exactly when that angle lies in
    [[-angle_epsilon, angle_epsilon]]: it is a test for vectors that point
    the same way, which segments on one line traced in opposite directions
    fail for every [angle_epsilon < 180], and which for
    [angle_epsilon < 90] only vectors with a positive dot product pass.
    Without [angle_epsilon] it raises [ValueError]. *)
Theorem haveEqualSlope_spec (line_1 line_2 : LineSegment.t) :
  let a_1 := (LineSegment.x_start line_1 - LineSegment.x_end line_1)%Z in
  let a_2 := (LineSegment.y_start line_1 - LineSegment.y_end line_1)%Z in
  let b_1 := (LineSegment.x_start line_2 - LineSegment.x_end line_2)%Z in
  let b_2 := (LineSegment.y_start line_2 - LineSegment.y_end line_2)%Z in
  let dot := (a_1 * b_1 + a_2 * b_2)%Z in
  let cross := (a_1 * b_2 - a_2 * b_1)%Z in
  (exists angle,
      computeAngle line_1 line_2 = Ok angle
      /\ angle = (if (0 =? dot)%Z then 90
                  else degrees
                         (acos (py_round5
                                  (IZR dot
                                   / (sqrt (IZR (a_1 ^ 2 + a_2 ^ 2))
                                      * sqrt (IZR (b_1 ^ 2 + b_2 ^ 2)))))))
      /\ 0 <= angle <= 180
      /\ (cross = 0%Z -> (0 < dot)%Z -> angle = 0)
      /\ (cross = 0%Z -> (dot < 0)%Z -> angle = 180)
      /\ ((dot < 0)%Z -> 90 <= angle)
      /\ forall angle_epsilon, exists r,
          haveEqualSlope line_1 line_2 (Some angle_epsilon) = Ok r
          /\ (r = true <-> - angle_epsilon <= angle <= angle_epsilon))
  /\ (forall angle_epsilon,
        cross = 0%Z -> (0 < dot)%Z -> 0 <= angle_epsilon ->
        haveEqualSlope line_1 line_2 (Some angle_epsilon) = Ok true)
  /\ (forall angle_epsilon,
        cross = 0%Z -> (dot < 0)%Z -> angle_epsilon < 180 ->
        haveEqualSlope line_1 line_2 (Some angle_epsilon) = Ok false)
  /\ (forall angle_epsilon,
        angle_epsilon < 90 ->
        haveEqualSlope line_1 line_2 (Some angle_epsilon) = Ok true ->
        (0 < dot)%Z)
  /\ haveEqualSlope line_1 line_2 None
     = Raise (ValueError "angle_epsilon not set").
Proof.
  intros a_1 a_2 b_1 b_2 dot cross.
  assert (Hangle : exists angle,
    computeAngle line_1 line_2 = Ok angle
    /\ angle = (if (0 =? dot)%Z then 90
                else degrees
                       (acos (py_round5
                                (IZR dot
                                 / (sqrt (IZR (a_1 ^ 2 + a_2 ^ 2))
                                    * sqrt (IZR (b_1 ^ 2 + b_2 ^ 2)))))))
    /\ 0 <= angle <= 180
    /\ (cross = 0%Z -> (0 < dot)%Z -> angle = 0)
    /\ (cross = 0%Z -> (dot < 0)%Z -> angle = 180)
    /\ ((dot < 0)%Z -> 90 <= angle)).
  { destruct (computeAngle_total line_1 line_2) as (angle & Hrun & Hrange).
    exists angle. split; [exact Hrun|].
    assert (Hval : angle
                   = (if (0 =? dot)%Z then 90
                      else degrees
                             (acos (py_round5
                                      (IZR dot
                                       / (sqrt (IZR (a_1 ^ 2 + a_2 ^ 2))
                                          * sqrt (IZR (b_1 ^ 2 + b_2 ^ 2)))))))).
    { revert Hrun. unfold computeAngle.
      fold a_1 a_2 b_1 b_2. fold dot.
      destruct (0 =? dot)%Z eqn:E; [now intros [= <-]|].
      apply Z.eqb_neq in E.
      destruct (@cosine_range a_1 a_2 b_1 b_2) as [Hpos Hr];
        [fold dot; lia|]. fold dot in Hr.
      destruct (Req_dec_T _ 0) as [H0 | _]; [lra|].
      apply py_round5_range in Hr. unfold math_acos.
      replace (Rle_bool (-1) _) with true
        by (symmetry; apply Rle_bool_true; lra).
      replace (Rle_bool _ 1) with true
        by (symmetry; apply Rle_bool_true; lra).
      cbn [andb bind]. now intros [= <-]. }
    split; [exact Hval|]. split; [exact Hrange|].
    split; [|split].
    - intros Hcross Hdot.
      pose proof (@computeAngle_same_direction line_1 line_2) as Hsame.
      cbv zeta in Hsame. fold a_1 a_2 b_1 b_2 in Hsame.
      rewrite Hsame in Hrun by (subst cross dot; lia).
      now injection Hrun as <-.
    - intros Hcross Hdot.
      pose proof (@computeAngle_opposite_direction line_1 line_2) as Hopp.
      cbv zeta in Hopp. fold a_1 a_2 b_1 b_2 in Hopp.
      rewrite Hopp in Hrun by (subst cross dot; lia).
      now injection Hrun as <-.
    - intros Hdot. rewrite Hval.
      replace (0 =? dot)%Z with false by (symmetry; apply Z.eqb_neq; lia).
      destruct (@cosine_range a_1 a_2 b_1 b_2) as [Hpos Hr];
        [fold dot; lia|]. fold dot in Hr.
      set (r := IZR dot
                / (sqrt (IZR (a_1 ^ 2 + a_2 ^ 2))
                   * sqrt (IZR (b_1 ^ 2 + b_2 ^ 2)))) in *.
      assert (Hneg : r <= 0).
      { unfold r, Rdiv. apply IZR_lt in Hdot.
        assert (0 < / (sqrt (IZR (a_1 ^ 2 + a_2 ^ 2))
                       * sqrt (IZR (b_1 ^ 2 + b_2 ^ 2))))
          by (now apply Rinv_0_lt_compat).
        nra. }
      pose proof (proj2 (py_round5_sign r) Hneg) as Hround.
      pose proof (py_round5_range Hr) as Hrr.
      pose proof (proj2 (acos_sign Hrr) Hround) as Hacos.
      pose proof PI_RGT_0 as Hpi. unfold degrees.
      apply Rmult_le_reg_r with PI; [lra|].
      unfold Rdiv. rewrite Rmult_assoc, Rinv_l by lra. lra. }
  destruct Hangle as (angle & Hrun & Hval & Hrange & Hsame & Hopp & Hobtuse).
  assert (Htest : forall angle_epsilon, exists r,
             haveEqualSlope line_1 line_2 (Some angle_epsilon) = Ok r
             /\ (r = true <-> - angle_epsilon <= angle <= angle_epsilon)).
  { intros eps. unfold haveEqualSlope. rewrite Hrun. cbn [bind].
    eexists. split; [reflexivity|].
    rewrite andb_true_iff, !Rle_bool_true. lra. }
  split; [|split; [|split; [|split; [|reflexivity]]]].
  - exists angle. repeat (split; [assumption|]). exact Htest.
  - intros eps Hcross Hdot Heps.
    destruct (Htest eps) as (r & -> & Hr). f_equal. apply Hr.
    rewrite (Hsame Hcross Hdot). lra.
  - intros eps Hcross Hdot Heps.
    destruct (Htest eps) as (r & -> & Hr). f_equal.
    destruct r; [|reflexivity]. exfalso.
    assert (Hin : - eps <= angle <= eps) by now apply Hr.
    rewrite (Hopp Hcross Hdot) in Hin. lra.
  - intros eps Heps Htrue.
    destruct (Htest eps) as (r & Hr & Hiff).
    rewrite Hr in Htrue. injection Htrue as ->.
    assert (Hin : - eps <= angle <= eps) by now apply Hiff.
    destruct (Z.lt_trichotomy dot 0) as [Hneg | [H0 | Hpos]];
      [exfalso | exfalso | exact Hpos].
    + specialize (Hobtuse Hneg). lra.
    + rewrite Hval, H0 in Hin. cbn in Hin. lra.
Qed.

(** The segment (0,0)-(2,1) against (5,5)-(1,3), which lies along the same
    direction traced the other way, and against (1,1)-(5,3), traced the
    same way. *)
Lemma haveEqualSlope_spec_witness :
  haveEqualSlope (LineSegment.mk 0 0 2 1 false) (LineSegment.mk 5 5 1 3 false)
    (Some 10) = Ok false
  /\ haveEqualSlope (LineSegment.mk 0 0 2 1 false)
       (LineSegment.mk 1 1 5 3 false) (Some 10) = Ok true.
Proof.
  split.
  - destruct (haveEqualSlope_spec (LineSegment.mk 0 0 2 1 false)
                (LineSegment.mk 5 5 1 3 false)) as (_ & _ & Hopp & _).
    apply Hopp; [reflexivity | reflexivity | lra].
  - destruct (haveEqualSlope_spec (LineSegment.mk 0 0 2 1 false)
                (LineSegment.mk 1 1 5 3 false)) as (_ & Hsame & _).
    apply Hsame; [reflexivity | reflexivity | lra].
Defined.

Close Scope R_scope.
